(** * Radar provider / timeline subsystem of the weather app

    A shallow embedding of the radar subsystem:
    - [app/lib/maps/state.ts]: the map reducer,
    - [components/maps/TimelineScrubber.tsx] and [app/lib/maps/timeline.ts]:
      the frame index helpers,
    - [app/(tabs)/maps.tsx]: the crossfade between two tile layers,
    - [app/lib/maps/radar/providers/rainviewer.ts] and
      [app/lib/maps/radarIem.ts]: the RainViewer manifest fetch, its caches
      and the tile template builders,
    - [app/lib/maps/resolveNearestRadar.ts]: the nearest radar site scan.

    Definitions come first, one module per source file; the theorems follow. *)

From Stdlib Require Import ZArith QArith Lia Lqa Sorted Permutation.
From stdpp Require Import gmap strings list fin_maps pretty.
From Equations Require Import Equations.
From Stdlib Require PrimFloat SpecFloat FloatOps.

Open Scope Z_scope.

(** ** JavaScript numbers

    A JS number is NaN, an infinity, or a finite double; every finite double is
    a rational, so the finite part is carried as a [Q].  Comparisons, [Math.min]
    and [Math.max] are exact on doubles and are defined here; the rounding
    operations are never defined on this type (the geometry code takes them as
    an interface, see [Geo.FloatOps]). *)
Module Js.

Inductive number : Type :=
  | NaN
  | NegInf
  | Fin (q : Q)
  | PosInf.

Definition isNaN (n : number) : bool :=
  match n with NaN => true | _ => false end.

(** [Number.isFinite] *)
Definition isFinite (n : number) : bool :=
  match n with Fin _ => true | _ => false end.

(** [a < b]; false as soon as one side is NaN. *)
Definition lt (a b : number) : bool :=
  match a, b with
  | NaN, _ | _, NaN => false
  | _, NegInf => false
  | NegInf, _ => true
  | PosInf, _ => false
  | Fin _, PosInf => true
  | Fin x, Fin y => negb (Qle_bool y x)
  end.

(** [a > b] *)
Definition gt (a b : number) : bool := lt b a.

(** [Math.min(a, b)] *)
Definition min (a b : number) : number :=
  if isNaN a || isNaN b then NaN else if lt b a then b else a.

(** [Math.max(a, b)] *)
Definition max (a b : number) : number :=
  if isNaN a || isNaN b then NaN else if lt a b then b else a.

(** Truthiness of a possibly missing string: [null], [undefined] and the
    empty string are falsy. *)
Definition truthy_str (s : option string) : bool :=
  match s with
  | None => false
  | Some s => negb (String.eqb s "")
  end.

End Js.

(** ** app/lib/maps/state.ts *)
Module State.
Import Js.

(** [MapViewId] of types.ts. *)
Inductive MapViewId : Type := radar | wildfire | storm | aviation.

Definition MapViewId_eqb (a b : MapViewId) : bool :=
  match a, b with
  | radar, radar | wildfire, wildfire | storm, storm | aviation, aviation => true
  | _, _ => false
  end.

(** Layer ids are the string keys of the [layers] object.  The TS type
    [LayerId] names the six catalog ids; the reducer itself never checks it,
    so the model keeps plain strings. *)

Record LatLon : Type := { lat : Q; lon : Q }.

Record Bounds : Type := { north : Q; south : Q; east : Q; west : Q }.

Record MapViewport : Type :=
  { center : LatLon; zoom : Q; bounds : option Bounds }.

(** [LayerRuntimeState].  TS declares both fields; an object built by
    spreading [undefined] has only the field written, so each field is
    optional in the model. *)
Record LayerRuntimeState : Type :=
  { enabled : option bool; opacity : option number }.

Record RadarTime : Type := { frameIndex : Z; playing : bool }.

Record MapRuntimeState : Type :=
  { viewId : MapViewId;
    nerdy : bool;
    viewport : MapViewport;
    layers : gmap string LayerRuntimeState;
    radarTime : RadarTime;
    wildfireTime : option string }.

(** The fields of [LayerCatalogItem] (layerCatalog.ts) that the state code
    reads, with title and z-order kept for identification. *)
Record LayerCatalogItem : Type :=
  { id : string; title : string; defaultOpacity : number; zIndex : Z }.

Definition LAYER_CATALOG : list LayerCatalogItem :=
  [ {| id := "radar.reflectivity"; title := "Radar";
       defaultOpacity := Fin (9 # 10); zIndex := 100 |};
    {| id := "wildfire.smoke"; title := "Smoke";
       defaultOpacity := Fin (55 # 100); zIndex := 80 |};
    {| id := "wildfire.perimeters"; title := "Fire perimeters";
       defaultOpacity := Fin (85 # 100); zIndex := 85 |};
    {| id := "wildfire.hotspots"; title := "Hotspots";
       defaultOpacity := Fin (9 # 10); zIndex := 90 |};
    {| id := "lightning.strikes"; title := "Lightning";
       defaultOpacity := Fin (95 # 100); zIndex := 120 |};
    {| id := "alerts.polygons"; title := "Alerts";
       defaultOpacity := Fin (95 # 100); zIndex := 130 |} ].

(** [MapViewDefinition] (types.ts); [presetLayerOpacity] is an object, kept
    as its entries in insertion order ([[]] when absent). *)
Record MapViewDefinition : Type :=
  { view_id : MapViewId;
    view_title : string;
    presetEnabledLayers : list string;
    presetLayerOpacity : list (string * number);
    timelineDriverLayer : option string }.

Definition MAP_VIEWS : list MapViewDefinition :=
  [ {| view_id := radar; view_title := "Radar";
       presetEnabledLayers := ["radar.reflectivity"];
       presetLayerOpacity := [];
       timelineDriverLayer := Some "radar.reflectivity" |};
    {| view_id := wildfire; view_title := "Wildfire";
       presetEnabledLayers :=
         ["radar.reflectivity"; "wildfire.smoke"; "wildfire.perimeters"];
       presetLayerOpacity :=
         [ ("radar.reflectivity", Fin (85 # 100));
           ("wildfire.smoke", Fin (55 # 100));
           ("wildfire.perimeters", Fin (9 # 10)) ];
       timelineDriverLayer := Some "radar.reflectivity" |};
    {| view_id := storm; view_title := "Storm";
       presetEnabledLayers := ["radar.reflectivity"; "lightning.strikes"];
       presetLayerOpacity := [];
       timelineDriverLayer := Some "radar.reflectivity" |};
    {| view_id := aviation; view_title := "Aviation";
       presetEnabledLayers := ["radar.reflectivity"];
       presetLayerOpacity := [];
       timelineDriverLayer := Some "radar.reflectivity" |} ].

Inductive MapAction : Type :=
  | SET_VIEW (viewId : MapViewId)
  | SET_NERDY (nerdy : bool)
  | SET_LAYER_ENABLED (layerId : string) (enabled : bool)
  | SET_LAYER_OPACITY (layerId : string) (opacity : number)
  | SET_VIEWPORT (viewport : MapViewport)
  | SET_RADAR_FRAME (frameIndex : Z)
  | SET_RADAR_PLAYING (playing : bool).

Definition clamp01 (n : number) : number :=
  if isNaN n then Fin 0 else max (Fin 0) (min (Fin 1) n).

(** The entry [[l.id, { enabled: false, opacity: l.defaultOpacity }]] added
    to the object under construction. *)
Definition default_step (m : gmap string LayerRuntimeState) (l : LayerCatalogItem)
  : gmap string LayerRuntimeState :=
  <[ id l := {| enabled := Some false; opacity := Some (defaultOpacity l) |} ]> m.

(** [Object.fromEntries]: a later entry with the same key wins. *)
Definition buildDefaultLayers : gmap string LayerRuntimeState :=
  fold_left default_step LAYER_CATALOG ∅.

(** The ids of the catalog. *)
Definition catalog_ids : list string := id <$> LAYER_CATALOG.

(** [obj.enabled = b] and [obj.opacity = o] on a layer object. *)
Definition with_enabled (b : bool) (ls : LayerRuntimeState) : LayerRuntimeState :=
  {| enabled := Some b; opacity := opacity ls |}.

Definition with_opacity (o : option number) (ls : LayerRuntimeState)
  : LayerRuntimeState :=
  {| enabled := enabled ls; opacity := o |}.

(** [if (layers[id]) layers[id].enabled = true] *)
Definition enable_if_present (m : gmap string LayerRuntimeState) (i : string)
  : gmap string LayerRuntimeState :=
  match m !! i with
  | Some ls => <[ i := with_enabled true ls ]> m
  | None => m
  end.

(** [if (layers[layerId] && typeof op === 'number')
       layers[layerId].opacity = clamp01(op)] *)
Definition preset_opacity_if_present (m : gmap string LayerRuntimeState)
    (e : string * number) : gmap string LayerRuntimeState :=
  match m !! e.1 with
  | Some ls => <[ e.1 := with_opacity (Some (clamp01 e.2)) ls ]> m
  | None => m
  end.

Record InitOpts : Type :=
  { opt_viewId : option MapViewId;
    opt_nerdy : option bool;
    opt_viewport : option MapViewport }.

Definition default_viewport : MapViewport :=
  {| center := {| lat := 334152 # 10000; lon := - (1118315 # 10000) |};
     zoom := 9; bounds := None |}.

(** [MAP_VIEWS.find((v) => v.id === viewId)] *)
Definition find_view (viewId : MapViewId) : option MapViewDefinition :=
  find (fun v => MapViewId_eqb (view_id v) viewId) MAP_VIEWS.

Definition no_init_opts : InitOpts :=
  {| opt_viewId := None; opt_nerdy := None; opt_viewport := None |}.

Definition createInitialMapState (opts : InitOpts) : MapRuntimeState :=
  let viewId := default radar (opt_viewId opts) in
  let nerdy := default false (opt_nerdy opts) in
  let viewport := default default_viewport (opt_viewport opts) in
  let layers := buildDefaultLayers in
  let layers :=
    match find_view viewId with
    | Some view =>
        let layers := fold_left enable_if_present (presetEnabledLayers view) layers in
        fold_left preset_opacity_if_present (presetLayerOpacity view) layers
    | None => layers
    end in
  {| viewId := viewId; nerdy := nerdy; viewport := viewport; layers := layers;
     radarTime := {| frameIndex := 0; playing := false |};
     wildfireTime := None |}.

(** One round of the loop of SET_VIEW over [Object.entries(state.layers)]. *)
Definition preserve_opacity (layerId : string) (layerState : LayerRuntimeState)
    (next_layers : gmap string LayerRuntimeState) : gmap string LayerRuntimeState :=
  match next_layers !! layerId with
  | Some ls => <[ layerId := with_opacity (opacity layerState) ls ]> next_layers
  | None => next_layers
  end.

(** [{ ...state.layers[id], enabled }]: spreading a missing layer gives an
    object with the written field only. *)
Definition spread_enabled (old : option LayerRuntimeState) (b : bool)
  : LayerRuntimeState :=
  match old with
  | Some ls => with_enabled b ls
  | None => {| enabled := Some b; opacity := None |}
  end.

Definition spread_opacity (old : option LayerRuntimeState) (o : number)
  : LayerRuntimeState :=
  match old with
  | Some ls => with_opacity (Some o) ls
  | None => {| enabled := None; opacity := Some o |}
  end.

(** The options that SET_VIEW passes to [createInitialMapState]. *)
Definition opts_of (v : MapViewId) (state : MapRuntimeState) : InitOpts :=
  {| opt_viewId := Some v; opt_nerdy := Some (nerdy state);
     opt_viewport := Some (viewport state) |}.

Definition mapReducer (state : MapRuntimeState) (action : MapAction)
  : MapRuntimeState :=
  match action with
  | SET_VIEW v =>
      let next := createInitialMapState (opts_of v state) in
      {| viewId := viewId next; nerdy := nerdy next; viewport := viewport next;
         layers := map_fold preserve_opacity (layers next) (layers state);
         radarTime := radarTime state;
         wildfireTime := wildfireTime next |}
  | SET_NERDY b =>
      {| viewId := viewId state; nerdy := b; viewport := viewport state;
         layers := layers state; radarTime := radarTime state;
         wildfireTime := wildfireTime state |}
  | SET_LAYER_ENABLED i b =>
      {| viewId := viewId state; nerdy := nerdy state; viewport := viewport state;
         layers := <[ i := spread_enabled (layers state !! i) b ]> (layers state);
         radarTime := radarTime state; wildfireTime := wildfireTime state |}
  | SET_LAYER_OPACITY i o =>
      {| viewId := viewId state; nerdy := nerdy state; viewport := viewport state;
         layers :=
           <[ i := spread_opacity (layers state !! i) (clamp01 o) ]> (layers state);
         radarTime := radarTime state; wildfireTime := wildfireTime state |}
  | SET_VIEWPORT vp =>
      {| viewId := viewId state; nerdy := nerdy state; viewport := vp;
         layers := layers state; radarTime := radarTime state;
         wildfireTime := wildfireTime state |}
  | SET_RADAR_FRAME fi =>
      {| viewId := viewId state; nerdy := nerdy state; viewport := viewport state;
         layers := layers state;
         radarTime := {| frameIndex := fi; playing := playing (radarTime state) |};
         wildfireTime := wildfireTime state |}
  | SET_RADAR_PLAYING p =>
      {| viewId := viewId state; nerdy := nerdy state; viewport := viewport state;
         layers := layers state;
         radarTime := {| frameIndex := frameIndex (radarTime state); playing := p |};
         wildfireTime := wildfireTime state |}
  end.

End State.

(** ** components/maps/TimelineScrubber.tsx

    Frame indices and frame counts are integers; [%] is the JS remainder,
    which takes the sign of the dividend ([Z.rem]). *)
Module Timeline.

(** [Math.floor] is the identity on an integer index. *)
Definition clamp (i n : Z) : Z :=
  if n <=? 0 then 0 else Z.max 0 (Z.min (n - 1) i).

Definition nextFrameIndex (i n : Z) : Z :=
  if n <=? 0 then 0 else Z.rem (i + 1) n.

Definition prevFrameIndex (i n : Z) : Z :=
  if n <=? 0 then 0 else Z.rem (i - 1 + n) n.

End Timeline.

(** ** app/lib/maps/timeline.ts

    The library versions of the same helpers clamp their argument first
    ([Number.isFinite] holds of every integer index). *)
Module TimelineLib.

Definition clampFrameIndex (index frameCount : Z) : Z :=
  if frameCount <=? 0 then 0 else Z.max 0 (Z.min (frameCount - 1) index).

Definition nextFrameIndex (current frameCount : Z) : Z :=
  if frameCount <=? 0 then 0
  else let c := clampFrameIndex current frameCount in Z.rem (c + 1) frameCount.

Definition prevFrameIndex (current frameCount : Z) : Z :=
  if frameCount <=? 0 then 0
  else let c := clampFrameIndex current frameCount in
       Z.rem (c - 1 + frameCount) frameCount.

End TimelineLib.

(** ** app/(tabs)/maps.tsx: the crossfade between two radar tile layers

    The screen keeps [baseUrl], [fadeUrl] and [fadeT] as React state and
    derives the two layer opacities from them.  Products and quotients are
    taken in exact rational arithmetic. *)
Module Crossfade.
Import Js.

Record CrossfadeState : Type :=
  { baseUrl : option string; fadeUrl : option string; fadeT : Q }.

(** [useState] initial values. *)
Definition initial : CrossfadeState :=
  {| baseUrl := None; fadeUrl := None; fadeT := 1 |}.

(** [radarOpacity]: the configured opacity of the radar layer, kept inside
    [0.75, 1] in simple mode and [0.55, 1] in nerdy mode. *)
Definition radarOpacity (state : State.MapRuntimeState) : number :=
  let configured :=
    match State.layers state !! "radar.reflectivity" with
    | Some ls => default (Fin (9 # 10)) (State.opacity ls)
    | None => Fin (9 # 10)
    end in
  if negb (State.nerdy state)
  then min (Fin 1) (max (Fin (75 # 100)) configured)
  else min (Fin 1) (max (Fin (55 # 100)) configured).

(** The two effects that run when [resolvedTargetUrl] changes; both read the
    [baseUrl] of the render they were created in, and their state updates are
    applied together. *)
Definition onResolvedTarget (resolvedTargetUrl : option string)
    (st : CrossfadeState) : CrossfadeState :=
  if negb (truthy_str resolvedTargetUrl) then st
  else
    let base' :=
      if negb (truthy_str (baseUrl st)) then resolvedTargetUrl else baseUrl st in
    if decide (baseUrl st = resolvedTargetUrl)
    then {| baseUrl := base'; fadeUrl := fadeUrl st; fadeT := fadeT st |}
    else {| baseUrl := base'; fadeUrl := resolvedTargetUrl; fadeT := 0 |}.

Definition duration : Z := 280.

(** One animation frame of [tick], run at clock value [now] for a transition
    that started at [start]. *)
Definition tick (resolvedTargetUrl : option string) (start now : Z)
    (st : CrossfadeState) : CrossfadeState :=
  let t := (inject_Z (now - start) / inject_Z duration)%Q in
  if Qle_bool 1 t
  then {| baseUrl := resolvedTargetUrl; fadeUrl := None; fadeT := 1 |}
  else {| baseUrl := baseUrl st; fadeUrl := fadeUrl st; fadeT := t |}.

Definition baseOpacity (st : CrossfadeState) (radarOpacity : Q) : Q :=
  if negb (truthy_str (fadeUrl st)) then radarOpacity
  else (radarOpacity * (1 - fadeT st))%Q.

Definition fadeOpacity (st : CrossfadeState) (radarOpacity : Q) : Q :=
  if negb (truthy_str (fadeUrl st)) then 0%Q
  else (radarOpacity * fadeT st)%Q.

(** What can happen to the crossfade state: a new resolved target, or one
    animation frame of the transition towards a target. *)
Inductive event : Type :=
  | Resolved (resolvedTargetUrl : option string)
  | Tick (resolvedTargetUrl : option string) (start now : Z).

Definition step (st : CrossfadeState) (ev : event) : CrossfadeState :=
  match ev with
  | Resolved u => onResolvedTarget u st
  | Tick u start now => tick u start now st
  end.

Definition run (evs : list event) : CrossfadeState := fold_left step evs initial.

End Crossfade.

(** ** The environment of the two RainViewer adapters

    Both adapters read the wall clock and fetch a JSON manifest.  The
    environment is a clock value, the outcomes the network will deliver to the
    next calls of [fetch], and the log of the URLs fetched so far. *)
Module Env.

(** A JSON field read without validation. *)
Inductive field : Type :=
  | Missing
  | Null
  | Bool (b : bool)
  | Num (q : Q)
  | Str (s : string).

(** [{ time, path }] as it arrives. *)
Record Entry : Type := { time : field; path : field }.

Record Radar : Type :=
  { past : option (list Entry); nowcast : option (list Entry) }.

(** [RainViewerMapsResponse] / [RainViewerMaps]. *)
Record RainViewerMaps : Type :=
  { host : option string; radar : option Radar }.

(** What one call of [fetch] delivers: a rejected promise, or a response with
    its [ok] flag, status and body ([None]: the body is not JSON and
    [res.json()] rejects). *)
Inductive FetchOutcome : Type :=
  | NetworkFailure
  | Response (ok : bool) (status : Z) (body : option RainViewerMaps).

Inductive error : Type :=
  | FetchRejected
  | HttpFailed (status : Z)
  | InvalidJson
  | MissingHost
  | InvalidTimeValue
  | NotInitialized
  | PathUndefined.

Record Env : Type :=
  { now : Z;
    upstream : list FetchOutcome;
    fetchLog : list string }.

(** [new Date(t * 1000).toISOString()], the one library call of the adapters
    that is not modelled: [None] when the date is out of range and the call
    throws a RangeError. *)
Class DateLib : Type := { toISOString : Q → option string }.

(** A date library for closed examples: a time is in range when its value in
    milliseconds is within 8.64e15 of the epoch; the rendered text is not
    computed. *)
Definition coarse_dates : DateLib :=
  {| toISOString q :=
       if Qle_bool (- 8640000000000000) (q * 1000)
          && Qle_bool (q * 1000) 8640000000000000
       then Some "<ISO 8601>" else None |}.

(** [data.radar?.past ?? []] *)
Definition past_of (data : RainViewerMaps) : list Entry :=
  match radar data with
  | Some r => default [] (past r)
  | None => []
  end.

Definition nowcast_of (data : RainViewerMaps) : list Entry :=
  match radar data with
  | Some r => default [] (nowcast r)
  | None => []
  end.

(** [fetch(url)]: log the URL and take the next outcome; an exhausted network
    rejects. *)
Definition fetch (url : string) (e : Env) : FetchOutcome * Env :=
  match upstream e with
  | [] => (NetworkFailure,
           {| now := now e; upstream := []; fetchLog := url :: fetchLog e |})
  | o :: rest => (o,
           {| now := now e; upstream := rest; fetchLog := url :: fetchLog e |})
  end.

(** The environment after one fetch of [url]. *)
Definition fetched (url : string) (e : Env) : Env :=
  {| now := now e; upstream := tail (upstream e); fetchLog := url :: fetchLog e |}.

(** [fetch], the [res.ok] check of the caller and [res.json()]. *)
Definition fetch_json (url : string) (e : Env) : (error + RainViewerMaps) * Env :=
  let (o, e') := fetch url e in
  match o with
  | NetworkFailure => (inl FetchRejected, e')
  | Response false status _ => (inl (HttpFailed status), e')
  | Response true _ None => (inl InvalidJson, e')
  | Response true _ (Some data) => (inr data, e')
  end.

(** [String.prototype.includes] *)
Fixpoint includes (needle hay : string) : bool :=
  String.prefix needle hay ||
  match hay with
  | EmptyString => false
  | String _ rest => includes needle rest
  end.

(** [tok] occurs in [s]. *)
Definition occurs_in (tok s : string) : Prop := ∃ a b, s = a +:+ tok +:+ b.

Definition startsWith (p s : string) : bool := String.prefix p s.

Definition endsWith (p s : string) : bool :=
  let n := String.length s in
  let k := String.length p in
  (k <=? n)%nat && String.eqb (String.substring (n - k) k s) p.

(** [a] is not later than [b]. *)
Definition not_later {A} (a b : Q * A) : Prop := (a.1 <= b.1)%Q.

(** Stable insertion of [x] in front of the entries that are not earlier. *)
Fixpoint insert_by_time {A} (x : Q * A) (l : list (Q * A)) : list (Q * A) :=
  match l with
  | [] => [x]
  | y :: l' => if Qle_bool x.1 y.1 then x :: l else y :: insert_by_time x l'
  end.

(** [arr.sort((a, b) => a.time - b.time)]: the sort of the engine is stable. *)
Definition sort_by_time {A} (l : list (Q * A)) : list (Q * A) :=
  foldr insert_by_time [] l.

End Env.

(** ** app/lib/maps/radar/providers/rainviewer.ts *)
Module RainViewer.
Import Env.

Record RadarFrame : Type := { t : Q; iso : string }.

(** The options of [createRainViewerProvider] after defaulting. *)
Record Config : Type :=
  { ttlMs : Z; includeNowcast : bool; maxFrames : Z; maxZoom : Z }.

Record Opts : Type :=
  { opt_ttlMs : option Z; opt_includeNowcast : option bool;
    opt_maxFrames : option Z; opt_maxZoom : option Z }.

Definition no_opts : Opts :=
  {| opt_ttlMs := None; opt_includeNowcast := None;
     opt_maxFrames := None; opt_maxZoom := None |}.

Definition config_of (o : Opts) : Config :=
  {| ttlMs := default 60000 (opt_ttlMs o);
     includeNowcast := default true (opt_includeNowcast o);
     maxFrames := default 12 (opt_maxFrames o);
     maxZoom := default 10 (opt_maxZoom o) |}.

(** The variables closed over by one provider object. *)
Record Closure : Type :=
  { config : Config;
    cachedHost : option string;
    cachedPaths : option (list string) }.

(** The module-level variables, shared by all providers, the closures of the
    providers created so far, and the environment. *)
Record World : Type :=
  { cachedFrames : option (list RadarFrame);
    cacheExpiresAt : Z;
    providers : gmap nat Closure;
    env : Env }.

Definition initial_world (e : Env) : World :=
  {| cachedFrames := None; cacheExpiresAt := 0; providers := ∅; env := e |}.

Definition with_env (e : Env) (w : World) : World :=
  {| cachedFrames := cachedFrames w; cacheExpiresAt := cacheExpiresAt w;
     providers := providers w; env := e |}.

(** The world at a later call: the clock reads [t1] and the network will
    deliver [net]; the variables of the module and the log are as they were. *)
Definition later (t1 : Z) (net : list FetchOutcome) (w : World) : World :=
  with_env {| now := t1; upstream := net; fetchLog := fetchLog (env w) |} w.

(** State and exceptions: a computation returns an error or a value, and the
    world as it left it. *)
Definition M (A : Type) : Type := World → (error + A) * World.

Definition ret {A} (a : A) : M A := fun w => (inr a, w).
Definition throw {A} (e : error) : M A := fun w => (inl e, w).
Definition bind {A B} (c : M A) (k : A → M B) : M B :=
  fun w => match c w with
           | (inl e, w') => (inl e, w')
           | (inr a, w') => k a w'
           end.

Notation "'let*' x ':=' c 'in' k" := (bind c (fun x => k))
  (at level 10, x pattern, c at level 100, k at level 200).

Definition MAPS_JSON : string := "https://api.rainviewer.com/public/maps.json".

Definition fetchMapsJson : M RainViewerMaps :=
  fun w => let (r, e') := fetch_json MAPS_JSON (env w) in (r, with_env e' w).

Definition toFrame `{DateLib} (time : Q) : error + RadarFrame :=
  match toISOString time with
  | Some s => inr {| t := time; iso := s |}
  | None => inl InvalidTimeValue
  end.

(** [tail.map((p) => toFrame(p.time))] stops at the first exception. *)
Fixpoint toFrames `{DateLib} (l : list (Q * string)) : error + list RadarFrame :=
  match l with
  | [] => inr []
  | p :: l' =>
      match toFrame p.1 with
      | inl e => inl e
      | inr f => match toFrames l' with
                 | inl e => inl e
                 | inr fs => inr (f :: fs)
                 end
      end
  end.

(** The filter of [fetchFrames]: a numeric time and a string path of more than
    three characters; the entry is kept with its two typed fields. *)
Definition valid_entry (p : Entry) : option (Q * string) :=
  match time p, path p with
  | Num q, Str s => if (3 <? String.length s)%nat then Some (q, s) else None
  | _, _ => None
  end.

(** [combined.slice(Math.max(0, combined.length - maxFrames))] *)
Definition keep_last {A} (maxFrames : Z) (combined : list A) : list A :=
  drop (Z.to_nat (Z.max 0 (Z.of_nat (length combined) - maxFrames))) combined.

Definition combined_of (cfg : Config) (data : RainViewerMaps) : list (Q * string) :=
  let past := past_of data in
  let nowcast := if includeNowcast cfg then nowcast_of data else [] in
  sort_by_time (omap valid_entry (past ++ nowcast)).

Record Fetched : Type :=
  { frames : list RadarFrame; fhost : string; paths : list string }.

Definition fetchFrames `{DateLib} (cfg : Config) : M Fetched :=
  let* data := fetchMapsJson in
  match host data with
  | Some h =>
      if negb (Js.truthy_str (Some h)) then throw MissingHost
      else
        let tail := keep_last (maxFrames cfg) (combined_of cfg data) in
        match toFrames tail with
        | inl e => throw e
        | inr fs => ret {| frames := fs; fhost := h; paths := tail.*2 |}
        end
  | None => throw MissingHost
  end.

Definition SUFFIX : string := "/256/{z}/{x}/{y}/2/1_1.png".

Definition tileTemplateFor (host path : string) : string :=
  let looksLikeTemplate :=
    includes "{z}" path && includes "{x}" path && includes "{y}" path in
  if looksLikeTemplate then host +:+ path
  else host +:+ path +:+ SUFFIX.

(** [createRainViewerProvider(opts)]: a provider is the key of its closure. *)
Definition createRainViewerProvider (o : Opts) : M nat :=
  fun w =>
    let p := fresh (dom (providers w)) in
    (inr p,
     {| cachedFrames := cachedFrames w; cacheExpiresAt := cacheExpiresAt w;
        providers := <[ p := {| config := config_of o; cachedHost := None;
                                cachedPaths := None |} ]> (providers w);
        env := env w |}).

(** The assignments of a successful [getFrames], made together. *)
Definition store (p : nat) (c : Closure) (now : Z) (r : Fetched) (w : World) : World :=
  {| cachedFrames := Some (frames r);
     cacheExpiresAt := now + ttlMs (config c);
     providers := <[ p := {| config := config c; cachedHost := Some (fhost r);
                             cachedPaths := Some (paths r) |} ]> (providers w);
     env := env w |}.

Definition cache_hit (c : Closure) (w : World) : option (list RadarFrame) :=
  match cachedFrames w, cachedPaths c with
  | Some fs, Some _ =>
      if (now (env w) <? cacheExpiresAt w) && Js.truthy_str (cachedHost c)
      then Some fs else None
  | _, _ => None
  end.

(** [provider.getFrames()]; a key that names no provider yields
    [NotInitialized] (no such object exists in the source). *)
Definition getFrames `{DateLib} (p : nat) : M (list RadarFrame) :=
  fun w =>
    match providers w !! p with
    | None => (inl NotInitialized, w)
    | Some c =>
        let now := now (env w) in
        match cache_hit c w with
        | Some fs => (inr fs, w)
        | None =>
            match fetchFrames (config c) w with
            | (inl e, w') => (inl e, w')
            | (inr r, w') => (inr (frames r), store p c now r w')
            end
        end
    end.

(** [cachedFrames.findIndex((f) => f.t === frame.t)], [-1] when absent. *)
Fixpoint findIndex (time : Q) (fs : list RadarFrame) (i : Z) : Z :=
  match fs with
  | [] => -1
  | f :: fs' => if Qeq_bool (t f) time then i else findIndex time fs' (i + 1)
  end.

Definition getTileUrlTemplate (p : nat) (frame : RadarFrame) : M string :=
  fun w =>
    match providers w !! p with
    | None => (inl NotInitialized, w)
    | Some c =>
        match cachedFrames w, cachedPaths c, cachedHost c with
        | Some fs, Some ps, Some h =>
            if negb (Js.truthy_str (Some h)) then (inl NotInitialized, w)
            else
              let idx := findIndex (t frame) fs 0 in
              match ps !! Z.to_nat (Z.max 0 idx) with
              | Some path => (inr (tileTemplateFor h path), w)
              | None => (inl PathUndefined, w)
              end
        | _, _, _ => (inl NotInitialized, w)
        end
    end.

End RainViewer.

(** ** app/lib/maps/radarIem.ts (the RainViewer adapter used by the screen) *)
Module RadarIem.
Import Env.

Record RadarScan : Type := { iso : string; stamp : string }.

(** [RV_CACHE] *)
Record RvCache : Type := { at_ : Z; data : option RainViewerMaps }.

Record World : Type := { RV_CACHE : RvCache; env : Env }.

Definition initial_world (e : Env) : World :=
  {| RV_CACHE := {| at_ := 0; data := None |}; env := e |}.

Definition later (t1 : Z) (net : list FetchOutcome) (w : World) : World :=
  {| RV_CACHE := RV_CACHE w;
     env := {| now := t1; upstream := net; fetchLog := fetchLog (env w) |} |}.

Definition RV_TTL_MS : Z := 60000.

Definition WEATHER_MAPS_JSON : string :=
  "https://api.rainviewer.com/public/weather-maps.json".

(** [RV_CACHE.data && now - RV_CACHE.at < RV_TTL_MS] *)
Definition cache_hit (w : World) : option RainViewerMaps :=
  match data (RV_CACHE w) with
  | Some d => if now (env w) - at_ (RV_CACHE w) <? RV_TTL_MS then Some d else None
  | None => None
  end.

Definition fetchRainViewerMapsJson (w : World) : (error + RainViewerMaps) * World :=
  let now := now (env w) in
  match cache_hit w with
  | Some d => (inr d, w)
  | None =>
      match fetch_json WEATHER_MAPS_JSON (env w) with
      | (inl e, e') => (inl e, {| RV_CACHE := RV_CACHE w; env := e' |})
      | (inr d', e') =>
          (inr d', {| RV_CACHE := {| at_ := now; data := Some d' |}; env := e' |})
      end
  end.

(** The filter of [fetchRainViewerFrames]: a numeric time and a string path. *)
Definition typed_entry (f : Entry) : option (Q * string) :=
  match time f, path f with
  | Num q, Str s => Some (q, s)
  | _, _ => None
  end.

Fixpoint toScans `{DateLib} (l : list (Q * string)) : error + list RadarScan :=
  match l with
  | [] => inr []
  | f :: l' =>
      match toISOString f.1 with
      | None => inl InvalidTimeValue
      | Some s => match toScans l' with
                  | inl e => inl e
                  | inr fs => inr ({| iso := s; stamp := f.2 |} :: fs)
                  end
      end
  end.

Definition fetchRainViewerFrames `{DateLib} (w : World)
  : (error + list RadarScan) * World :=
  match fetchRainViewerMapsJson w with
  | (inl e, w') => (inl e, w')
  | (inr d, w') =>
      (toScans (omap typed_entry (past_of d ++ nowcast_of d)), w')
  end.

Definition buildRainViewerTileTemplate (host path : string) : string :=
  let h := if endsWith "/" host
           then String.substring 0 (String.length host - 1) host else host in
  let p := if startsWith "/" path then path else "/" +:+ path in
  h +:+ p +:+ "/256/{z}/{x}/{y}/2/1_1.png".

Definition buildRainViewerTileUrlForFrame (framePath : string) (w : World)
  : (error + string * string) * World :=
  match fetchRainViewerMapsJson w with
  | (inl e, w') => (inl e, w')
  | (inr d, w') =>
      if Js.truthy_str (host d)
      then (inr (buildRainViewerTileTemplate (default "" (host d)) framePath,
                 "RainViewer"), w')
      else (inl MissingHost, w')
  end.

End RadarIem.

(** The frame list in the words of the specification: the past entries
    followed by the nowcast entries, sorted ascending by time and cut to the
    most recent [N]; each entry is read as its time and its path. *)
Module Claimed.
Import Env.

Definition frame_list (N : Z) (data : RainViewerMaps) : list (Q * string) :=
  RainViewer.keep_last N
    (sort_by_time (omap RadarIem.typed_entry (past_of data ++ nowcast_of data))).

End Claimed.

(** ** app/lib/maps/resolveNearestRadar.ts *)
Module Geo.
Import Js.

(** The rounding arithmetic and the [Math] functions that the distance and
    bearing formulas call; the scan is proved for every implementation. *)
Class FloatOps : Type :=
  { fadd : number → number → number;
    fsub : number → number → number;
    fmul : number → number → number;
    fdiv : number → number → number;
    fmod : number → number → number;
    Math_sin : number → number;
    Math_cos : number → number;
    Math_sqrt : number → number;
    Math_atan2 : number → number → number;
    Math_PI : number }.

(** The fields of [NexradSite] that the resolver or its callers read. *)
Record NexradSite : Type :=
  { id : string; name : string; lat : number; lon : number;
    ownerType : option string }.

Record NearestRadarResult : Type :=
  { site : NexradSite;
    distanceKm : number;
    distanceMi : number;
    bearing : number }.

Record ResolveNearestRadarOptions : Type :=
  { maxDistanceKm : option number;
    filter : option (NexradSite → bool) }.

Definition no_options : ResolveNearestRadarOptions :=
  {| maxDistanceKm := None; filter := None |}.

Section WithFloats.
Context `{FloatOps}.

Definition EARTH_RADIUS_KM : number := Fin 6371.

Definition deg2rad (d : number) : number := fdiv (fmul d Math_PI) (Fin 180).

Definition rad2deg (r : number) : number := fdiv (fmul r (Fin 180)) Math_PI.

Definition haversineKm (lat1 lon1 lat2 lon2 : number) : number :=
  let φ1 := deg2rad lat1 in
  let φ2 := deg2rad lat2 in
  let Δφ := deg2rad (fsub lat2 lat1) in
  let Δλ := deg2rad (fsub lon2 lon1) in
  let a :=
    fadd (fmul (Math_sin (fdiv Δφ (Fin 2))) (Math_sin (fdiv Δφ (Fin 2))))
         (fmul (fmul (fmul (Math_cos φ1) (Math_cos φ2))
                     (Math_sin (fdiv Δλ (Fin 2))))
               (Math_sin (fdiv Δλ (Fin 2)))) in
  let c := fmul (Fin 2) (Math_atan2 (Math_sqrt a) (Math_sqrt (fsub (Fin 1) a))) in
  fmul EARTH_RADIUS_KM c.

Definition bearingDeg (lat1 lon1 lat2 lon2 : number) : number :=
  let φ1 := deg2rad lat1 in
  let φ2 := deg2rad lat2 in
  let λ1 := deg2rad lon1 in
  let λ2 := deg2rad lon2 in
  let y := fmul (Math_sin (fsub λ2 λ1)) (Math_cos φ2) in
  let x :=
    fsub (fmul (Math_cos φ1) (Math_sin φ2))
         (fmul (fmul (Math_sin φ1) (Math_cos φ2)) (Math_cos (fsub λ2 λ1))) in
  let θ := Math_atan2 y x in
  fmod (fadd (rad2deg θ) (Fin 360)) (Fin 360).

(** The guards of the loop body: a site takes part in the scan when its
    coordinates are finite and the filter, if any, accepts it. *)
Definition candidate (flt : option (NexradSite → bool)) (s : NexradSite) : bool :=
  isFinite (lat s) && isFinite (lon s) &&
  match flt with Some f => f s | None => true end.

(** [haversineKm(lat, lon, s.lat, s.lon)] *)
Definition distance_from (lat0 lon0 : number) (s : NexradSite) : number :=
  haversineKm lat0 lon0 (lat s) (lon s).

(** One round of the [for] loop over the registry, on the pair
    [(bestSite, bestDistanceKm)]. *)
Definition scan_step (lat0 lon0 : number) (flt : option (NexradSite → bool))
    (best : option NexradSite * number) (s : NexradSite)
  : option NexradSite * number :=
  if candidate flt s then
    let d := distance_from lat0 lon0 s in
    if lt d best.2 then (Some s, d) else best
  else best.

(** The state of the scan after a prefix [pre] of the registry, whatever the
    distances are: no candidate of [pre] is below the best distance; when no
    site is held the best distance is still Infinity; a held site is a
    candidate of [pre] at the best distance, which is below Infinity, and
    every candidate before it is strictly farther or at a distance that is
    NaN. *)
Definition scanned (lat0 lon0 : number) (pre : list NexradSite)
    (best : option NexradSite * number) : Prop :=
  (∀ s, s ∈ pre → candidate None s = true →
        lt (distance_from lat0 lon0 s) best.2 = false)
  ∧ match best.1 with
    | None => best.2 = PosInf
    | Some b =>
        ∃ before after,
          pre = before ++ b :: after
          ∧ candidate None b = true
          ∧ best.2 = distance_from lat0 lon0 b
          ∧ lt best.2 PosInf = true
          ∧ (∀ s, s ∈ before → candidate None s = true →
                  lt best.2 (distance_from lat0 lon0 s) = true
                  ∨ distance_from lat0 lon0 s = NaN)
    end.

(** [resolveNearestRadar(lat, lon, opts)] over the registry [NEXRAD_SITES],
    which is loaded from a JSON file and is an argument here. *)
Definition resolveNearestRadar (NEXRAD_SITES : list NexradSite)
    (lat0 lon0 : number) (opts : ResolveNearestRadarOptions)
  : option NearestRadarResult :=
  if negb (isFinite lat0) || negb (isFinite lon0) then None
  else if lt lat0 (Fin (-90)) || gt lat0 (Fin 90)
          || lt lon0 (Fin (-180)) || gt lon0 (Fin 180) then None
  else
    let best := fold_left (scan_step lat0 lon0 (filter opts)) NEXRAD_SITES
                          (None, PosInf) in
    match best.1 with
    | None => None
    | Some bestSite =>
        if negb (isFinite best.2) then None
        else
          let too_far :=
            match maxDistanceKm opts with
            | Some m => isFinite m && gt best.2 m
            | None => false
            end in
          if too_far then None
          else
            Some {| site := bestSite;
                    distanceKm := best.2;
                    distanceMi := fmul best.2 (Fin (621371 # 1000000));
                    bearing := bearingDeg lat0 lon0 (lat bestSite) (lon bestSite) |}
    end.

End WithFloats.

(** An implementation of the interface for closed examples: the four
    operations and the remainder are exact on finite numbers (and NaN
    elsewhere); the [Math] functions are their small-angle forms, with the
    square root taken on integers at nine decimal places. *)
Definition lift2 (f : Q → Q → Q) (a b : number) : number :=
  match a, b with
  | Fin x, Fin y => Fin (Qred (f x y))
  | _, _ => NaN
  end.

Definition lift1 (f : Q → Q) (a : number) : number :=
  match a with
  | Fin x => Fin (Qred (f x))
  | _ => NaN
  end.

Definition decimal_sqrt (a : Q) : Q :=
  Z.sqrt (Qnum a * 10 ^ 18 / QDen a) # 10 ^ 9.

Definition truncated_rem (x y : Q) : Q :=
  match Qnum y with
  | Z0 => 0
  | _ => let k := Z.quot (Qnum x * QDen y) (Qnum y * QDen x) in x - inject_Z k * y
  end%Q.

Definition small_angle_ops : FloatOps :=
  {| fadd := lift2 Qplus;
     fsub := lift2 Qminus;
     fmul := lift2 Qmult;
     fdiv := fun a b => match b with
                        | Fin y => if Qeq_bool y 0 then NaN else lift2 Qdiv a b
                        | _ => NaN
                        end;
     fmod := lift2 truncated_rem;
     Math_sin := lift1 (fun x => x);
     Math_cos := lift1 (fun x => 1 - x * x / 2)%Q;
     Math_sqrt := lift1 decimal_sqrt;
     Math_atan2 := fun y x => match x with
                              | Fin q => if Qeq_bool q 0 then NaN else lift2 Qdiv y x
                              | _ => NaN
                              end;
     Math_PI := Fin (355 # 113) |}.

(** The registry of the example of the specification. *)
Definition KTLX : NexradSite :=
  {| id := "KTLX"; name := "Oklahoma City"; lat := Fin (35333 # 1000);
     lon := Fin (- (97278 # 1000)); ownerType := Some "NEXRAD" |}.

Definition KFWS : NexradSite :=
  {| id := "KFWS"; name := "Dallas/Fort Worth"; lat := Fin (32573 # 1000);
     lon := Fin (- (97303 # 1000)); ownerType := Some "NEXRAD" |}.

End Geo.

(** ** IEEE 754 double precision for the distance formula *)

(** The numbers of the engine are doubles.  Here the four operations and the
    square root are those of binary64, correctly rounded; a double is read as
    the rational it denotes (minus zero as zero), and a rational is written as
    the double nearest to it.  The sine, the cosine and the arc tangent, which
    the language leaves to the engine, stay arguments. *)
Module Ieee.
Import PrimFloat SpecFloat FloatOps.

Definition of_int (z : Z) : float :=
  match z with
  | Z0 => zero
  | Zpos p => SF2Prim (S754_finite false p 0)
  | Zneg p => SF2Prim (S754_finite true p 0)
  end.

(** [Some k] when [p] is [2 ^ k]. *)
Fixpoint dyadic (p : positive) : option Z :=
  match p with
  | xH => Some 0
  | xO p' => Z.succ <$> dyadic p'
  | xI _ => None
  end.

(** Exact for a dyadic rational with a numerator below [2 ^ 53]; the
    correctly rounded quotient for a ratio of two integers below [2 ^ 53]. *)
Definition of_Q (q : Q) : float :=
  match dyadic (Qden q) with
  | Some k => Z.ldexp (of_int (Qnum q)) (- k)
  | None => div (of_int (Qnum q)) (of_int (Zpos (Qden q)))
  end.

Definition to_float (n : Js.number) : float :=
  match n with
  | Js.NaN => nan
  | Js.NegInf => neg_infinity
  | Js.PosInf => infinity
  | Js.Fin q => of_Q q
  end.

Definition of_float (f : float) : Js.number :=
  match Prim2SF f with
  | S754_zero _ => Js.Fin 0
  | S754_infinity true => Js.NegInf
  | S754_infinity false => Js.PosInf
  | S754_nan => Js.NaN
  | S754_finite s m e =>
      let n := if s then Zneg m else Zpos m in
      Js.Fin (Qred (if 0 <=? e then inject_Z (n * 2 ^ e) else n # Z.to_pos (2 ^ (- e))))
  end.

(** [a % b] is exact. *)
Definition remainder (a b : Js.number) : Js.number :=
  match a, b with
  | Js.Fin x, Js.Fin y =>
      if Qeq_bool y 0 then Js.NaN else Js.Fin (Qred (Geo.truncated_rem x y))
  | Js.Fin x, (Js.PosInf | Js.NegInf) => Js.Fin x
  | _, _ => Js.NaN
  end.

Definition binary64_ops (msin mcos : float → float) (matan2 : float → float → float)
  : Geo.FloatOps :=
  {| Geo.fadd a b := of_float (add (to_float a) (to_float b));
     Geo.fsub a b := of_float (sub (to_float a) (to_float b));
     Geo.fmul a b := of_float (mul (to_float a) (to_float b));
     Geo.fdiv a b := of_float (div (to_float a) (to_float b));
     Geo.fmod := remainder;
     Geo.Math_sin a := of_float (msin (to_float a));
     Geo.Math_cos a := of_float (mcos (to_float a));
     Geo.Math_sqrt a := of_float (sqrt (to_float a));
     Geo.Math_atan2 a b := of_float (matan2 (to_float a) (to_float b));
     Geo.Math_PI := of_float 0x1.921fb54442d18p+1 |}.

(** The doubles of the antipodal example: [deg2rad(8)], its sine and its
    cosine rounded to the nearest double, and [deg2rad(180) / 2]. *)
Definition RAD_8 : float := 0x1.1df46a2529d39p-3.
Definition SIN_RAD_8 : float := 0x1.1d06c968d9e19p-3.
Definition COS_RAD_8 : float := 0x1.fb046a930947ap-1.
Definition HALF_PI : float := 0x1.921fb54442d18p+0.

(** The [Math] functions at the arguments that the antipodal example reaches,
    and NaN at every other argument. *)
Definition sin_table (x : float) : float :=
  if eqb x (- RAD_8) then - SIN_RAD_8
  else if eqb x HALF_PI then 1
  else nan.

Definition cos_table (x : float) : float :=
  if eqb (abs x) RAD_8 then COS_RAD_8 else nan.

Definition atan2_table (y x : float) : float := nan.

(** A site at the antipode of the point (8, 0). *)
Definition ANTIPODE : Geo.NexradSite :=
  {| Geo.id := "ANTI"; Geo.name := "Antipode"; Geo.lat := Js.Fin (-8);
     Geo.lon := Js.Fin 180; Geo.ownerType := None |}.

End Ieee.

(** ** Worlds for the closed examples *)
Module Examples.
Import Env.

(** A manifest with one frame, one without host, and one with a host and no
    usable entry. *)
Definition good_manifest : RainViewerMaps :=
  {| host := Some "https://h";
     radar := Some {| past := Some [ {| time := Num 1; path := Str "/v2/a1" |} ];
                      nowcast := None |} |}.

Definition hostless_manifest : RainViewerMaps :=
  {| host := None;
     radar := Some {| past := Some [ {| time := Num 2; path := Str "/v2/b2" |} ];
                      nowcast := None |} |}.

Definition unusable_manifest : RainViewerMaps :=
  {| host := Some "https://h";
     radar := Some {| past := Some [ {| time := Str "soon"; path := Str "/v2/c3" |} ];
                      nowcast := Some [] |} |}.

(** A manifest with a host whose only entry has a numeric time that is no
    date: 1e13 seconds is beyond the range of [Date]. *)
Definition far_manifest : RainViewerMaps :=
  {| host := Some "https://h";
     radar := Some {| past := Some [ {| time := Num 10000000000000;
                                        path := Str "/v2/far" |} ];
                      nowcast := None |} |}.

(** The world after a provider was created with the default options and its
    first [getFrames], at clock 0, stored [good_manifest]. *)
Definition warm_world : RainViewer.World :=
  let w0 := RainViewer.initial_world
              {| now := 0; upstream := [Response true 200 (Some good_manifest)];
                 fetchLog := [] |} in
  let w1 := (RainViewer.createRainViewerProvider RainViewer.no_opts w0).2 in
  (@RainViewer.getFrames coarse_dates 0 w1).2.

Definition warm_closure : RainViewer.Closure :=
  {| RainViewer.config := RainViewer.config_of RainViewer.no_opts;
     RainViewer.cachedHost := Some "https://h";
     RainViewer.cachedPaths := Some ["/v2/a1"] |}.

End Examples.

(** ** app/lib/maps/radar/providers/iem.ts *)
Module Iem.

Inductive IemFrame : Type := latest | m05m | m10m | m15m | m20m | m25m | m30m.

Definition IEM_FRAMES : list IemFrame :=
  [latest; m05m; m10m; m15m; m20m; m25m; m30m].

(** The string that the frame is in the source. *)
Definition frame_text (frame : IemFrame) : string :=
  match frame with
  | latest => "latest" | m05m => "m05m" | m10m => "m10m" | m15m => "m15m"
  | m20m => "m20m" | m25m => "m25m" | m30m => "m30m"
  end.

Definition iemFrameTemplate (frame : IemFrame) : string :=
  match frame with
  | latest =>
      "https://mesonet.agron.iastate.edu/cache/tile.py/1.0.0/nexrad-n0q-900913/{z}/{x}/{y}.png"
  | _ =>
      "https://mesonet.agron.iastate.edu/cache/tile.py/1.0.0/nexrad-n0q-900913-"
      +:+ frame_text frame +:+ "/{z}/{x}/{y}.png"
  end.

End Iem.

(** ** app/lib/maps/radar/useAnimatedRadar.ts

    The hook keeps two tile layers, A and B; a jump or a playback step loads
    the back layer and starts a fade of ten timer steps towards it. *)
Module AnimatedRadar.
Import Iem.

Inductive RadarFront : Type := A | B.

Inductive direction : Type := AtoB | BtoA.

Record Hook : Type :=
  { frameIndex : Z;
    front : RadarFront;
    isPlaying : bool;
    speedMs : Z;
    opacityA : Q;
    opacityB : Q;
    templateA : string;
    templateB : string;
    (** the running fade timer: its direction and its counter [i] *)
    fadeTimer : option (direction * Z) }.

(** [frames[i]], undefined outside the array. *)
Definition frame_at (frames : list IemFrame) (i : Z) : option IemFrame :=
  if i <? 0 then None else frames !! Z.to_nat i.

(** The [useState] initial values. *)
Definition initial (enabled : bool) (intervalMs : Z) (opacity : Q)
    (frames : list IemFrame) : Hook :=
  {| frameIndex := 0; front := A; isPlaying := enabled; speedMs := intervalMs;
     opacityA := opacity; opacityB := 0;
     templateA := iemFrameTemplate (default latest (frame_at frames 0));
     templateB := iemFrameTemplate (default m05m (frame_at frames 1));
     fadeTimer := None |}.

Definition steps : Z := 10.

(** [crossfade(direction)]: a running timer is cleared and a new one starts
    with [i = 0]. *)
Definition crossfade (d : direction) (h : Hook) : Hook :=
  {| frameIndex := frameIndex h; front := front h; isPlaying := isPlaying h;
     speedMs := speedMs h; opacityA := opacityA h; opacityB := opacityB h;
     templateA := templateA h; templateB := templateB h;
     fadeTimer := Some (d, 0) |}.

(** One firing of the fade timer. *)
Definition fade_tick (opacity : Q) (h : Hook) : Hook :=
  match fadeTimer h with
  | None => h
  | Some (d, i0) =>
      let i := i0 + 1 in
      let t := (inject_Z i / inject_Z steps)%Q in
      let done := steps <=? i in
      match d with
      | AtoB =>
          {| frameIndex := frameIndex h;
             front := if done then B else front h;
             isPlaying := isPlaying h; speedMs := speedMs h;
             opacityA := (opacity * (1 - t))%Q; opacityB := (opacity * t)%Q;
             templateA := templateA h; templateB := templateB h;
             fadeTimer := if done then None else Some (d, i) |}
      | BtoA =>
          {| frameIndex := frameIndex h;
             front := if done then A else front h;
             isPlaying := isPlaying h; speedMs := speedMs h;
             opacityA := (opacity * t)%Q; opacityB := (opacity * (1 - t))%Q;
             templateA := templateA h; templateB := templateB h;
             fadeTimer := if done then None else Some (d, i) |}
      end
  end.

(** Load [tpl] into the back layer and start the fade towards it. *)
Definition load_back (tpl : string) (h : Hook) : Hook :=
  match front h with
  | A => crossfade AtoB
           {| frameIndex := frameIndex h; front := front h; isPlaying := isPlaying h;
              speedMs := speedMs h; opacityA := opacityA h; opacityB := opacityB h;
              templateA := templateA h; templateB := tpl;
              fadeTimer := fadeTimer h |}
  | B => crossfade BtoA
           {| frameIndex := frameIndex h; front := front h; isPlaying := isPlaying h;
              speedMs := speedMs h; opacityA := opacityA h; opacityB := opacityB h;
              templateA := tpl; templateB := templateB h;
              fadeTimer := fadeTimer h |}
  end.

Definition with_frameIndex (i : Z) (h : Hook) : Hook :=
  {| frameIndex := i; front := front h; isPlaying := isPlaying h;
     speedMs := speedMs h; opacityA := opacityA h; opacityB := opacityB h;
     templateA := templateA h; templateB := templateB h;
     fadeTimer := fadeTimer h |}.

(** [((targetIndex % len) + len) % len] *)
Definition wrap_index (targetIndex len : Z) : Z :=
  Z.rem (Z.rem targetIndex len + len) len.

Definition jumpTo (frames : list IemFrame) (targetIndex : Z) (h : Hook) : Hook :=
  let len := Z.of_nat (length frames) in
  if len =? 0 then h
  else
    let idx := wrap_index targetIndex len in
    let tpl := iemFrameTemplate (default latest (frame_at frames idx)) in
    with_frameIndex idx (load_back tpl h).

(** One firing of the playback interval; no interval runs while paused or
    with fewer than two frames. *)
Definition playback_tick (frames : list IemFrame) (h : Hook) : Hook :=
  let len := Z.of_nat (length frames) in
  if negb (isPlaying h) || (len <? 2) then h
  else
    let next := Z.rem (frameIndex h + 1) len in
    let tpl := iemFrameTemplate (default latest (frame_at frames next)) in
    with_frameIndex next (load_back tpl h).

End AnimatedRadar.

(** ** app/(tabs)/maps.tsx and TimelineScrubber.tsx: the timeline handlers *)
Module Screen.
Import State.

(** [clamp] of maps.tsx. *)
Definition clamp (i n : Z) : Z :=
  if n <=? 0 then 0 else Z.max 0 (Z.min (n - 1) i).

(** The [onSetFrame] that the screen hands to the scrubber. *)
Definition onSetFrame (frameCount frameIndex : Z) (state : MapRuntimeState)
  : MapRuntimeState :=
  mapReducer state (SET_RADAR_FRAME (clamp frameIndex frameCount)).

(** The [onSetPlaying] that the screen hands to the scrubber. *)
Definition onSetPlaying (frameCount : Z) (playing : bool) (state : MapRuntimeState)
  : MapRuntimeState :=
  if playing && (frameCount <? 2)
  then mapReducer state (SET_RADAR_PLAYING false)
  else mapReducer state (SET_RADAR_PLAYING playing).

(** The length of [buildFallbackFrames({ minutesBack: 120, stepMinutes: 5 })]:
    one frame for each of m = 120, 115, ..., 0. *)
Definition fallbackFrameCount : Z := 120 / 5 + 1.

(** [effectiveFrames.length] in the scrubber, where
    [effectiveFrames = frames.length ? frames : fallbackFrames]; the argument
    is the length of the [frames] that the screen passes, which is the
    screen's own [frameCount]. *)
Definition effectiveFrameCount (frameCount : Z) : Z :=
  if frameCount =? 0 then fallbackFrameCount else frameCount.

(** The index that the scrubber works with, for its own frame count [n]. *)
Definition idx (n : Z) (state : MapRuntimeState) : Z :=
  Timeline.clamp (frameIndex (radarTime state)) n.

(** One round of the playback effect of the scrubber: nothing while paused,
    a forced pause with fewer than two effective frames, and otherwise the
    interval fires and asks for the next frame.  The scrubber counts its
    effective frames; the two handlers are the screen's and use the screen's
    [frameCount]. *)
Definition playback_round (frameCount : Z) (state : MapRuntimeState)
  : MapRuntimeState :=
  let n := effectiveFrameCount frameCount in
  if negb (playing (radarTime state)) then state
  else if n <? 2 then onSetPlaying frameCount false state
  else onSetFrame frameCount (Timeline.nextFrameIndex (idx n state) n) state.

(** The three buttons of the scrubber; a disabled button does not call its
    handler. *)
Definition press_play (frameCount : Z) (state : MapRuntimeState) : MapRuntimeState :=
  let n := effectiveFrameCount frameCount in
  if n <? 2 then state
  else onSetPlaying frameCount (negb (playing (radarTime state))) state.

Definition press_prev (frameCount : Z) (state : MapRuntimeState) : MapRuntimeState :=
  let n := effectiveFrameCount frameCount in
  if n <? 1 then state
  else onSetFrame frameCount (Timeline.prevFrameIndex (idx n state) n) state.

Definition press_next (frameCount : Z) (state : MapRuntimeState) : MapRuntimeState :=
  let n := effectiveFrameCount frameCount in
  if n <? 1 then state
  else onSetFrame frameCount (Timeline.nextFrameIndex (idx n state) n) state.

End Screen.

(** ** app/lib/maps/timeline.ts: the synthetic frames *)
Module TimelineFrames.
Import Env.

Record RadarFrame : Type := { index : Z; iso : string }.

(** The time, in milliseconds, of frame [i] out of [frameCount]. *)
Definition frame_time (now stepMinutes frameCount i : Z) : Z :=
  let minutesAgo := (frameCount - 1 - i) * stepMinutes in
  now - minutesAgo * 60000.

(** The body of the [for] loop, for the indices [i, i + 1, ...] of [n]
    rounds; [toISOString] ends the loop with its exception. *)
Fixpoint push_frames `{DateLib} (now stepMinutes frameCount : Z) (n : nat) (i : Z)
  : error + list RadarFrame :=
  match n with
  | O => inr []
  | S n' =>
      match toISOString (frame_time now stepMinutes frameCount i # 1000) with
      | None => inl InvalidTimeValue
      | Some s =>
          match push_frames now stepMinutes frameCount n' (i + 1) with
          | inl e => inl e
          | inr fs => inr ({| index := i; iso := s |} :: fs)
          end
      end
  end.

(** [buildRadarFrames({ minutesBack, stepMinutes, now })] on whole minutes;
    [now] is the time value of the date. *)
Definition buildRadarFrames `{DateLib} (minutesBack stepMinutes now : Z)
  : error + list RadarFrame :=
  if (minutesBack <=? 0) || (stepMinutes <=? 0) then inr []
  else
    let frameCount := minutesBack / stepMinutes + 1 in
    push_frames now stepMinutes frameCount (Z.to_nat frameCount) 0.

End TimelineFrames.

(** ** app/lib/maps/radarIem.ts: the layer choice and the fallback frames *)
Module RadarLayer.
Import Env Js.

Inductive provider : Type := rainviewer | iem_mosaic | iem_ridge.

Inductive tier : Type := national | local.

Inductive product : Type := N0Q | N0B | N0Z.

Record ResolveOpts : Type :=
  { zoom : number;
    opt_product : product;
    localMinZoom : number;
    maxLocalDistanceKm : number;
    nationalTimestamp : string }.

Record RadarLayerChoice : Type :=
  { choice_provider : provider;
    choice_tier : tier;
    maxTileZoom : Z;
    tileUrl : string;
    debugLabel : string }.

(** [a >= b] *)
Definition ge (a b : number) : bool :=
  negb (isNaN a || isNaN b) && negb (lt a b).

Definition resolveRadarLayer (lat lon : number) (opts : ResolveOpts)
  : RadarLayerChoice :=
  let zoom := if isFinite (zoom opts) then zoom opts else Fin 4 in
  let tier := if ge zoom (localMinZoom opts) then local else national in
  {| choice_provider := rainviewer;
     choice_tier := tier;
     maxTileZoom := 10;
     tileUrl := "";
     debugLabel := match tier with
                   | local => "RainViewer radar (mosaic) · local-labeled"
                   | national => "RainViewer radar (mosaic)"
                   end |}.

Definition iemNationalMosaicTimestamps : list string :=
  [ "900913-m50m"; "900913-m45m"; "900913-m40m"; "900913-m35m"; "900913-m30m";
    "900913-m25m"; "900913-m20m"; "900913-m15m"; "900913-m10m"; "900913-m05m";
    "900913" ].

(** The UTC fields of a time value in milliseconds, as [Date] gives them. *)
Class UtcFields : Type :=
  { getUTCFullYear : Z → Z;
    getUTCMonth : Z → Z;
    getUTCDate : Z → Z;
    getUTCHours : Z → Z;
    getUTCMinutes : Z → Z }.

(** [String(n).padStart(2, '0')] *)
Definition pad2 (n : Z) : string :=
  let s := pretty n in
  match String.length s with
  | O => "00"
  | S O => "0" +:+ s
  | _ => s
  end.

(** The RIDGE stamp YYYYMMDDHHmm of a time value. *)
Definition stamp_of `{UtcFields} (t : Z) : string :=
  pretty (getUTCFullYear t) +:+ pad2 (getUTCMonth t + 1) +:+ pad2 (getUTCDate t)
  +:+ pad2 (getUTCHours t) +:+ pad2 (getUTCMinutes t).

(** The values that [m] takes in
    [for (let m = minutesBack; m >= 0; m -= step)], with [step >= 1]. *)
Equations? minutes_loop (step m : Z) : list Z by wf (Z.to_nat (m + 1)) Nat.lt :=
  minutes_loop step m with Z_lt_dec m 0 := {
    | left _ => []
    | right _ => m :: minutes_loop step (m - Z.max 1 step) }.
Proof. lia. Qed.

(** [frames.push({ iso: t.toISOString(), stamp })] for each [m]. *)
Fixpoint push_scans `{DateLib} `{UtcFields} (now : Z) (ms : list Z)
  : error + list RadarIem.RadarScan :=
  match ms with
  | [] => inr []
  | m :: ms' =>
      let t := now - m * 60000 in
      match toISOString (t # 1000) with
      | None => inl InvalidTimeValue
      | Some s =>
          match push_scans now ms' with
          | inl e => inl e
          | inr fs => inr ({| RadarIem.iso := s; RadarIem.stamp := stamp_of t |} :: fs)
          end
      end
  end.

(** [buildLocalFallbackFramesUTC({ minutesBack, stepMinutes })] on whole
    minutes, at clock value [now]. *)
Definition buildLocalFallbackFramesUTC `{DateLib} `{UtcFields}
    (minutesBack stepMinutes now : Z) : error + list RadarIem.RadarScan :=
  let minutesBack := Z.max 5 minutesBack in
  let step := Z.max 1 stepMinutes in
  push_scans now (minutes_loop step minutesBack).

(** The UTC fields of the proleptic Gregorian calendar, from the count of
    days since 1970-01-01. *)
Definition civil_from_days (days : Z) : Z * Z * Z :=
  let z := days + 719468 in
  let era := z / 146097 in
  let doe := z - era * 146097 in
  let yoe := (doe - doe / 1460 + doe / 36524 - doe / 146096) / 365 in
  let doy := doe - (365 * yoe + yoe / 4 - yoe / 100) in
  let mp := (5 * doy + 2) / 153 in
  let d := doy - (153 * mp + 2) / 5 + 1 in
  let m := if mp <? 10 then mp + 3 else mp - 9 in
  let y := yoe + era * 400 + (if m <=? 2 then 1 else 0) in
  (y, m, d).

Definition gregorian_fields : UtcFields :=
  {| getUTCFullYear t := (civil_from_days (t / 86400000)).1.1;
     getUTCMonth t := (civil_from_days (t / 86400000)).1.2 - 1;
     getUTCDate t := (civil_from_days (t / 86400000)).2;
     getUTCHours t := (t / 3600000) mod 24;
     getUTCMinutes t := (t / 60000) mod 60 |}.

End RadarLayer.

(** ** app/lib/maps/getLocalRadarId.ts *)
Module LocalRadar.
Import Js Geo.

Definition getLocalRadarId `{FloatOps} (NEXRAD_SITES : list NexradSite)
    (lat lon : number) : option string :=
  match resolveNearestRadar NEXRAD_SITES lat lon
          {| maxDistanceKm := Some (Fin 300); filter := None |} with
  | Some r => Some (Geo.id (site r))
  | None => None
  end.

End LocalRadar.

(** ** Predicates of the invariants proved below *)
Module Invariants.
Import Js.

(** A layer state as the TS type declares it, with an opacity in [0, 1]. *)
Definition good_layer (ls : State.LayerRuntimeState) : Prop :=
  ∃ b q, ls = {| State.enabled := Some b; State.opacity := Some (Fin q) |}
         ∧ (0 <= q <= 1)%Q.

(** The layers map holds exactly the catalog ids, each with a good state. *)
Definition well_formed_layers (m : gmap string State.LayerRuntimeState) : Prop :=
  (∀ k, is_Some (m !! k) ↔ k ∈ State.catalog_ids)
  ∧ (∀ k ls, m !! k = Some ls → good_layer ls).

(** An action as the TS types admit it: a layer action names a catalog id. *)
Definition catalog_action (a : State.MapAction) : Prop :=
  match a with
  | State.SET_LAYER_ENABLED i _ | State.SET_LAYER_OPACITY i _ => i ∈ State.catalog_ids
  | _ => True
  end.

(** What the scrubber can ask of the screen. *)
Inductive ui_event : Type :=
  | SetFrame (frameIndex : Z)
  | SetPlaying (playing : bool)
  | Round
  | PressPlay
  | PressPrev
  | PressNext.

Definition handle (frameCount : Z) (state : State.MapRuntimeState) (ev : ui_event)
  : State.MapRuntimeState :=
  match ev with
  | SetFrame i => Screen.onSetFrame frameCount i state
  | SetPlaying b => Screen.onSetPlaying frameCount b state
  | Round => Screen.playback_round frameCount state
  | PressPlay => Screen.press_play frameCount state
  | PressPrev => Screen.press_prev frameCount state
  | PressNext => Screen.press_next frameCount state
  end.

(** The stored frame index is an index of the frames, and nothing plays with
    fewer than two frames. *)
Definition timeline_ok (frameCount : Z) (state : State.MapRuntimeState) : Prop :=
  0 ≤ State.frameIndex (State.radarTime state) ≤ Z.max 0 (frameCount - 1)
  ∧ (State.playing (State.radarTime state) = true → 2 ≤ frameCount).

(** An event of the crossfade as the screen produces it: an animation frame
    belongs to a transition towards a non-empty target and does not precede
    its start. *)
Definition sound_event (ev : Crossfade.event) : Prop :=
  match ev with
  | Crossfade.Resolved _ => True
  | Crossfade.Tick u start now => truthy_str u = true ∧ start ≤ now
  end.

(** What holds of every crossfade state that the screen reaches. *)
Definition crossfade_ok (st : Crossfade.CrossfadeState) : Prop :=
  (truthy_str (Crossfade.fadeUrl st) = true →
   truthy_str (Crossfade.baseUrl st) = true)
  ∧ (0 <= Crossfade.fadeT st <= 1)%Q.

(** The state of the nearest-site scan after a prefix [pre] of the registry,
    for any filter and any distances. *)
Definition scanned_by `{Geo.FloatOps} (flt : option (Geo.NexradSite → bool))
    (lat0 lon0 : number) (pre : list Geo.NexradSite)
    (best : option Geo.NexradSite * number) : Prop :=
  (∀ s, s ∈ pre → Geo.candidate flt s = true →
        lt (Geo.distance_from lat0 lon0 s) best.2 = false)
  ∧ match best.1 with
    | None => best.2 = PosInf
    | Some b => b ∈ pre ∧ Geo.candidate flt b = true
                ∧ best.2 = Geo.distance_from lat0 lon0 b
                ∧ lt best.2 PosInf = true
    end.

(** The layer that the hook shows in front, and the one behind it. *)
Definition other (f : AnimatedRadar.RadarFront) : AnimatedRadar.RadarFront :=
  match f with AnimatedRadar.A => AnimatedRadar.B | AnimatedRadar.B => AnimatedRadar.A end.

Definition shown_template (h : AnimatedRadar.Hook) : string :=
  match AnimatedRadar.front h with
  | AnimatedRadar.A => AnimatedRadar.templateA h
  | AnimatedRadar.B => AnimatedRadar.templateB h
  end.

Definition shown_opacity (h : AnimatedRadar.Hook) : Q :=
  match AnimatedRadar.front h with
  | AnimatedRadar.A => AnimatedRadar.opacityA h
  | AnimatedRadar.B => AnimatedRadar.opacityB h
  end.

Definition hidden_opacity (h : AnimatedRadar.Hook) : Q :=
  match AnimatedRadar.front h with
  | AnimatedRadar.A => AnimatedRadar.opacityB h
  | AnimatedRadar.B => AnimatedRadar.opacityA h
  end.

(** What happens to the hook: a call of [jumpTo], a firing of the playback
    interval, a firing of the fade timer. *)
Inductive hook_event : Type :=
  | Jump (targetIndex : Z)
  | Playback
  | Fade.

Definition hook_handle (frames : list Iem.IemFrame) (opacity : Q)
    (h : AnimatedRadar.Hook) (ev : hook_event) : AnimatedRadar.Hook :=
  match ev with
  | Jump targetIndex => AnimatedRadar.jumpTo frames targetIndex h
  | Playback => AnimatedRadar.playback_tick frames h
  | Fade => AnimatedRadar.fade_tick opacity h
  end.

(** The frame index is an index of the frames and a running fade timer has
    not yet counted its ten steps. *)
Definition hook_ok (frames : list Iem.IemFrame) (h : AnimatedRadar.Hook) : Prop :=
  0 ≤ AnimatedRadar.frameIndex h < Z.of_nat (length frames)
  ∧ ∀ d i, AnimatedRadar.fadeTimer h = Some (d, i) → 0 ≤ i < AnimatedRadar.steps.

End Invariants.

(** * Theorems *)

(** ** The reducer *)
Section StateFacts.
Import State.
Implicit Types (m : gmap string LayerRuntimeState) (k i : string).

Lemma fold_defaults_other (l : list LayerCatalogItem) m k :
  k ∉ State.id <$> l → fold_left default_step l m !! k = m !! k.
Proof.
  revert m. induction l as [|x l IH]; intros m Hk; simpl; [done|].
  rewrite fmap_cons in Hk. apply not_elem_of_cons in Hk as [Hne Hk].
  rewrite IH by done. unfold default_step. by rewrite lookup_insert_ne.
Qed.

Lemma fold_defaults_member (l : list LayerCatalogItem) m k :
  k ∈ State.id <$> l →
  ∃ o, fold_left default_step l m !! k
       = Some {| enabled := Some false; opacity := Some o |}.
Proof.
  revert m. induction l as [|x l IH]; intros m Hk; simpl.
  - by apply elem_of_nil in Hk.
  - destruct (decide (k ∈ State.id <$> l)) as [Hin|Hout].
    + by apply IH.
    + rewrite fmap_cons in Hk. apply elem_of_cons in Hk as [->|Hk]; [|done].
      rewrite fold_defaults_other by done.
      exists (defaultOpacity x). unfold default_step. by rewrite lookup_insert_eq.
Qed.

Lemma buildDefaultLayers_catalog k :
  k ∈ catalog_ids →
  ∃ o, buildDefaultLayers !! k
       = Some {| enabled := Some false; opacity := Some o |}.
Proof. apply fold_defaults_member. Qed.

Lemma buildDefaultLayers_other k :
  k ∉ catalog_ids → buildDefaultLayers !! k = None.
Proof.
  intros Hk. unfold buildDefaultLayers. by rewrite fold_defaults_other.
Qed.

Lemma enable_if_present_lookup m i k :
  enable_if_present m i !! k
  = (if decide (k = i) then with_enabled true else (λ ls, ls)) <$> m !! k.
Proof.
  unfold enable_if_present. destruct (m !! i) as [ls|] eqn:Hi.
  - destruct (decide (k = i)) as [->|Hne].
    + by rewrite lookup_insert_eq, Hi.
    + rewrite lookup_insert_ne by done. by destruct (m !! k).
  - destruct (decide (k = i)) as [->|Hne]; [by rewrite Hi|by destruct (m !! k)].
Qed.

Lemma fold_enable_lookup (ids : list string) m k :
  fold_left enable_if_present ids m !! k
  = (if decide (k ∈ ids) then with_enabled true else (λ ls, ls)) <$> m !! k.
Proof.
  revert m. induction ids as [|i ids IH]; intros m; simpl.
  - destruct (decide (k ∈ [])) as [Hk|_]; [by apply elem_of_nil in Hk|].
    by destruct (m !! k).
  - rewrite IH, enable_if_present_lookup.
    destruct (m !! k) as [ls|]; simpl; [|done].
    destruct (decide (k = i)) as [->|Hne].
    + rewrite (decide_True (P := i ∈ i :: ids)) by (apply elem_of_cons; by left).
      by destruct (decide (i ∈ ids)).
    + destruct (decide (k ∈ ids)) as [Hin|Hout].
      * by rewrite decide_True by (apply elem_of_cons; by right).
      * rewrite decide_False; [done|].
        intros [?|?]%elem_of_cons; done.
Qed.

Lemma preset_opacity_enabled m (e : string * Js.number) k :
  enabled <$> preset_opacity_if_present m e !! k = enabled <$> m !! k.
Proof.
  unfold preset_opacity_if_present. destruct (m !! e.1) as [ls|] eqn:He; [|done].
  destruct (decide (k = e.1)) as [->|Hne].
  - by rewrite lookup_insert_eq, He.
  - by rewrite lookup_insert_ne.
Qed.

Lemma fold_preset_opacity_enabled (l : list (string * Js.number)) m k :
  enabled <$> fold_left preset_opacity_if_present l m !! k = enabled <$> m !! k.
Proof.
  revert m. induction l as [|e l IH]; intros m; simpl; [done|].
  by rewrite IH, preset_opacity_enabled.
Qed.

(** The loop of SET_VIEW: every layer of the fresh state that the previous
    state also has takes the previous opacity; nothing else changes. *)
Lemma preserve_opacity_lookup (next prev : gmap string LayerRuntimeState) k :
  map_fold preserve_opacity next prev !! k
  = (λ ls, match prev !! k with
           | Some old => with_opacity (opacity old) ls
           | None => ls
           end) <$> next !! k.
Proof.
  revert k.
  apply (map_fold_weak_ind
           (λ r p, ∀ k, r !! k
                        = (λ ls, match p !! k with
                                 | Some old => with_opacity (opacity old) ls
                                 | None => ls
                                 end) <$> next !! k)).
  - intros k. rewrite lookup_empty. by destruct (next !! k).
  - intros i x p r Hi IH k. unfold preserve_opacity.
    destruct (decide (k = i)) as [->|Hne].
    + rewrite lookup_insert_eq. pose proof (IH i) as IHi. rewrite Hi in IHi.
      destruct (next !! i) as [ls|] eqn:Hn; simpl in *.
      * by rewrite IHi, lookup_insert_eq.
      * by rewrite IHi.
    + rewrite lookup_insert_ne by done.
      destruct (r !! i); [rewrite lookup_insert_ne by done|]; apply IH.
Qed.

Lemma every_view_is_defined (v : MapViewId) :
  ∃ view, find_view v = Some view ∧ view_id view = v.
Proof. destruct v; eexists; (split; [reflexivity|reflexivity]). Qed.

(** The layers of a fresh state: the catalog layers, each enabled exactly
    when the view's preset lists it. *)
Lemma initial_layers_enabled (o : InitOpts) view k :
  find_view (default radar (opt_viewId o)) = Some view →
  enabled <$> layers (createInitialMapState o) !! k
  = if decide (k ∈ catalog_ids)
    then Some (Some (bool_decide (k ∈ presetEnabledLayers view)))
    else None.
Proof.
  intros Hview. unfold createInitialMapState. cbn [layers]. rewrite Hview.
  rewrite fold_preset_opacity_enabled, fold_enable_lookup.
  destruct (decide (k ∈ catalog_ids)) as [Hin|Hout].
  - destruct (buildDefaultLayers_catalog k Hin) as [d ->]. simpl.
    destruct (decide (k ∈ presetEnabledLayers view)).
    + by rewrite bool_decide_eq_true_2.
    + by rewrite bool_decide_eq_false_2.
  - by rewrite buildDefaultLayers_other.
Qed.

Lemma initial_layers_dom (o : InitOpts) k :
  is_Some (layers (createInitialMapState o) !! k) ↔ k ∈ catalog_ids.
Proof.
  destruct (every_view_is_defined (default radar (opt_viewId o))) as (view & Hv & _).
  pose proof (initial_layers_enabled o view k Hv) as He.
  destruct (decide (k ∈ catalog_ids)) as [Hin|Hout]; split; intros Hk; try done.
  - destruct (layers (createInitialMapState o) !! k); [by eexists|done].
  - destruct Hk as [x Hx]. by rewrite Hx in He.
Qed.

Lemma set_view_lookup (s : MapRuntimeState) (v : MapViewId) k :
  layers (mapReducer s (SET_VIEW v)) !! k
  = (λ ls, match layers s !! k with
           | Some old => with_opacity (opacity old) ls
           | None => ls
           end) <$> layers (createInitialMapState (opts_of v s)) !! k.
Proof. simpl. apply preserve_opacity_lookup. Qed.

(** C1 (as amended).  SetLayerOpacity and SetLayerEnabled on a layer id that
    the layers map holds create no key: the key set is the same, the layer
    keeps its other field, and every other layer is untouched.  On an id that
    the map does not hold they are not a no-op: the key is added, bound to an
    object that has the written field only. *)
Theorem set_layer_present_keeps_keys
    (s : MapRuntimeState) (i : string) (o : Js.number) (b : bool) :
  let so := mapReducer s (SET_LAYER_OPACITY i o) in
  let se := mapReducer s (SET_LAYER_ENABLED i b) in
  (∀ k, k ≠ i → layers so !! k = layers s !! k ∧ layers se !! k = layers s !! k)
  ∧ (∀ ls, layers s !! i = Some ls →
       dom (layers so) = dom (layers s) ∧ dom (layers se) = dom (layers s)
       ∧ layers so !! i = Some {| enabled := enabled ls; opacity := Some (clamp01 o) |}
       ∧ layers se !! i = Some {| enabled := Some b; opacity := opacity ls |})
  ∧ (layers s !! i = None →
       layers so = <[ i := {| enabled := None; opacity := Some (clamp01 o) |} ]> (layers s)
       ∧ layers se = <[ i := {| enabled := Some b; opacity := None |} ]> (layers s)
       ∧ dom (layers so) = {[ i ]} ∪ dom (layers s)
       ∧ dom (layers se) = {[ i ]} ∪ dom (layers s)).
Proof.
  cbn zeta. split; [|split].
  - intros k Hk. simpl. by rewrite !lookup_insert_ne.
  - intros ls Hls. simpl. rewrite Hls, !dom_insert_L, !lookup_insert_eq. simpl.
    assert (Hin : {[ i ]} ∪ dom (layers s) = dom (layers s)).
    { apply subseteq_union_1_L, singleton_subseteq_l, elem_of_dom. by eexists. }
    by rewrite Hin.
  - intros Hnone. simpl. rewrite Hnone, !dom_insert_L. done.
Qed.

Lemma set_layer_present_keeps_keys_witness :
  let s := createInitialMapState no_init_opts in
  layers s !! "radar.reflectivity"
    = Some {| enabled := Some true; opacity := Some (Js.Fin (9 # 10)) |}
  ∧ dom (layers (mapReducer s (SET_LAYER_OPACITY "radar.reflectivity" (Js.Fin (3 # 10)))))
    = dom (layers s)
  ∧ layers (mapReducer s (SET_LAYER_OPACITY "radar.reflectivity" (Js.Fin (3 # 10))))
      !! "radar.reflectivity"
    = Some {| enabled := Some true; opacity := Some (Js.Fin (3 # 10)) |}.
Proof.
  cbn zeta.
  assert (Hl : layers (createInitialMapState no_init_opts) !! "radar.reflectivity"
               = Some {| enabled := Some true; opacity := Some (Js.Fin (9 # 10)) |})
    by (vm_compute; reflexivity).
  split; [exact Hl|].
  destruct (set_layer_present_keeps_keys (createInitialMapState no_init_opts)
              "radar.reflectivity" (Js.Fin (3 # 10)) true) as (_ & Hp & _).
  destruct (Hp _ Hl) as (Hd & _ & Ho & _).
  split; [exact Hd|exact Ho].
Defined.

(** C1, as stated, fails: on the initial state, SetLayerOpacity and
    SetLayerEnabled for an id that the layers map does not hold both return a
    layers map with one more key. *)
Lemma set_layer_absent_adds_key :
  let s := createInitialMapState no_init_opts in
  let so := mapReducer s (SET_LAYER_OPACITY "nonexistent-id" (Js.Fin (1 # 2))) in
  let se := mapReducer s (SET_LAYER_ENABLED "nonexistent-id" true) in
  layers s !! "nonexistent-id" = None
  ∧ layers so ≠ layers s
  ∧ layers so !! "nonexistent-id"
    = Some {| enabled := None; opacity := Some (Js.Fin (1 # 2)) |}
  ∧ layers se ≠ layers s
  ∧ layers se !! "nonexistent-id"
    = Some {| enabled := Some true; opacity := None |}.
Proof.
  cbn zeta.
  assert (Hn : layers (createInitialMapState no_init_opts) !! "nonexistent-id" = None)
    by (vm_compute; reflexivity).
  split; [exact Hn|]. unfold mapReducer. cbn [layers]. rewrite Hn.
  rewrite !lookup_insert_eq. repeat split.
  - intros Heq. apply (f_equal (λ m, m !! "nonexistent-id")) in Heq.
    by rewrite lookup_insert_eq, Hn in Heq.
  - intros Heq. apply (f_equal (λ m, m !! "nonexistent-id")) in Heq.
    by rewrite lookup_insert_eq, Hn in Heq.
Qed.

(** C9.  When a catalog layer has opacity [o] in a state (for instance the
    customised 0.3), SetView(B) followed by SetView(A) yields a state in which
    that layer still has opacity [o], and each of the two transitions carries
    the radar timeline over unchanged. *)
Theorem set_view_round_trip_keeps_opacity
    (s : MapRuntimeState) (A B : MapViewId) (L : string) (ls : LayerRuntimeState) :
  L ∈ catalog_ids →
  layers s !! L = Some ls →
  let sB := mapReducer s (SET_VIEW B) in
  let sA := mapReducer sB (SET_VIEW A) in
  opacity <$> layers sB !! L = Some (opacity ls)
  ∧ opacity <$> layers sA !! L = Some (opacity ls)
  ∧ viewId sA = A
  ∧ radarTime sB = radarTime s
  ∧ radarTime sA = radarTime s.
Proof.
  intros Hcat Hls sB sA.
  assert (HB : opacity <$> layers sB !! L = Some (opacity ls)).
  { unfold sB. rewrite set_view_lookup, Hls.
    destruct (proj2 (initial_layers_dom (opts_of B s) L) Hcat) as [x ->]. done. }
  split; [exact HB|]. split; [|done].
  unfold sA. rewrite set_view_lookup.
  destruct (proj2 (initial_layers_dom (opts_of A sB) L) Hcat) as [x ->].
  destruct (layers sB !! L) as [y|]; [|done]. simpl in *. congruence.
Qed.

Lemma set_view_round_trip_keeps_opacity_witness :
  let s := mapReducer (createInitialMapState no_init_opts)
             (SET_LAYER_OPACITY "radar.reflectivity" (Js.Fin (3 # 10))) in
  "radar.reflectivity" ∈ catalog_ids
  ∧ layers s !! "radar.reflectivity"
    = Some {| enabled := Some true; opacity := Some (Js.Fin (3 # 10)) |}
  ∧ opacity <$> layers (mapReducer (mapReducer s (SET_VIEW wildfire)) (SET_VIEW radar))
                  !! "radar.reflectivity"
    = Some (Some (Js.Fin (3 # 10))).
Proof.
  cbn zeta.
  assert (Hc : "radar.reflectivity" ∈ catalog_ids)
    by (apply list_elem_of_In; simpl; auto).
  assert (Hl : layers (mapReducer (createInitialMapState no_init_opts)
                         (SET_LAYER_OPACITY "radar.reflectivity" (Js.Fin (3 # 10))))
                 !! "radar.reflectivity"
               = Some {| enabled := Some true; opacity := Some (Js.Fin (3 # 10)) |})
    by (vm_compute; reflexivity).
  split; [exact Hc|]. split; [exact Hl|].
  exact (proj1 (proj2 (set_view_round_trip_keeps_opacity _ radar wildfire _ _ Hc Hl))).
Defined.

(** C10.  SetView rebuilds every catalog layer's enabled flag from the target
    view's preset, whatever the prior state: a layer that the preset does not
    list is disabled, a layer that it lists is enabled; of the prior layer
    state only the opacity survives. *)
Theorem set_view_rebuilds_enabled
    (s : MapRuntimeState) (v : MapViewId) (view : MapViewDefinition) (L : string) :
  find_view v = Some view →
  L ∈ catalog_ids →
  let s' := mapReducer s (SET_VIEW v) in
  (L ∉ presetEnabledLayers view → enabled <$> layers s' !! L = Some (Some false))
  ∧ (L ∈ presetEnabledLayers view → enabled <$> layers s' !! L = Some (Some true))
  ∧ (∀ old, layers s !! L = Some old → opacity <$> layers s' !! L = Some (opacity old)).
Proof.
  intros Hview Hcat s'.
  assert (He : enabled <$> layers s' !! L
               = Some (Some (bool_decide (L ∈ presetEnabledLayers view)))).
  { unfold s'. rewrite set_view_lookup.
    pose proof (initial_layers_enabled (opts_of v s) view L Hview) as Hi.
    rewrite decide_True in Hi by done.
    destruct (layers (createInitialMapState (opts_of v s)) !! L) as [x|]; [|done].
    simpl in *. by destruct (layers s !! L). }
  split; [|split].
  - intros Hout. by rewrite He, bool_decide_eq_false_2.
  - intros Hin. by rewrite He, bool_decide_eq_true_2.
  - intros old Hold. unfold s'. rewrite set_view_lookup, Hold.
    destruct (proj2 (initial_layers_dom (opts_of v s) L) Hcat) as [x ->]. done.
Qed.

Lemma set_view_rebuilds_enabled_witness :
  let s := mapReducer (createInitialMapState no_init_opts)
             (SET_LAYER_ENABLED "wildfire.hotspots" true) in
  let view := {| view_id := storm; view_title := "Storm";
                 presetEnabledLayers := ["radar.reflectivity"; "lightning.strikes"];
                 presetLayerOpacity := [];
                 timelineDriverLayer := Some "radar.reflectivity" |} in
  find_view storm = Some view
  ∧ "wildfire.hotspots" ∈ catalog_ids
  ∧ enabled <$> layers s !! "wildfire.hotspots" = Some (Some true)
  ∧ enabled <$> layers (mapReducer s (SET_VIEW storm)) !! "wildfire.hotspots"
    = Some (Some false).
Proof.
  cbn zeta.
  assert (Hc : "wildfire.hotspots" ∈ catalog_ids)
    by (apply list_elem_of_In; simpl; auto 10).
  split; [reflexivity|]. split; [exact Hc|]. split; [vm_compute; reflexivity|].
  apply (set_view_rebuilds_enabled _ storm _ _ eq_refl Hc).
  intros Hin. apply list_elem_of_In in Hin. simpl in Hin.
  destruct Hin as [Hin|[Hin|[]]]; discriminate Hin.
Defined.

End StateFacts.

(** ** The timeline helpers *)
Section TimelineFacts.
Import Timeline.

Lemma nextFrameIndex_mod (i n : Z) :
  0 < n → 0 ≤ i → nextFrameIndex i n = (i + 1) mod n.
Proof.
  intros Hn Hi. unfold nextFrameIndex.
  destruct (Z.leb_spec n 0); [lia|]. apply Z.rem_mod_nonneg; lia.
Qed.

Lemma prevFrameIndex_mod (i n : Z) :
  0 < n → 0 ≤ i → prevFrameIndex i n = (i - 1) mod n.
Proof.
  intros Hn Hi. unfold prevFrameIndex.
  destruct (Z.leb_spec n 0); [lia|]. rewrite Z.rem_mod_nonneg by lia.
  replace (i - 1 + n) with (i - 1 + 1 * n) by lia. apply Z_mod_plus_full.
Qed.

(** [k] steps forward (backward) from a valid index add (subtract) [k]
    modulo the frame count. *)
Lemma iter_next (n : Z) (k : nat) (i : Z) :
  0 < n → 0 ≤ i < n →
  Nat.iter k (λ j, nextFrameIndex j n) i = (i + Z.of_nat k) mod n.
Proof.
  intros Hn Hi. induction k as [|k IH].
  - simpl. rewrite Z.add_0_r, Z.mod_small; lia.
  - rewrite Nat.iter_succ, IH, nextFrameIndex_mod; [|lia|apply Z.mod_pos_bound; lia].
    rewrite Zplus_mod_idemp_l. f_equal. lia.
Qed.

Lemma iter_prev (n : Z) (k : nat) (i : Z) :
  0 < n → 0 ≤ i < n →
  Nat.iter k (λ j, prevFrameIndex j n) i = (i - Z.of_nat k) mod n.
Proof.
  intros Hn Hi. induction k as [|k IH].
  - simpl. rewrite Z.sub_0_r, Z.mod_small; lia.
  - rewrite Nat.iter_succ, IH, prevFrameIndex_mod; [|lia|apply Z.mod_pos_bound; lia].
    rewrite Zminus_mod_idemp_l. f_equal. lia.
Qed.

(** The index that the screen passes to next and prev is clamped first. *)
Lemma clamp_in_range (i n : Z) : 0 < n → 0 ≤ clamp i n < n.
Proof. intros Hn. unfold clamp. destruct (Z.leb_spec n 0); lia. Qed.

(** C8.  With five frames, five applications of next from a start index
    [0 <= i < 5] give [i] again, and so do five applications of prev; with a
    frame count [n <= 0], next and prev return 0 on every index.  This holds
    of the helpers of the scrubber and of those of timeline.ts alike. *)
Theorem frame_index_full_cycle (i j n : Z) :
  0 ≤ i < 5 →
  n ≤ 0 →
  Nat.iter 5 (λ x, nextFrameIndex x 5) i = i
  ∧ Nat.iter 5 (λ x, prevFrameIndex x 5) i = i
  ∧ nextFrameIndex j n = 0
  ∧ prevFrameIndex j n = 0
  ∧ Nat.iter 5 (λ x, TimelineLib.nextFrameIndex x 5) i = i
  ∧ Nat.iter 5 (λ x, TimelineLib.prevFrameIndex x 5) i = i
  ∧ TimelineLib.nextFrameIndex j n = 0
  ∧ TimelineLib.prevFrameIndex j n = 0.
Proof.
  intros Hi Hn. repeat split.
  - rewrite iter_next by lia.
    replace (i + Z.of_nat 5) with (i + 1 * 5) by lia.
    rewrite Z_mod_plus_full. apply Z.mod_small; lia.
  - rewrite iter_prev by lia.
    replace (i - Z.of_nat 5) with (i + (-1) * 5) by lia.
    rewrite Z_mod_plus_full. apply Z.mod_small; lia.
  - unfold nextFrameIndex. destruct (Z.leb_spec n 0); [done|lia].
  - unfold prevFrameIndex. destruct (Z.leb_spec n 0); [done|lia].
  - assert (Hc : i = 0 ∨ i = 1 ∨ i = 2 ∨ i = 3 ∨ i = 4) by lia.
    destruct Hc as [->|[->|[->|[->| ->]]]]; reflexivity.
  - assert (Hc : i = 0 ∨ i = 1 ∨ i = 2 ∨ i = 3 ∨ i = 4) by lia.
    destruct Hc as [->|[->|[->|[->| ->]]]]; reflexivity.
  - unfold TimelineLib.nextFrameIndex. destruct (Z.leb_spec n 0); [done|lia].
  - unfold TimelineLib.prevFrameIndex. destruct (Z.leb_spec n 0); [done|lia].
Qed.

Lemma frame_index_full_cycle_witness :
  0 ≤ 3 < 5 ∧ -2 ≤ 0
  ∧ Nat.iter 5 (λ x, nextFrameIndex x 5) 3 = 3
  ∧ Nat.iter 5 (λ x, prevFrameIndex x 5) 3 = 3
  ∧ nextFrameIndex 7 (-2) = 0
  ∧ prevFrameIndex 7 (-2) = 0.
Proof.
  assert (H1 : 0 ≤ 3 < 5) by lia.
  assert (H2 : -2 ≤ 0) by lia.
  split; [exact H1|]. split; [exact H2|].
  destruct (frame_index_full_cycle 3 7 (-2) H1 H2) as (Ha & Hb & Hc & Hd & _).
  exact (conj Ha (conj Hb (conj Hc Hd))).
Defined.

(** The helpers of the scrubber do not clamp (the screen clamps the index it
    passes): from an index outside [0, 5) the five steps land inside the
    range, not back on the start. *)
Example next_from_outside_range :
  Nat.iter 5 (λ x, nextFrameIndex x 5) 7 = 2
  ∧ Nat.iter 5 (λ x, prevFrameIndex x 5) 7 = 2
  ∧ Nat.iter 5 (λ x, nextFrameIndex x 5) (-3) = 2.
Proof. repeat split; reflexivity. Qed.

End TimelineFacts.

(** ** The crossfade *)
Section CrossfadeFacts.
Import Crossfade.

Lemma max_Fin (a b : Q) :
  Js.max (Js.Fin a) (Js.Fin b) = Js.Fin (if Qle_bool b a then a else b).
Proof. unfold Js.max, Js.lt. simpl. by destruct (Qle_bool b a). Qed.

Lemma min_Fin (a b : Q) :
  Js.min (Js.Fin a) (Js.Fin b) = Js.Fin (if Qle_bool a b then a else b).
Proof. unfold Js.min, Js.lt. simpl. by destruct (Qle_bool a b). Qed.

Lemma Qle_bool_false (a b : Q) : Qle_bool a b = false → (b < a)%Q.
Proof.
  intros Hf. destruct (Qlt_le_dec b a) as [Hlt|Hle]; [done|].
  apply Qle_bool_iff in Hle. congruence.
Qed.

(** The clamp of [radarOpacity], on a finite configured opacity. *)
Lemma clamp_to_floor (floor q : Q) :
  (floor <= 1)%Q →
  ∃ r, Js.min (Js.Fin 1) (Js.max (Js.Fin floor) (Js.Fin q)) = Js.Fin r
       ∧ (floor <= r <= 1)%Q.
Proof.
  intros Hf. rewrite max_Fin, min_Fin. eexists. split; [reflexivity|].
  destruct (Qle_bool q floor) eqn:H1.
  - destruct (Qle_bool 1 floor) eqn:H2.
    + split; [done|apply Qle_refl].
    + split; [apply Qle_refl|done].
  - apply Qle_bool_false in H1.
    destruct (Qle_bool 1 q) eqn:H2.
    + split; [done|apply Qle_refl].
    + apply Qle_bool_false in H2. split; by apply Qlt_le_weak.
Qed.

(** When the configured opacity is not NaN, [radarOpacity] is finite and
    lies between the floor of the mode and 1. *)
Lemma radarOpacity_range (state : State.MapRuntimeState) :
  (∀ ls, State.layers state !! "radar.reflectivity" = Some ls →
         State.opacity ls ≠ Some Js.NaN) →
  ∃ r, radarOpacity state = Js.Fin r ∧ (55 # 100 <= r <= 1)%Q.
Proof.
  intros Hnan. unfold radarOpacity.
  set (configured := match State.layers state !! "radar.reflectivity" with
                     | Some ls => default (Js.Fin (9 # 10)) (State.opacity ls)
                     | None => Js.Fin (9 # 10)
                     end).
  assert (Hc : configured ≠ Js.NaN).
  { unfold configured. destruct (State.layers state !! "radar.reflectivity") as [ls|];
      [|done]. specialize (Hnan ls eq_refl).
    destruct (State.opacity ls) as [o|]; simpl; congruence. }
  destruct configured as [| |q|]; [done| | |].
  - destruct (State.nerdy state); simpl;
      (eexists; split; [reflexivity|split; by vm_compute]).
  - destruct (State.nerdy state); simpl.
    + apply clamp_to_floor. by vm_compute.
    + destruct (clamp_to_floor (75 # 100) q) as (r & Hr & H1 & H2); [by vm_compute|].
      exists r. split; [done|]. split; [|done].
      eapply Qle_trans; [|exact H1]. by vm_compute.
  - destruct (State.nerdy state); simpl;
      (eexists; split; [reflexivity|split; by vm_compute]).
Qed.

(** A transition never shows a progress value outside [0, 1] as long as the
    clock does not run backwards during it. *)
Lemma tick_fadeT_range (u : option string) (start now : Z) (st : CrossfadeState) :
  start ≤ now → (0 <= fadeT (tick u start now st) <= 1)%Q.
Proof.
  intros Hle. unfold tick.
  destruct (Qle_bool 1 (inject_Z (now - start) / inject_Z duration)) eqn:Ht; simpl.
  - split; by vm_compute.
  - split.
    + apply Qle_shift_div_l; [by vm_compute|].
      rewrite Qmult_0_l. rewrite <- (Zle_Qle 0). lia.
    + destruct (Qlt_le_dec (inject_Z (now - start) / inject_Z duration) 1)
        as [Hlt|Hge]; [by apply Qlt_le_weak|].
      apply Qle_bool_iff in Hge. congruence.
Qed.

(** C2.  At every crossfade state with a fade template set, whatever the
    progress value (so in particular for a progress in [0, 1]), the base and
    fade opacities add up to the radar opacity exactly; with no fade template,
    the base opacity is the radar opacity and the fade opacity is 0. *)
Theorem crossfade_opacities_sum
    (state : State.MapRuntimeState) (st : CrossfadeState) (r : Q) :
  radarOpacity state = Js.Fin r →
  (Js.truthy_str (fadeUrl st) = true →
     (baseOpacity st r + fadeOpacity st r == r)%Q)
  ∧ (Js.truthy_str (fadeUrl st) = false →
     baseOpacity st r = r ∧ fadeOpacity st r = 0%Q).
Proof.
  intros _. unfold baseOpacity, fadeOpacity. split; intros ->; simpl.
  - ring.
  - done.
Qed.

Lemma crossfade_opacities_sum_witness :
  let state := State.createInitialMapState State.no_init_opts in
  let mid := run [Resolved (Some "a"); Tick (Some "a") 0 300;
                  Resolved (Some "b"); Tick (Some "b") 1000 1070] in
  let idle := run [Resolved (Some "a"); Tick (Some "a") 0 300] in
  radarOpacity state = Js.Fin (9 # 10)
  ∧ Js.truthy_str (fadeUrl mid) = true
  ∧ (fadeT mid == 1 # 4)%Q
  ∧ (baseOpacity mid (9 # 10) + fadeOpacity mid (9 # 10) == 9 # 10)%Q
  ∧ Js.truthy_str (fadeUrl idle) = false
  ∧ baseOpacity idle (9 # 10) = 9 # 10
  ∧ fadeOpacity idle (9 # 10) = 0%Q.
Proof.
  cbn zeta.
  assert (Hr : radarOpacity (State.createInitialMapState State.no_init_opts)
               = Js.Fin (9 # 10)) by (vm_compute; reflexivity).
  split; [exact Hr|]. split; [reflexivity|]. split; [reflexivity|].
  split; [exact (proj1 (crossfade_opacities_sum _
                         (run [Resolved (Some "a"); Tick (Some "a") 0 300;
                               Resolved (Some "b"); Tick (Some "b") 1000 1070])
                         _ Hr) eq_refl)|].
  split; [reflexivity|].
  exact (proj2 (crossfade_opacities_sum _
                  (run [Resolved (Some "a"); Tick (Some "a") 0 300]) _ Hr) eq_refl).
Defined.

End CrossfadeFacts.

(** ** Strings and the tile templates *)
Section TemplateFacts.
Import Env.


Lemma append_String (c : Ascii.ascii) (a s : string) :
  String c a +:+ s = String c (a +:+ s).
Proof. reflexivity. Qed.

Lemma prefix_append (n h : string) :
  String.prefix n h = true ↔ ∃ b, h = n +:+ b.
Proof.
  revert h. induction n as [|c n IH]; intros h.
  - split; [intros _; by exists h|by destruct h].
  - destruct h as [|d h].
    + split; [done|intros [b Hb]; discriminate].
    + simpl. destruct (Ascii.ascii_dec c d) as [->|Hne].
      * rewrite IH. split; intros [b Hb]; exists b.
        -- rewrite append_String. by f_equal.
        -- rewrite append_String in Hb. congruence.
      * split; [done|]. intros [b Hb]. rewrite append_String in Hb. congruence.
Qed.

Lemma includes_occurs (n h : string) :
  includes n h = true ↔ occurs_in n h.
Proof.
  unfold occurs_in. induction h as [|c h IH].
  - cbn [includes]. rewrite orb_false_r, prefix_append. split.
    + intros [b Hb]. by exists "", b.
    + intros (a & b & Hab). destruct a; [by exists b|discriminate].
  - cbn [includes]. rewrite orb_true_iff, IH, prefix_append. split.
    + intros [[b Hb]|(a & b & Hab)].
      * by exists "", b.
      * exists (String c a), b. rewrite append_String. by f_equal.
    + intros (a & b & Hab). destruct a as [|d a].
      * left. by exists b.
      * right. exists a, b. rewrite append_String in Hab. congruence.
Qed.





End TemplateFacts.

(** ** Sorting by time *)
Section SortFacts.
Import Env.
Context {A : Type}.
Implicit Types (x y : Q * A) (l : list (Q * A)).

Lemma insert_by_time_perm x l : insert_by_time x l ≡ₚ x :: l.
Proof.
  induction l as [|y l IH]; simpl; [done|].
  destruct (Qle_bool x.1 y.1); [done|].
  rewrite IH. apply perm_swap.
Qed.

Lemma sort_by_time_perm l : sort_by_time l ≡ₚ l.
Proof.
  induction l as [|x l IH]; [done|].
  unfold sort_by_time in *. simpl. by rewrite insert_by_time_perm, IH.
Qed.

Lemma insert_by_time_sorted x l :
  StronglySorted not_later l → StronglySorted not_later (insert_by_time x l).
Proof.
  induction 1 as [|y l Hl IH Hy]; simpl.
  - repeat constructor.
  - destruct (Qle_bool x.1 y.1) eqn:Hxy.
    + apply Qle_bool_iff in Hxy. constructor; [by constructor|].
      constructor; [done|].
      eapply Forall_impl; [exact Hy|]. intros z Hz. unfold not_later in *.
      by eapply Qle_trans.
    + constructor; [done|].
      rewrite insert_by_time_perm. constructor; [|done].
      unfold not_later. apply Qlt_le_weak.
      destruct (Qlt_le_dec y.1 x.1) as [Hlt|Hle]; [done|].
      apply Qle_bool_iff in Hle. congruence.
Qed.

Lemma sort_by_time_sorted l : StronglySorted not_later (sort_by_time l).
Proof.
  induction l as [|x l IH]; [constructor|].
  by apply insert_by_time_sorted.
Qed.

Lemma sorted_app_order l1 l2 x y :
  StronglySorted not_later (l1 ++ l2) → x ∈ l1 → y ∈ l2 → not_later x y.
Proof.
  induction l1 as [|z l1 IH]; intros Hs Hx Hy.
  - by apply elem_of_nil in Hx.
  - simpl in Hs. apply StronglySorted_inv in Hs as [Hs Hz].
    apply elem_of_cons in Hx as [->|Hx]; [|by apply IH].
    rewrite Forall_forall in Hz. apply Hz. apply elem_of_app. by right.
Qed.

Lemma sorted_drop (k : nat) l :
  StronglySorted not_later l → StronglySorted not_later (drop k l).
Proof.
  revert l. induction k as [|k IH]; intros l Hs; [by rewrite drop_0|].
  destruct l as [|x l]; [done|]. simpl.
  apply IH. by apply StronglySorted_inv in Hs as [Hs _].
Qed.

Lemma keep_last_length (N : Z) l :
  0 ≤ N → length (RainViewer.keep_last N l) = Nat.min (Z.to_nat N) (length l).
Proof. intros HN. unfold RainViewer.keep_last. rewrite length_drop. lia. Qed.

(** [keep_last] keeps a suffix: the list is the dropped entries followed by
    the kept ones. *)
Lemma keep_last_suffix (N : Z) l :
  ∃ older, l = older ++ RainViewer.keep_last N l.
Proof.
  unfold RainViewer.keep_last. eexists. symmetry. apply take_drop.
Qed.

End SortFacts.

(** ** The provider of rainviewer.ts *)
Section ProviderFacts.
Import Env RainViewer.
Context `{DateLib}.

Lemma truthy_nonempty (h : string) : h ≠ "" ↔ Js.truthy_str (Some h) = true.
Proof.
  simpl. destruct (String.eqb_spec h ""); simpl; split; congruence.
Qed.

Lemma toFrames_inr (l : list (Q * string)) :
  Forall (λ e, is_Some (toISOString e.1)) l →
  ∃ fs, toFrames l = inr fs ∧ t <$> fs = l.*1.
Proof.
  induction 1 as [|e l [s Hs] _ (fs & Hfs & Ht)]; simpl.
  - by exists [].
  - unfold toFrame. rewrite Hs, Hfs. eexists. split; [reflexivity|].
    rewrite !fmap_cons. simpl. by f_equal.
Qed.

Lemma toFrames_inl (l : list (Q * string)) :
  Exists (λ e, toISOString e.1 = None) l → toFrames l = inl InvalidTimeValue.
Proof.
  induction 1 as [e l He|e l _ IH]; simpl; unfold toFrame.
  - by rewrite He.
  - destruct (toISOString e.1); [|done]. by rewrite IH.
Qed.

Lemma toFrames_times (l : list (Q * string)) (fs : list RadarFrame) :
  toFrames l = inr fs → t <$> fs = l.*1.
Proof.
  revert fs. induction l as [|e l IH]; intros fs; simpl.
  - by intros [= <-].
  - unfold toFrame. destruct (toISOString e.1); [|done].
    destruct (toFrames l) as [|fs']; [done|]. intros [= <-].
    rewrite !fmap_cons. simpl. f_equal. by apply IH.
Qed.

Lemma fetch_json_env (url : string) (e : Env.Env) :
  (fetch_json url e).2 = fetched url e.
Proof.
  unfold fetch_json, fetch, fetched. destruct (upstream e) as [|o rest]; simpl; [done|].
  destruct o as [|[] st [d|]]; done.
Qed.

Lemma fetch_json_inr (url : string) (e : Env.Env) (d : RainViewerMaps) :
  (fetch_json url e).1 = inr d ↔
  ∃ status rest, upstream e = Response true status (Some d) :: rest.
Proof.
  unfold fetch_json, fetch. destruct (upstream e) as [|o rest]; simpl.
  - split; [done|]. by intros (? & ? & ?).
  - destruct o as [|[] st [d'|]]; simpl; split; try done;
      try (by intros (? & ? & ?)).
    + intros Heq. injection Heq as ->. by eexists _, _.
    + intros (? & ? & Heq). by injection Heq as _ -> _.
Qed.

(** [fetchFrames] touches nothing but the environment, where it performs
    exactly one fetch. *)
Lemma fetchFrames_world (cfg : Config) (w : World) :
  (fetchFrames cfg w).2 = with_env (fetched MAPS_JSON (env w)) w.
Proof.
  unfold fetchFrames, bind, fetchMapsJson.
  pose proof (fetch_json_env MAPS_JSON (env w)) as He.
  destruct (fetch_json MAPS_JSON (env w)) as [[e|d] e']; cbn [fst snd] in *; subst e'.
  - done.
  - destruct (host d) as [h|]; [|done].
    destruct (negb (Js.truthy_str (Some h))); [done|].
    destruct (toFrames _); done.
Qed.

(** The successful runs of [fetchFrames]. *)
Lemma fetchFrames_inr (cfg : Config) (w : World) (r : Fetched) :
  (fetchFrames cfg w).1 = inr r ↔
  ∃ status rest d,
    upstream (env w) = Response true status (Some d) :: rest
    ∧ host d = Some (fhost r) ∧ fhost r ≠ ""
    ∧ toFrames (keep_last (maxFrames cfg) (combined_of cfg d)) = inr (frames r)
    ∧ paths r = (keep_last (maxFrames cfg) (combined_of cfg d)).*2.
Proof.
  unfold fetchFrames, bind, fetchMapsJson.
  pose proof (fetch_json_inr MAPS_JSON (env w)) as Hj.
  destruct (fetch_json MAPS_JSON (env w)) as [[e|d] e']; cbn [fst snd] in *.
  - split; [done|]. intros (st & rest & d & Hup & _).
    specialize (Hj d). destruct Hj as [_ Hj]. discriminate Hj. by eexists _, _.
  - destruct (proj1 (Hj d) eq_refl) as (st & rest & Hup).
    destruct (host d) as [h|] eqn:Hh.
    + destruct (Js.truthy_str (Some h)) eqn:Ht; cbn [negb fst].
      * apply truthy_nonempty in Ht.
        destruct (toFrames _) as [e|fs] eqn:Hfs; cbn [fst throw ret].
        -- split; [done|]. intros (? & ? & d' & Hup' & _ & _ & Hfs' & _).
           rewrite Hup in Hup'. injection Hup' as _ <- _. congruence.
        -- split.
           ++ intros Heq. injection Heq as <-. cbn [frames fhost paths].
              by eexists st, rest, d.
           ++ intros (? & ? & d' & Hup' & Hh' & _ & Hfs' & Hp).
              rewrite Hup in Hup'. injection Hup' as _ <- _.
              destruct r as [fr fh ps]. cbn [frames fhost paths] in *. congruence.
      * split; [done|]. intros (? & ? & d' & Hup' & Hh' & Hne & _).
        rewrite Hup in Hup'. injection Hup' as _ <- _.
        apply truthy_nonempty in Hne. congruence.
    + split; [done|]. intros (? & ? & d' & Hup' & Hh' & _).
      rewrite Hup in Hup'. injection Hup' as _ <- _. congruence.
Qed.

End ProviderFacts.

(** ** The manifest fetch and its two caches *)
Section ManifestFacts.
Import Env.
Context `{DateLib}.

Lemma getFrames_hit (p : nat) (c : RainViewer.Closure) (w : RainViewer.World)
    (fs : list RainViewer.RadarFrame) :
  RainViewer.providers w !! p = Some c →
  RainViewer.cache_hit c w = Some fs →
  RainViewer.getFrames p w = (inr fs, w).
Proof. intros Hp Hhit. unfold RainViewer.getFrames. by rewrite Hp, Hhit. Qed.

(** A call that misses the cache performs the one fetch of [fetchFrames];
    on an error the module and the closures are left as they were, on success
    the four variables are assigned from the result. *)
Lemma getFrames_miss (p : nat) (c : RainViewer.Closure) (w : RainViewer.World) :
  RainViewer.providers w !! p = Some c →
  RainViewer.cache_hit c w = None →
  let w' := RainViewer.with_env (fetched RainViewer.MAPS_JSON (RainViewer.env w)) w in
  RainViewer.getFrames p w
  = match (RainViewer.fetchFrames (RainViewer.config c) w).1 with
    | inl e => (inl e, w')
    | inr r => (inr (RainViewer.frames r),
                RainViewer.store p c (now (RainViewer.env w)) r w')
    end.
Proof.
  intros Hp Hmiss. cbn zeta. unfold RainViewer.getFrames. rewrite Hp, Hmiss.
  pose proof (fetchFrames_world (RainViewer.config c) w) as Hw.
  destruct (RainViewer.fetchFrames (RainViewer.config c) w) as [[e|r] w'];
    cbn [fst snd] in *; by subst w'.
Qed.

(** After a successful store, the same provider hits the cache exactly while
    the clock is before the expiry. *)
Lemma cache_hit_after_store (p : nat) (c : RainViewer.Closure) (t0 t1 : Z)
    (r : RainViewer.Fetched) (w : RainViewer.World) (net : list FetchOutcome) :
  RainViewer.fhost r ≠ "" →
  RainViewer.cache_hit
    {| RainViewer.config := RainViewer.config c;
       RainViewer.cachedHost := Some (RainViewer.fhost r);
       RainViewer.cachedPaths := Some (RainViewer.paths r) |}
    (RainViewer.later t1 net (RainViewer.store p c t0 r w))
  = if t1 <? t0 + RainViewer.ttlMs (RainViewer.config c)
    then Some (RainViewer.frames r) else None.
Proof.
  intros Hh. apply truthy_nonempty in Hh. unfold RainViewer.cache_hit.
  cbn [RainViewer.cachedFrames RainViewer.cachedPaths RainViewer.cachedHost
       RainViewer.later RainViewer.store RainViewer.with_env RainViewer.env
       RainViewer.cacheExpiresAt now].
  rewrite Hh. by rewrite andb_true_r.
Qed.

Lemma toScans_inr (l : list (Q * string)) :
  Forall (λ e, is_Some (toISOString e.1)) l →
  ∃ scans, RadarIem.toScans l = inr scans ∧ RadarIem.stamp <$> scans = l.*2.
Proof.
  induction 1 as [|e l [s Hs] _ (fs & Hfs & Ht)]; simpl.
  - by exists [].
  - rewrite Hs, Hfs. eexists. split; [reflexivity|].
    rewrite !fmap_cons. simpl. by f_equal.
Qed.

Lemma rv_fetch_hit (w : RadarIem.World) (d : RainViewerMaps) :
  RadarIem.cache_hit w = Some d →
  RadarIem.fetchRainViewerMapsJson w = (inr d, w).
Proof. intros Hh. unfold RadarIem.fetchRainViewerMapsJson. by rewrite Hh. Qed.

Lemma rv_fetch_miss (w : RadarIem.World) :
  RadarIem.cache_hit w = None →
  let e' := fetched RadarIem.WEATHER_MAPS_JSON (RadarIem.env w) in
  RadarIem.fetchRainViewerMapsJson w
  = match (fetch_json RadarIem.WEATHER_MAPS_JSON (RadarIem.env w)).1 with
    | inl e => (inl e, {| RadarIem.RV_CACHE := RadarIem.RV_CACHE w;
                          RadarIem.env := e' |})
    | inr d => (inr d, {| RadarIem.RV_CACHE :=
                            {| RadarIem.at_ := now (RadarIem.env w);
                               RadarIem.data := Some d |};
                          RadarIem.env := e' |})
    end.
Proof.
  intros Hm. cbn zeta. unfold RadarIem.fetchRainViewerMapsJson. rewrite Hm.
  pose proof (fetch_json_env RadarIem.WEATHER_MAPS_JSON (RadarIem.env w)) as He.
  destruct (fetch_json _ _) as [[e|d] e']; cbn [fst snd] in *; by subst e'.
Qed.

End ManifestFacts.

(** ** The frame list *)
Section FrameListFacts.
Import Env.
Context `{DateLib}.

(** C4 (as amended).  On an OK response with a host, [fetchFrames] of the
    RainViewer provider keeps the entries of past followed by nowcast (nowcast
    only with includeNowcast) that have a numeric time and a string path of
    more than three characters, sorts them ascending by time and returns the
    most recent maxFrames of them, oldest first, as frames and paths;
    maxFrames defaults to 12 and includeNowcast to true.
    [fetchRainViewerFrames], the fetch behind the screen, returns the entries
    with a numeric time and a string path in the order of the response,
    neither sorted nor cut. *)
Theorem fetchFrames_sorted_most_recent
    (cfg : RainViewer.Config) (w : RainViewer.World)
    (status : Z) (d : RainViewerMaps) (rest : list FetchOutcome) (h : string) :
  upstream (RainViewer.env w) = Response true status (Some d) :: rest →
  host d = Some h →
  h ≠ "" →
  0 ≤ RainViewer.maxFrames cfg →
  let valid :=
    omap RainViewer.valid_entry
      (past_of d ++ (if RainViewer.includeNowcast cfg then nowcast_of d else [])) in
  Forall (λ e, is_Some (toISOString e.1)) valid →
  (∃ r w' kept older,
      RainViewer.fetchFrames cfg w = (inr r, w')
      ∧ RainViewer.fhost r = h
      ∧ RainViewer.t <$> RainViewer.frames r = kept.*1
      ∧ RainViewer.paths r = kept.*2
      ∧ older ++ kept ≡ₚ valid
      ∧ StronglySorted not_later kept
      ∧ (∀ a b, a ∈ older → b ∈ kept → not_later a b)
      ∧ length kept
        = Nat.min (Z.to_nat (RainViewer.maxFrames cfg)) (length valid))
  ∧ RainViewer.maxFrames (RainViewer.config_of RainViewer.no_opts) = 12
  ∧ RainViewer.includeNowcast (RainViewer.config_of RainViewer.no_opts) = true
  ∧ (∀ w2 : RadarIem.World,
       RadarIem.cache_hit w2 = None →
       upstream (RadarIem.env w2) = Response true status (Some d) :: rest →
       Forall (λ e, is_Some (toISOString e.1))
              (omap RadarIem.typed_entry (past_of d ++ nowcast_of d)) →
       ∃ scans w2',
         RadarIem.fetchRainViewerFrames w2 = (inr scans, w2')
         ∧ RadarIem.stamp <$> scans
           = (omap RadarIem.typed_entry (past_of d ++ nowcast_of d)).*2).
Proof.
  intros Hup Hhost Hne HN valid Hdates.
  set (combined := RainViewer.combined_of cfg d).
  set (kept := RainViewer.keep_last (RainViewer.maxFrames cfg) combined).
  assert (Hperm : combined ≡ₚ valid) by apply sort_by_time_perm.
  assert (Hsorted : StronglySorted not_later combined) by apply sort_by_time_sorted.
  destruct (keep_last_suffix (RainViewer.maxFrames cfg) combined) as [older Hsplit].
  fold kept in Hsplit.
  assert (Hkd : Forall (λ e, is_Some (toISOString e.1)) kept).
  { rewrite <- Hperm, Hsplit in Hdates. by apply Forall_app in Hdates as [_ ?]. }
  destruct (toFrames_inr kept Hkd) as (fs & Hfs & Hts).
  split; [|split; [done|split; [done|]]].
  - exists {| RainViewer.frames := fs; RainViewer.fhost := h;
              RainViewer.paths := kept.*2 |},
           (RainViewer.fetchFrames cfg w).2, kept, older.
    split.
    { rewrite (surjective_pairing (RainViewer.fetchFrames cfg w)). f_equal.
      apply fetchFrames_inr. exists status, rest, d. done. }
    split; [done|]. split; [done|]. split; [done|].
    split; [by rewrite <- Hsplit|].
    split; [by apply sorted_drop|].
    split.
    + intros a b Ha Hb. eapply (sorted_app_order older kept); [|done|done].
      by rewrite <- Hsplit.
    + unfold kept. rewrite keep_last_length by done. by rewrite Hperm.
  - intros w2 Hmiss Hup2 Hd2.
    destruct (toScans_inr _ Hd2) as (scans & Hscans & Hst).
    exists scans. unfold RadarIem.fetchRainViewerFrames.
    rewrite (rv_fetch_miss w2 Hmiss).
    assert (Hj : (fetch_json RadarIem.WEATHER_MAPS_JSON (RadarIem.env w2)).1 = inr d)
      by (apply fetch_json_inr; by eexists _, _).
    rewrite Hj. eexists. by rewrite Hscans.
Qed.

End FrameListFacts.

Section FrameListExamples.
Import Env.

Lemma fetchFrames_sorted_most_recent_witness :
  let d := {| host := Some "https://h";
              radar := Some {| past := Some [ {| time := Num 3; path := Str "/v2/c3" |};
                                              {| time := Num 1; path := Str "/v2/a1" |};
                                              {| time := Num 5; path := Str "/s5" |};
                                              {| time := Null; path := Str "/v2/n" |} ];
                               nowcast := Some [ {| time := Num 2; path := Str "/v2/b2" |} ] |} |} in
  let w := RainViewer.initial_world
             {| now := 0; upstream := [Response true 200 (Some d)]; fetchLog := [] |} in
  let cfg := {| RainViewer.ttlMs := 60000; RainViewer.includeNowcast := true;
                RainViewer.maxFrames := 2; RainViewer.maxZoom := 10 |} in
  let valid := [(3%Q, "/v2/c3"); (1%Q, "/v2/a1"); (2%Q, "/v2/b2")] in
  upstream (RainViewer.env w) = [Response true 200 (Some d)]
  ∧ host d = Some "https://h"
  ∧ "https://h" ≠ ""
  ∧ 0 ≤ RainViewer.maxFrames cfg
  ∧ Forall (λ e, is_Some (@toISOString coarse_dates e.1)) valid
  ∧ ∃ r w' kept older,
      @RainViewer.fetchFrames coarse_dates cfg w = (inr r, w')
      ∧ RainViewer.fhost r = "https://h"
      ∧ RainViewer.t <$> RainViewer.frames r = kept.*1
      ∧ RainViewer.paths r = kept.*2
      ∧ older ++ kept ≡ₚ valid
      ∧ StronglySorted not_later kept
      ∧ (∀ a b, a ∈ older → b ∈ kept → not_later a b)
      ∧ length kept = Nat.min (Z.to_nat 2) (length valid).
Proof.
  intros d w cfg valid.
  assert (Hne : "https://h" ≠ "") by discriminate.
  assert (HN : 0 ≤ RainViewer.maxFrames cfg) by (simpl; lia).
  assert (Hd : Forall (λ e : Q * string, is_Some (@toISOString coarse_dates e.1)) valid)
    by (repeat constructor; by eexists).
  split; [reflexivity|]. split; [reflexivity|]. split; [exact Hne|].
  split; [exact HN|]. split; [exact Hd|].
  exact (proj1 (@fetchFrames_sorted_most_recent coarse_dates cfg w 200 d []
                  "https://h" eq_refl eq_refl Hne HN Hd)).
Defined.

(** C4, as stated, fails.  The provider drops an entry whose path has three
    characters or fewer, so its frame list is not the sorted concatenation;
    the fetch behind the screen returns the entries in response order, also
    when that order is not ascending. *)
Lemma frame_list_differs_from_claim :
  let short := {| host := Some "https://h";
                  radar := Some {| past := Some [ {| time := Num 1; path := Str "/a1" |} ];
                                   nowcast := None |} |} in
  let unsorted := {| host := Some "https://h";
                     radar := Some {| past := Some [ {| time := Num 2; path := Str "/v2/b" |};
                                                     {| time := Num 1; path := Str "/v2/a" |} ];
                                      nowcast := None |} |} in
  let w1 := RainViewer.initial_world
              {| now := 0; upstream := [Response true 200 (Some short)]; fetchLog := [] |} in
  let w2 := RadarIem.initial_world
              {| now := 0; upstream := [Response true 200 (Some unsorted)]; fetchLog := [] |} in
  (@RainViewer.fetchFrames coarse_dates (RainViewer.config_of RainViewer.no_opts) w1).1
    = inr {| RainViewer.frames := []; RainViewer.fhost := "https://h";
             RainViewer.paths := [] |}
  ∧ Claimed.frame_list 12 short = [(1%Q, "/a1")]
  ∧ (@RadarIem.fetchRainViewerFrames coarse_dates w2).1
    = inr [ {| RadarIem.iso := "<ISO 8601>"; RadarIem.stamp := "/v2/b" |};
            {| RadarIem.iso := "<ISO 8601>"; RadarIem.stamp := "/v2/a" |} ]
  ∧ Claimed.frame_list 12 unsorted = [(1%Q, "/v2/a"); (2%Q, "/v2/b")].
Proof. cbn zeta. repeat split; vm_compute; reflexivity. Qed.

End FrameListExamples.

(** ** Failures and the time to live of the caches *)
Section CacheTheorems.
Import Env.
Context `{DateLib}.

Lemma fetchFrames_missing_host (cfg : RainViewer.Config) (w : RainViewer.World)
    (status : Z) (d : RainViewerMaps) (rest : list FetchOutcome) :
  upstream (RainViewer.env w) = Response true status (Some d) :: rest →
  Js.truthy_str (host d) = false →
  (RainViewer.fetchFrames cfg w).1 = inl MissingHost.
Proof.
  intros Hup Hh.
  unfold RainViewer.fetchFrames, RainViewer.bind, RainViewer.fetchMapsJson,
    fetch_json, fetch.
  rewrite Hup. cbn [fst snd]. destruct (host d) as [h|]; [|done].
  by rewrite Hh.
Qed.

Lemma fetchFrames_invalid_time (cfg : RainViewer.Config) (w : RainViewer.World)
    (status : Z) (d : RainViewerMaps) (rest : list FetchOutcome) (h : string) :
  upstream (RainViewer.env w) = Response true status (Some d) :: rest →
  host d = Some h → h ≠ "" →
  Exists (λ e, toISOString e.1 = None)
    (RainViewer.keep_last (RainViewer.maxFrames cfg) (RainViewer.combined_of cfg d)) →
  (RainViewer.fetchFrames cfg w).1 = inl InvalidTimeValue.
Proof.
  intros Hup Hh Hne Hd. apply truthy_nonempty in Hne.
  unfold RainViewer.fetchFrames, RainViewer.bind, RainViewer.fetchMapsJson,
    fetch_json, fetch.
  rewrite Hup. cbn [fst snd]. rewrite Hh, Hne. cbn [negb].
  by rewrite (toFrames_inl _ Hd).
Qed.

(** C3 (as amended).  When a call of [getFrames] that misses the cache ends
    in an error, nothing was stored: the module variables and the closures
    are as before the call, and the error is what the caller gets.  This is
    what happens when no OK JSON response arrives, when the manifest has no
    host, and when the manifest has a host but one of the kept entries has a
    time that is no date ([toFrame] throws before the cache is assigned).
    Every OK manifest with a host whose kept times are dates is stored and
    returned, whatever its entries: entries that fail the filter are dropped
    without an error, and the frame list may be empty.
    [fetchRainViewerMapsJson] leaves [RV_CACHE] as it was on an error, and
    stores every OK JSON response as parsed. *)
Theorem failed_fetch_leaves_cache
    (p : nat) (c : RainViewer.Closure) (w : RainViewer.World) :
  RainViewer.providers w !! p = Some c →
  RainViewer.cache_hit c w = None →
  let w' := RainViewer.with_env (fetched RainViewer.MAPS_JSON (RainViewer.env w)) w in
  (∀ e w1, RainViewer.getFrames p w = (inl e, w1) →
     RainViewer.cachedFrames w1 = RainViewer.cachedFrames w
     ∧ RainViewer.cacheExpiresAt w1 = RainViewer.cacheExpiresAt w
     ∧ RainViewer.providers w1 = RainViewer.providers w)
  ∧ ((∀ status rest d,
        upstream (RainViewer.env w) ≠ Response true status (Some d) :: rest) →
     ∃ e, RainViewer.getFrames p w = (inl e, w'))
  ∧ (∀ status rest d,
       upstream (RainViewer.env w) = Response true status (Some d) :: rest →
       Js.truthy_str (host d) = false →
       RainViewer.getFrames p w = (inl MissingHost, w'))
  ∧ (∀ status rest d h,
       upstream (RainViewer.env w) = Response true status (Some d) :: rest →
       host d = Some h → h ≠ "" →
       Forall (λ e, is_Some (toISOString e.1))
         (RainViewer.keep_last (RainViewer.maxFrames (RainViewer.config c))
            (RainViewer.combined_of (RainViewer.config c) d)) →
       ∃ fs w1, RainViewer.getFrames p w = (inr fs, w1)
                ∧ RainViewer.cachedFrames w1 = Some fs)
  ∧ (∀ status rest d h,
       upstream (RainViewer.env w) = Response true status (Some d) :: rest →
       host d = Some h → h ≠ "" →
       Exists (λ e, toISOString e.1 = None)
         (RainViewer.keep_last (RainViewer.maxFrames (RainViewer.config c))
            (RainViewer.combined_of (RainViewer.config c) d)) →
       RainViewer.getFrames p w = (inl InvalidTimeValue, w'))
  ∧ (∀ w2 : RadarIem.World,
       RadarIem.cache_hit w2 = None →
       (∀ e w3, RadarIem.fetchRainViewerMapsJson w2 = (inl e, w3) →
                RadarIem.RV_CACHE w3 = RadarIem.RV_CACHE w2)
       ∧ (∀ status rest d,
            upstream (RadarIem.env w2) = Response true status (Some d) :: rest →
            ∃ w3, RadarIem.fetchRainViewerMapsJson w2 = (inr d, w3)
                  ∧ RadarIem.data (RadarIem.RV_CACHE w3) = Some d)).
Proof.
  intros Hp Hmiss w'. pose proof (getFrames_miss p c w Hp Hmiss) as Hg.
  cbn zeta in Hg. fold w' in Hg.
  split; [|split; [|split; [|split; [|split]]]].
  - intros e w1 He. rewrite Hg in He.
    destruct (RainViewer.fetchFrames (RainViewer.config c) w).1; [|done].
    injection He as _ <-. done.
  - intros Hno. rewrite Hg.
    destruct (RainViewer.fetchFrames (RainViewer.config c) w).1 as [e|r] eqn:Hf;
      [by exists e|].
    apply fetchFrames_inr in Hf as (st & rest & d & Hup & _). by apply Hno in Hup.
  - intros st rest d Hup Hh. rewrite Hg.
    by rewrite (fetchFrames_missing_host _ _ _ _ _ Hup Hh).
  - intros st rest d h Hup Hh Hne Hd.
    destruct (toFrames_inr _ Hd) as (fs & Hfs & Hts).
    assert (Hf : (RainViewer.fetchFrames (RainViewer.config c) w).1
                 = inr {| RainViewer.frames := fs; RainViewer.fhost := h;
                          RainViewer.paths :=
                            (RainViewer.keep_last
                               (RainViewer.maxFrames (RainViewer.config c))
                               (RainViewer.combined_of (RainViewer.config c) d)).*2 |}).
    { apply fetchFrames_inr. by exists st, rest, d. }
    rewrite Hg, Hf. eexists _, _. by split; [reflexivity|].
  - intros st rest d h Hup Hh Hne Hd. rewrite Hg.
    by rewrite (fetchFrames_invalid_time _ _ _ _ _ _ Hup Hh Hne Hd).
  - intros w2 Hm2. pose proof (rv_fetch_miss w2 Hm2) as Hr. cbn zeta in Hr. split.
    + intros e w3 He. rewrite Hr in He.
      destruct (fetch_json _ _).1; [|done]. by injection He as _ <-.
    + intros st rest d Hup.
      assert (Hj : (fetch_json RadarIem.WEATHER_MAPS_JSON (RadarIem.env w2)).1 = inr d)
        by (apply fetch_json_inr; by eexists _, _).
      rewrite Hr, Hj. by eexists.
Qed.

End CacheTheorems.

Section CacheExamples.
Import Env Examples.

Lemma failed_fetch_leaves_cache_witness :
  let w := RainViewer.later 70000 [Response true 200 (Some hostless_manifest)]
             warm_world in
  let frame := {| RainViewer.t := 1; RainViewer.iso := "<ISO 8601>" |} in
  RainViewer.providers w !! 0%nat = Some warm_closure
  ∧ RainViewer.cache_hit warm_closure w = None
  ∧ RainViewer.cachedFrames w = Some [frame]
  ∧ ∃ w', @RainViewer.getFrames coarse_dates 0 w = (inl MissingHost, w')
          ∧ RainViewer.cachedFrames w' = Some [frame]
          ∧ RainViewer.cacheExpiresAt w' = 60000
          ∧ RainViewer.providers w' !! 0%nat = Some warm_closure.
Proof.
  intros w frame.
  assert (Hp : RainViewer.providers w !! 0%nat = Some warm_closure)
    by (vm_compute; reflexivity).
  assert (Hm : RainViewer.cache_hit warm_closure w = None) by (vm_compute; reflexivity).
  split; [exact Hp|]. split; [exact Hm|]. split; [vm_compute; reflexivity|].
  destruct (@failed_fetch_leaves_cache coarse_dates 0%nat warm_closure w Hp Hm)
    as (_ & _ & Hhost & _).
  eexists. split; [exact (Hhost 200 [] hostless_manifest eq_refl eq_refl)|].
  split; [vm_compute; reflexivity|]. split; [vm_compute; reflexivity|].
  vm_compute; reflexivity.
Defined.

(** C3, as stated, fails.  A manifest whose only entry has a non-numeric time
    yields an empty frame list; [getFrames] returns it without an error and
    stores it over the previous manifest.  [fetchRainViewerMapsJson] stores a
    manifest that has no host. *)
Lemma malformed_manifest_is_cached :
  let w := RainViewer.later 70000 [Response true 200 (Some unusable_manifest)]
             warm_world in
  let w2 := RadarIem.initial_world
              {| now := 0; upstream := [Response true 200 (Some hostless_manifest)];
                 fetchLog := [] |} in
  RainViewer.cachedFrames w
    = Some [ {| RainViewer.t := 1; RainViewer.iso := "<ISO 8601>" |} ]
  ∧ (@RainViewer.getFrames coarse_dates 0 w).1 = inr []
  ∧ RainViewer.cachedFrames (@RainViewer.getFrames coarse_dates 0 w).2 = Some []
  ∧ RainViewer.cacheExpiresAt (@RainViewer.getFrames coarse_dates 0 w).2 = 130000
  ∧ (RadarIem.fetchRainViewerMapsJson w2).1 = inr hostless_manifest
  ∧ RadarIem.data (RadarIem.RV_CACHE (RadarIem.fetchRainViewerMapsJson w2).2)
    = Some hostless_manifest.
Proof. cbn zeta. repeat split; vm_compute; reflexivity. Qed.

(** A manifest with a host and an entry whose time is no date is not
    stored either: [getFrames] ends with the exception of [toISOString] and
    the cache of the previous manifest is as it was. *)
Example far_manifest_is_not_cached :
  let w := RainViewer.later 70000 [Response true 200 (Some far_manifest)]
             warm_world in
  (@RainViewer.getFrames coarse_dates 0 w).1 = inl InvalidTimeValue
  ∧ RainViewer.cachedFrames (@RainViewer.getFrames coarse_dates 0 w).2
    = RainViewer.cachedFrames w
  ∧ RainViewer.cacheExpiresAt (@RainViewer.getFrames coarse_dates 0 w).2 = 60000
  ∧ RainViewer.providers (@RainViewer.getFrames coarse_dates 0 w).2 !! 0%nat
    = Some warm_closure.
Proof. cbn zeta. repeat split; vm_compute; reflexivity. Qed.

End CacheExamples.

Section TtlTheorem.
Import Env.
Context `{DateLib}.

(** C7.  After a call of [getFrames] that fetched and stored a manifest, a
    second call on the same provider made while the manifest is younger than
    the time to live (60 seconds by default) fetches nothing and returns the
    stored frames; a call made once the time to live has elapsed performs
    exactly one fetch, and when that fetch succeeds the frames, the host, the
    paths and the expiry are all taken from the new result.  The same holds
    for [RV_CACHE] behind [fetchRainViewerMapsJson]. *)
Theorem manifest_cache_ttl
    (p : nat) (c : RainViewer.Closure) (w0 w1 : RainViewer.World)
    (fs : list RainViewer.RadarFrame) :
  RainViewer.providers w0 !! p = Some c →
  RainViewer.cache_hit c w0 = None →
  RainViewer.getFrames p w0 = (inr fs, w1) →
  let t0 := now (RainViewer.env w0) in
  let ttl := RainViewer.ttlMs (RainViewer.config c) in
  fetchLog (RainViewer.env w1) = RainViewer.MAPS_JSON :: fetchLog (RainViewer.env w0)
  ∧ (∀ t1 net, t1 - t0 < ttl →
       RainViewer.getFrames p (RainViewer.later t1 net w1)
       = (inr fs, RainViewer.later t1 net w1))
  ∧ (∀ t1 net, ttl ≤ t1 - t0 →
       ∃ res w2,
         RainViewer.getFrames p (RainViewer.later t1 net w1) = (res, w2)
         ∧ fetchLog (RainViewer.env w2)
           = RainViewer.MAPS_JSON :: fetchLog (RainViewer.env w1)
         ∧ (∀ fs2, res = inr fs2 →
              ∃ r, (RainViewer.fetchFrames (RainViewer.config c)
                      (RainViewer.later t1 net w1)).1 = inr r
                   ∧ fs2 = RainViewer.frames r
                   ∧ RainViewer.cachedFrames w2 = Some (RainViewer.frames r)
                   ∧ RainViewer.cacheExpiresAt w2 = t1 + ttl
                   ∧ RainViewer.providers w2 !! p
                     = Some {| RainViewer.config := RainViewer.config c;
                               RainViewer.cachedHost := Some (RainViewer.fhost r);
                               RainViewer.cachedPaths := Some (RainViewer.paths r) |}))
  ∧ RainViewer.ttlMs (RainViewer.config_of RainViewer.no_opts) = 60000
  ∧ (∀ (v0 v1 : RadarIem.World) (d : RainViewerMaps),
       RadarIem.cache_hit v0 = None →
       RadarIem.fetchRainViewerMapsJson v0 = (inr d, v1) →
       fetchLog (RadarIem.env v1)
         = RadarIem.WEATHER_MAPS_JSON :: fetchLog (RadarIem.env v0)
       ∧ (∀ t1 net, t1 - now (RadarIem.env v0) < 60000 →
            RadarIem.fetchRainViewerMapsJson (RadarIem.later t1 net v1)
            = (inr d, RadarIem.later t1 net v1))
       ∧ (∀ t1 net, 60000 ≤ t1 - now (RadarIem.env v0) →
            ∃ res v2,
              RadarIem.fetchRainViewerMapsJson (RadarIem.later t1 net v1) = (res, v2)
              ∧ fetchLog (RadarIem.env v2)
                = RadarIem.WEATHER_MAPS_JSON :: fetchLog (RadarIem.env v1)
              ∧ (∀ d2, res = inr d2 →
                   RadarIem.RV_CACHE v2
                   = {| RadarIem.at_ := t1; RadarIem.data := Some d2 |}))).
Proof.
  intros Hp Hmiss Hget t0 ttl. subst t0 ttl.
  set (t0 := now (RainViewer.env w0)).
  rewrite (getFrames_miss p c w0 Hp Hmiss) in Hget. cbn zeta in Hget.
  fold t0 in Hget.
  destruct (RainViewer.fetchFrames (RainViewer.config c) w0).1 as [e|r] eqn:Hf;
    [done|].
  injection Hget as <- <-.
  apply fetchFrames_inr in Hf as (st & rest & d & Hup & Hh & Hne & Hfs & Hps).
  set (c1 := {| RainViewer.config := RainViewer.config c;
                RainViewer.cachedHost := Some (RainViewer.fhost r);
                RainViewer.cachedPaths := Some (RainViewer.paths r) |}).
  set (w' := RainViewer.with_env (fetched RainViewer.MAPS_JSON (RainViewer.env w0)) w0).
  assert (Hp1 : ∀ t1 net,
             RainViewer.providers
               (RainViewer.later t1 net (RainViewer.store p c t0 r w')) !! p
             = Some c1).
  { intros t1 net. cbn [RainViewer.later RainViewer.with_env RainViewer.store
                         RainViewer.providers]. apply lookup_insert_eq. }
  split; [reflexivity|]. split; [|split; [|split; [reflexivity|]]].
  - intros t1 net Hyoung. apply getFrames_hit with c1; [apply Hp1|].
    unfold c1. rewrite cache_hit_after_store by done.
    destruct (Z.ltb_spec t1 (t0 + RainViewer.ttlMs (RainViewer.config c)));
      [done|]. lia.
  - intros t1 net Hold.
    set (wl := RainViewer.later t1 net (RainViewer.store p c t0 r w')).
    assert (Hm1 : RainViewer.cache_hit c1 wl = None).
    { unfold c1, wl. rewrite cache_hit_after_store by done.
      destruct (Z.ltb_spec t1 (t0 + RainViewer.ttlMs (RainViewer.config c)));
        [|done]. lia. }
    pose proof (getFrames_miss p c1 wl (Hp1 t1 net) Hm1) as Hg. cbn zeta in Hg.
    destruct (RainViewer.fetchFrames (RainViewer.config c1) wl).1 as [e|r2] eqn:Hf2.
    + eexists _, _. split; [exact Hg|]. split; [reflexivity|]. by intros fs2 [=].
    + eexists _, _. split; [exact Hg|]. split; [reflexivity|].
      intros fs2 Heq. injection Heq as <-. exists r2. split; [exact Hf2|].
      split; [reflexivity|]. split; [reflexivity|]. split; [reflexivity|].
      cbn [RainViewer.store RainViewer.providers]. apply lookup_insert_eq.
  - intros v0 v1 d0 Hm0 Hr0. rewrite (rv_fetch_miss v0 Hm0) in Hr0. cbn zeta in Hr0.
    destruct (fetch_json RadarIem.WEATHER_MAPS_JSON (RadarIem.env v0)).1
      as [e|d1] eqn:Hj; [done|].
    injection Hr0 as -> <-. split; [reflexivity|]. split.
    + intros t1 net Hyoung. apply rv_fetch_hit. unfold RadarIem.cache_hit.
      cbn [RadarIem.later RadarIem.RV_CACHE RadarIem.data RadarIem.at_
           RadarIem.env now].
      destruct (Z.ltb_spec (t1 - now (RadarIem.env v0)) RadarIem.RV_TTL_MS);
        [done|]. unfold RadarIem.RV_TTL_MS in *. lia.
    + intros t1 net Hold.
      set (vl := RadarIem.later t1 net _).
      assert (Hm1 : RadarIem.cache_hit vl = None).
      { unfold RadarIem.cache_hit, vl.
        cbn [RadarIem.later RadarIem.RV_CACHE RadarIem.data RadarIem.at_
             RadarIem.env now].
        destruct (Z.ltb_spec (t1 - now (RadarIem.env v0)) RadarIem.RV_TTL_MS);
          [|done]. unfold RadarIem.RV_TTL_MS in *. lia. }
      pose proof (rv_fetch_miss vl Hm1) as Hg. cbn zeta in Hg.
      destruct (fetch_json RadarIem.WEATHER_MAPS_JSON (RadarIem.env vl)).1
        as [e|d2] eqn:Hj2.
      * eexists _, _. split; [exact Hg|]. split; [reflexivity|]. by intros ? [=].
      * eexists _, _. split; [exact Hg|]. split; [reflexivity|].
        intros ? Heq. by injection Heq as <-.
Qed.

End TtlTheorem.

Section TtlExamples.
Import Env Examples.

Lemma manifest_cache_ttl_witness :
  let w0 := (RainViewer.createRainViewerProvider RainViewer.no_opts
               (RainViewer.initial_world
                  {| now := 0; upstream := [Response true 200 (Some good_manifest)];
                     fetchLog := [] |})).2 in
  let c := {| RainViewer.config := RainViewer.config_of RainViewer.no_opts;
              RainViewer.cachedHost := None; RainViewer.cachedPaths := None |} in
  let fs := [ {| RainViewer.t := 1; RainViewer.iso := "<ISO 8601>" |} ] in
  let net := [Response true 200 (Some unusable_manifest)] in
  RainViewer.providers w0 !! 0%nat = Some c
  ∧ RainViewer.cache_hit c w0 = None
  ∧ @RainViewer.getFrames coarse_dates 0 w0 = (inr fs, warm_world)
  ∧ fetchLog (RainViewer.env warm_world) = [RainViewer.MAPS_JSON]
  ∧ @RainViewer.getFrames coarse_dates 0 (RainViewer.later 59999 net warm_world)
    = (inr fs, RainViewer.later 59999 net warm_world)
  ∧ ∃ res w2,
      @RainViewer.getFrames coarse_dates 0 (RainViewer.later 60000 net warm_world)
      = (res, w2)
      ∧ fetchLog (RainViewer.env w2) = [RainViewer.MAPS_JSON; RainViewer.MAPS_JSON].
Proof.
  intros w0 c fs net.
  assert (Hp : RainViewer.providers w0 !! 0%nat = Some c) by (vm_compute; reflexivity).
  assert (Hm : RainViewer.cache_hit c w0 = None) by (vm_compute; reflexivity).
  assert (Hg : @RainViewer.getFrames coarse_dates 0 w0 = (inr fs, warm_world))
    by (vm_compute; reflexivity).
  split; [exact Hp|]. split; [exact Hm|]. split; [exact Hg|].
  destruct (@manifest_cache_ttl coarse_dates 0%nat c w0 warm_world fs Hp Hm Hg)
    as (Hlog & Hyoung & Hold & _).
  split; [exact Hlog|].
  split; [apply Hyoung; vm_compute; reflexivity|].
  destruct (Hold 60000 net) as (res & w2 & Hres & Hlog2 & _);
    [vm_compute; discriminate|].
  exists res, w2. split; [exact Hres|]. rewrite Hlog2, Hlog. reflexivity.
Defined.

End TtlExamples.

(** ** The nearest radar site *)
Section GeoFacts.
Import Js Geo.
Context `{FloatOps}.

Lemma lt_Fin (a b : Q) : lt (Fin a) (Fin b) = true ↔ (a < b)%Q.
Proof.
  simpl. rewrite negb_true_iff. split.
  - apply Qle_bool_false.
  - intros Hlt. destruct (Qle_bool b a) eqn:Hle; [|done].
    apply Qle_bool_iff in Hle. exfalso. by apply (Qlt_not_le a b).
Qed.

Lemma not_lt_Fin (a b : Q) : lt (Fin a) (Fin b) = false ↔ (b <= a)%Q.
Proof. simpl. rewrite negb_false_iff. apply Qle_bool_iff. Qed.

Lemma lt_irrefl (a : number) : lt a a = false.
Proof. destruct a as [| |q|]; try done. apply not_lt_Fin. apply Qle_refl. Qed.

Lemma lt_below (a d bd : number) :
  lt d bd = true → lt a bd = false → lt a d = false.
Proof.
  destruct a as [| |a|], d as [| |d|], bd as [| |bd|]; try done.
  intros Hd%lt_Fin Ha%not_lt_Fin. apply not_lt_Fin.
  apply Qlt_le_weak. eapply Qlt_le_trans; eauto.
Qed.

Lemma lt_below_inf (d bd : number) : lt d bd = true → lt d PosInf = true.
Proof. by destruct d, bd. Qed.

Lemma lt_above (a d bd : number) :
  lt d bd = true → lt a bd = false → lt d a = true ∨ a = NaN.
Proof.
  destruct a as [| |a|], d as [| |d|], bd as [| |bd|]; try done;
    try (by left); try (by right).
  intros Hd%lt_Fin Ha%not_lt_Fin. left. apply lt_Fin. eapply Qlt_le_trans; eauto.
Qed.

Lemma scan_invariant (lat0 lon0 : number) (registry : list NexradSite) :
  scanned lat0 lon0 registry
    (fold_left (scan_step lat0 lon0 None) registry (None, PosInf)).
Proof.
  induction registry as [|x pre IH] using rev_ind.
  - split; [|done]. intros s Hs. by apply elem_of_nil in Hs.
  - rewrite fold_left_app. cbn [fold_left].
    destruct (fold_left (scan_step lat0 lon0 None) pre (None, PosInf)) as [bs bd].
    destruct IH as [Hmin Hbest]. cbn [fst snd] in *.
    unfold scan_step. cbn [snd]. destruct (candidate None x) eqn:Hc.
    + destruct (lt (distance_from lat0 lon0 x) bd) eqn:Hlt.
      * split; cbn [fst snd].
        -- intros s [Hs|Hs]%elem_of_app Hcs.
           ++ eapply lt_below; [exact Hlt|]. by apply Hmin.
           ++ apply list_elem_of_singleton in Hs as ->. apply lt_irrefl.
        -- exists pre, []. split; [done|]. split; [done|]. split; [done|].
           split; [by eapply lt_below_inf|].
           intros s Hs Hcs. eapply lt_above; [exact Hlt|]. by apply Hmin.
      * split; cbn [fst snd].
        -- intros s [Hs|Hs]%elem_of_app Hcs; [by apply Hmin|].
           by apply list_elem_of_singleton in Hs as ->.
        -- destruct bs as [b|]; [|done].
           destruct Hbest as (before & after & -> & Hrest).
           exists before, (after ++ [x]). split; [by rewrite <- app_assoc|done].
    + split; cbn [fst snd].
      * intros s [Hs|Hs]%elem_of_app Hcs; [by apply Hmin|].
        apply list_elem_of_singleton in Hs as ->. congruence.
      * destruct bs as [b|]; [|done].
        destruct Hbest as (before & after & -> & Hrest).
        exists before, (after ++ [x]). split; [by rewrite <- app_assoc|done].
Qed.

(** C6 (as amended).  For an in-range point, [resolveNearestRadar] without
    filter and without maxDistanceKm returns a site exactly when some
    candidate (a site with finite coordinates) has a finite computed distance
    and none has the distance minus Infinity.  It then returns a site of the
    registry at its haversine distance: no candidate with a finite distance
    is nearer, and every candidate with a finite distance that comes before
    it in the registry is strictly farther, so on a tie at the least distance
    the first site in registry order is returned; candidates whose distance
    is NaN or Infinity are passed over.  When the distance of every candidate
    is NaN or Infinity, or when some candidate is at minus Infinity, the
    result is null, also for a registry that is not empty.  The statement
    holds for every implementation of the floating-point operations. *)
Theorem nearest_radar_is_minimal
    (registry : list NexradSite) (lat0 lon0 : Q) :
  (-90 <= lat0 <= 90)%Q →
  (-180 <= lon0 <= 180)%Q →
  let dist := distance_from (Fin lat0) (Fin lon0) in
  let result := resolveNearestRadar registry (Fin lat0) (Fin lon0) no_options in
  ((∃ s, s ∈ registry ∧ candidate None s = true ∧ isFinite (dist s) = true) →
   (∀ s, s ∈ registry → candidate None s = true → dist s ≠ NegInf) →
   ∃ r before after dr,
     result = Some r
     ∧ registry = before ++ site r :: after
     ∧ candidate None (site r) = true
     ∧ distanceKm r = dist (site r)
     ∧ distanceKm r = Fin dr
     ∧ (∀ s ds, s ∈ registry → candidate None s = true →
                dist s = Fin ds → (dr <= ds)%Q)
     ∧ (∀ s ds, s ∈ before → candidate None s = true →
                dist s = Fin ds → (dr < ds)%Q))
  ∧ ((∀ s, s ∈ registry → candidate None s = true → lt (dist s) PosInf = false) →
     result = None)
  ∧ ((∃ s, s ∈ registry ∧ candidate None s = true ∧ dist s = NegInf) →
     result = None).
Proof.
  intros [Hlat1 Hlat2] [Hlon1 Hlon2] dist result.
  pose proof (scan_invariant (Fin lat0) (Fin lon0) registry) as [Hmin Hbest].
  assert (Hrange : lt (Fin lat0) (Fin (-90)) || gt (Fin lat0) (Fin 90)
                   || lt (Fin lon0) (Fin (-180)) || gt (Fin lon0) (Fin 180) = false).
  { unfold gt. rewrite !orb_false_iff. repeat split; by apply not_lt_Fin. }
  subst result. unfold resolveNearestRadar.
  cbn [isFinite negb orb no_options filter maxDistanceKm]. rewrite Hrange.
  destruct (fold_left (scan_step (Fin lat0) (Fin lon0) None) registry (None, PosInf))
    as [bs bd].
  cbn [fst snd] in *. fold dist in Hmin, Hbest. split; [|split].
  - intros (s0 & Hs0 & Hc0 & Hf0) Hneg. destruct bs as [b|].
    + destruct Hbest as (before & after & Hreg & Hcb & Hbd & Hinf & Hfirst).
      assert (Hb : b ∈ registry).
      { rewrite Hreg. apply elem_of_app. right. apply elem_of_cons. by left. }
      destruct bd as [| |dr|]; try done.
      { exfalso. by apply (Hneg b Hb Hcb). }
      cbn [isFinite negb]. eexists _, before, after, dr.
      split; [reflexivity|]. cbn [site distanceKm].
      do 4 (split; [done|]). split.
      * intros s ds Hs Hcs Hds. apply not_lt_Fin. rewrite <- Hds. by apply Hmin.
      * intros s ds Hs Hcs Hds. apply lt_Fin.
        destruct (Hfirst s Hs Hcs) as [Hlt|Hnan]; [by rewrite Hds in Hlt|].
        rewrite Hds in Hnan. done.
    + subst bd. specialize (Hmin s0 Hs0 Hc0).
      destruct (dist s0); done.
  - intros Hall. destruct bs as [b|]; [|done].
    destruct Hbest as (before & after & Hreg & Hcb & Hbd & Hinf & _).
    assert (Hb : b ∈ registry).
    { rewrite Hreg. apply elem_of_app. right. apply elem_of_cons. by left. }
    specialize (Hall b Hb Hcb). rewrite <- Hbd in Hall. congruence.
  - intros (s0 & Hs0 & Hc0 & Hd0). specialize (Hmin s0 Hs0 Hc0).
    rewrite Hd0 in Hmin. destruct bs as [b|].
    + destruct Hbest as (_ & _ & _ & _ & _ & Hinf & _).
      destruct bd; done.
    + subst bd. done.
Qed.

(** In doubles the distance of a site at the antipode of the point can be
    NaN: for the point (8, 0) and a site at (-8, 180) the two squares of the
    haversine add up to the double above 1, the square root of [1 - a] is NaN
    and so is the distance.  This holds for every sine, cosine and arc tangent
    that take the correctly rounded values at the four arguments reached and
    answer a NaN argument by NaN. *)
Lemma antipode_distance_is_nan
    (msin mcos : PrimFloat.float → PrimFloat.float)
    (matan2 : PrimFloat.float → PrimFloat.float → PrimFloat.float) :
  msin (PrimFloat.opp Ieee.RAD_8) = PrimFloat.opp Ieee.SIN_RAD_8 →
  msin Ieee.HALF_PI = PrimFloat.one →
  mcos Ieee.RAD_8 = Ieee.COS_RAD_8 →
  mcos (PrimFloat.opp Ieee.RAD_8) = Ieee.COS_RAD_8 →
  (∀ y, matan2 y PrimFloat.nan = PrimFloat.nan) →
  @distance_from (Ieee.binary64_ops msin mcos matan2) (Fin 8) (Fin 0) Ieee.ANTIPODE
  = NaN
  ∧ @resolveNearestRadar (Ieee.binary64_ops msin mcos matan2) [Ieee.ANTIPODE]
      (Fin 8) (Fin 0) no_options = None.
Proof.
  intros Hs Hh Hc Hc' Ha.
  set (ops := Ieee.binary64_ops msin mcos matan2).
  assert (Hd : @distance_from ops (Fin 8) (Fin 0) Ieee.ANTIPODE = NaN).
  { unfold distance_from, haversineKm. cbn [lat lon Ieee.ANTIPODE].
    assert (E1 : @Math_sin ops (fdiv (deg2rad (fsub (Fin (-8)) (Fin 8))) (Fin 2))
                 = Ieee.of_float (PrimFloat.opp Ieee.SIN_RAD_8)).
    { change (@Math_sin ops ?x) with (Ieee.of_float (msin (Ieee.to_float x))).
      replace (Ieee.to_float (fdiv (deg2rad (fsub (Fin (-8)) (Fin 8))) (Fin 2)))
        with (PrimFloat.opp Ieee.RAD_8) by (vm_compute; reflexivity).
      by rewrite Hs. }
    assert (E2 : @Math_sin ops (fdiv (deg2rad (fsub (Fin 180) (Fin 0))) (Fin 2))
                 = Ieee.of_float PrimFloat.one).
    { change (@Math_sin ops ?x) with (Ieee.of_float (msin (Ieee.to_float x))).
      replace (Ieee.to_float (fdiv (deg2rad (fsub (Fin 180) (Fin 0))) (Fin 2)))
        with Ieee.HALF_PI by (vm_compute; reflexivity).
      by rewrite Hh. }
    assert (E3 : @Math_cos ops (deg2rad (Fin 8)) = Ieee.of_float Ieee.COS_RAD_8).
    { change (@Math_cos ops ?x) with (Ieee.of_float (mcos (Ieee.to_float x))).
      replace (Ieee.to_float (deg2rad (Fin 8))) with Ieee.RAD_8
        by (vm_compute; reflexivity).
      by rewrite Hc. }
    assert (E4 : @Math_cos ops (deg2rad (Fin (-8))) = Ieee.of_float Ieee.COS_RAD_8).
    { change (@Math_cos ops ?x) with (Ieee.of_float (mcos (Ieee.to_float x))).
      replace (Ieee.to_float (deg2rad (Fin (-8)))) with (PrimFloat.opp Ieee.RAD_8)
        by (vm_compute; reflexivity).
      by rewrite Hc'. }
    rewrite E1, E2, E3, E4.
    match goal with
    | |- context [Math_sqrt (fsub (Fin 1) ?a)] =>
        assert (Ea : a = Fin (4503599627370497 # 4503599627370496))
          by (vm_compute; reflexivity);
        rewrite Ea
    end.
    replace (@Math_sqrt ops (fsub (Fin 1) (Fin (4503599627370497 # 4503599627370496))))
      with NaN by (vm_compute; reflexivity).
    change (@Math_atan2 ops ?y NaN)
      with (Ieee.of_float (matan2 (Ieee.to_float y) PrimFloat.nan)).
    rewrite Ha. vm_compute. reflexivity. }
  split; [exact Hd|].
  unfold resolveNearestRadar. cbn [fold_left no_options filter]. unfold scan_step.
  fold ops. rewrite Hd. vm_compute. reflexivity.
Qed.

End GeoFacts.

Section GeoExamples.
Import Js Geo.

Lemma nearest_radar_is_minimal_witness :
  let registry := [KTLX; KFWS] in
  (-90 <= 33 <= 90)%Q
  ∧ (-180 <= -97 <= 180)%Q
  ∧ ∃ r before after dr,
      @resolveNearestRadar small_angle_ops registry (Fin 33) (Fin (-97)) no_options
        = Some r
      ∧ registry = before ++ site r :: after
      ∧ candidate None (site r) = true
      ∧ distanceKm r = @distance_from small_angle_ops (Fin 33) (Fin (-97)) (site r)
      ∧ distanceKm r = Fin dr
      ∧ (∀ s ds, s ∈ registry → candidate None s = true →
                 @distance_from small_angle_ops (Fin 33) (Fin (-97)) s = Fin ds →
                 (dr <= ds)%Q)
      ∧ (∀ s ds, s ∈ before → candidate None s = true →
                 @distance_from small_angle_ops (Fin 33) (Fin (-97)) s = Fin ds →
                 (dr < ds)%Q).
Proof.
  intros registry.
  assert (H1 : (-90 <= 33 <= 90)%Q) by (split; by vm_compute).
  assert (H2 : (-180 <= -97 <= 180)%Q) by (split; by vm_compute).
  split; [exact H1|]. split; [exact H2|].
  destruct (@nearest_radar_is_minimal small_angle_ops registry 33 (-97) H1 H2)
    as (Hsome & _).
  apply Hsome.
  - exists KTLX. split; [apply elem_of_cons; by left|]. split; by vm_compute.
  - intros s Hs _. apply elem_of_cons in Hs as [->|Hs]; [by vm_compute|].
    apply list_elem_of_singleton in Hs as ->. by vm_compute.
Defined.

(** C6, as stated, fails.  The point (8, 0) is in range and the registry
    holds a site with finite coordinates, at (-8, 180), yet no site is
    returned: in double precision, for every sine and cosine that take the
    correctly rounded values at the arguments reached (and every arc tangent
    that answers a NaN argument by NaN), the distance of the site is NaN, it
    is not below Infinity, and the result is null. *)
Lemma antipodal_site_is_not_found :
  (-90 <= 8 <= 90)%Q
  ∧ (-180 <= 0 <= 180)%Q
  ∧ Ieee.ANTIPODE ∈ [Ieee.ANTIPODE]
  ∧ candidate None Ieee.ANTIPODE = true
  ∧ ∀ (msin mcos : PrimFloat.float → PrimFloat.float)
      (matan2 : PrimFloat.float → PrimFloat.float → PrimFloat.float),
      msin (PrimFloat.opp Ieee.RAD_8) = PrimFloat.opp Ieee.SIN_RAD_8 →
      msin Ieee.HALF_PI = PrimFloat.one →
      mcos Ieee.RAD_8 = Ieee.COS_RAD_8 →
      mcos (PrimFloat.opp Ieee.RAD_8) = Ieee.COS_RAD_8 →
      (∀ y, matan2 y PrimFloat.nan = PrimFloat.nan) →
      @distance_from (Ieee.binary64_ops msin mcos matan2) (Fin 8) (Fin 0)
        Ieee.ANTIPODE = NaN
      ∧ @resolveNearestRadar (Ieee.binary64_ops msin mcos matan2) [Ieee.ANTIPODE]
          (Fin 8) (Fin 0) no_options = None.
Proof.
  split; [split; by vm_compute|]. split; [split; by vm_compute|].
  split; [apply elem_of_cons; by left|]. split; [reflexivity|].
  exact antipode_distance_is_nan.
Qed.

(** The tabulated functions are such a sine, cosine and arc tangent; with
    them the haversine term [a] is the double above 1 and no site is
    found. *)
Example tabulated_engine_finds_no_site :
  let ops := Ieee.binary64_ops Ieee.sin_table Ieee.cos_table Ieee.atan2_table in
  Ieee.sin_table (PrimFloat.opp Ieee.RAD_8) = PrimFloat.opp Ieee.SIN_RAD_8
  ∧ Ieee.sin_table Ieee.HALF_PI = PrimFloat.one
  ∧ Ieee.cos_table Ieee.RAD_8 = Ieee.COS_RAD_8
  ∧ Ieee.cos_table (PrimFloat.opp Ieee.RAD_8) = Ieee.COS_RAD_8
  ∧ @fadd ops
      (@fmul ops (Ieee.of_float Ieee.SIN_RAD_8) (Ieee.of_float Ieee.SIN_RAD_8))
      (@fmul ops (Ieee.of_float Ieee.COS_RAD_8) (Ieee.of_float Ieee.COS_RAD_8))
    = Fin (4503599627370497 # 4503599627370496)
  ∧ @resolveNearestRadar ops [Ieee.ANTIPODE] (Fin 8) (Fin 0) no_options = None.
Proof. cbn zeta. repeat split; vm_compute; reflexivity. Qed.

(** The example of the specification: of Oklahoma City and Fort Worth, the
    site nearer to (33.0, -97.0) is Fort Worth. *)
Example resolve_example :
  site <$> @resolveNearestRadar small_angle_ops [KTLX; KFWS] (Fin 33) (Fin (-97))
             no_options
  = Some KFWS.
Proof. by vm_compute. Qed.

(** On a tie the first site wins: a copy of a site placed after it is never
    returned. *)
Example resolve_tie :
  let twin := {| id := "TWIN"; name := "Twin"; lat := lat KFWS; lon := lon KFWS;
                 ownerType := None |} in
  site <$> @resolveNearestRadar small_angle_ops [KTLX; KFWS; twin] (Fin 33) (Fin (-97))
             no_options = Some KFWS
  ∧ site <$> @resolveNearestRadar small_angle_ops [twin; KTLX; KFWS] (Fin 33) (Fin (-97))
               no_options = Some twin.
Proof. split; by vm_compute. Qed.

End GeoExamples.

(** * Further properties of the code *)

(** ** The reducer: clamping, the layers invariant, view switches *)
Section ReducerInvariant.
Import State Invariants.
Implicit Types (m : gmap string LayerRuntimeState) (k i : string).

Lemma clamp01_Fin (x : Q) :
  clamp01 (Js.Fin x)
  = Js.Fin (if Qle_bool (if Qle_bool 1 x then 1 else x) 0 then 0
            else if Qle_bool 1 x then 1 else x).
Proof. unfold clamp01. simpl Js.isNaN. cbn iota. by rewrite min_Fin, max_Fin. Qed.

Lemma clamp01_range (n : Js.number) :
  ∃ q, clamp01 n = Js.Fin q ∧ (0 <= q <= 1)%Q.
Proof.
  destruct n as [| |x|]; [by exists 0%Q|by exists 0%Q| |by exists 1%Q].
  rewrite clamp01_Fin. eexists. split; [reflexivity|].
  destruct (Qle_bool 1 x) eqn:H1; [done|]. apply Qle_bool_false in H1.
  destruct (Qle_bool x 0) eqn:H0; [done|]. apply Qle_bool_false in H0.
  split; by apply Qlt_le_weak.
Qed.

(** X1.  [clamp01] always returns a finite number of [0, 1]: 0 for NaN, the
    nearer bound for a number outside (1 for plus Infinity, 0 for minus
    Infinity), and the number itself (up to the way the rational is written)
    inside; clamping twice is clamping once. *)
Theorem clamp01_unit_interval (n : Js.number) :
  ∃ q, clamp01 n = Js.Fin q
       ∧ (0 <= q <= 1)%Q
       ∧ (n = Js.NaN → q = 0%Q)
       ∧ (n = Js.PosInf → q = 1%Q)
       ∧ (n = Js.NegInf → q = 0%Q)
       ∧ (∀ x, n = Js.Fin x → (0 <= x <= 1)%Q → (q == x)%Q)
       ∧ (∀ x, n = Js.Fin x → (x < 0)%Q → q = 0%Q)
       ∧ (∀ x, n = Js.Fin x → (1 < x)%Q → q = 1%Q)
       ∧ clamp01 (clamp01 n) = clamp01 n.
Proof.
  destruct n as [| |x|].
  - exists 0%Q. repeat split; try done; by vm_compute.
  - exists 0%Q. repeat split; try done; by vm_compute.
  - rewrite clamp01_Fin.
    destruct (Qle_bool 1 x) eqn:H1.
    + apply Qle_bool_iff in H1. exists 1%Q. simpl.
      repeat split; try done; try (by vm_compute).
      * intros y [= <-] [_ Hy]. by apply Qle_antisym.
      * intros y [= <-] Hy. exfalso. apply (Qlt_irrefl 0).
        eapply Qlt_trans; [|exact Hy]. eapply Qlt_le_trans; [|exact H1]. by vm_compute.
    + apply Qle_bool_false in H1.
      destruct (Qle_bool x 0) eqn:H0.
      * apply Qle_bool_iff in H0. exists 0%Q.
        repeat split; try done; try (by vm_compute).
        -- intros y [= <-] [Hy _]. by apply Qle_antisym.
        -- intros y [= <-] Hy. exfalso. apply (Qlt_irrefl 1).
           eapply Qlt_le_trans; [exact Hy|]. eapply Qle_trans; [exact H0|]. by vm_compute.
      * pose proof (Qle_bool_false _ _ H0) as Hpos. exists x.
        repeat split; try done.
        -- by apply Qlt_le_weak.
        -- by apply Qlt_le_weak.
        -- intros y [= <-] _. apply Qeq_refl.
        -- intros y [= <-] Hy. exfalso. apply (Qlt_irrefl 0). by eapply Qlt_trans.
        -- intros y [= <-] Hy. exfalso. apply (Qlt_irrefl 1). by eapply Qlt_trans.
        -- rewrite clamp01_Fin.
           assert (Hx1 : Qle_bool 1 x = false).
           { destruct (Qle_bool 1 x) eqn:E; [|done]. apply Qle_bool_iff in E.
             exfalso. by apply (Qlt_not_le x 1). }
           by rewrite Hx1, H0.
  - exists 1%Q. repeat split; try done; by vm_compute.
Qed.

Lemma good_layer_with_enabled (b : bool) (ls : LayerRuntimeState) :
  good_layer ls → good_layer (with_enabled b ls).
Proof. intros (b0 & q & -> & Hq). by exists b, q. Qed.

Lemma good_layer_clamped (o : Js.number) (ls : LayerRuntimeState) :
  good_layer ls → good_layer (with_opacity (Some (clamp01 o)) ls).
Proof.
  intros (b0 & q & -> & Hq).
  destruct (clamp01_range o) as (q' & Hq' & Hr).
  exists b0, q'. unfold with_opacity. simpl. by rewrite Hq'.
Qed.

Lemma good_layer_copied (old ls : LayerRuntimeState) :
  good_layer old → good_layer ls → good_layer (with_opacity (opacity old) ls).
Proof. intros (b0 & q0 & -> & Hq0) (b & q & -> & Hq). by exists b, q0. Qed.

Lemma catalog_defaults_in_range :
  Forall (λ l, ∃ q, defaultOpacity l = Js.Fin q ∧ (0 <= q <= 1)%Q) LAYER_CATALOG.
Proof. repeat constructor; eexists; (split; [reflexivity|split; by vm_compute]). Qed.

Lemma fold_defaults_good (l : list LayerCatalogItem) m :
  Forall (λ l, ∃ q, defaultOpacity l = Js.Fin q ∧ (0 <= q <= 1)%Q) l →
  (∀ k ls, m !! k = Some ls → good_layer ls) →
  ∀ k ls, fold_left default_step l m !! k = Some ls → good_layer ls.
Proof.
  intros Hl. revert m. induction Hl as [|x l (q & Hq & Hr) _ IH]; intros m Hm; [done|].
  simpl. apply IH. intros k ls. unfold default_step.
  destruct (decide (k = State.id x)) as [->|Hne].
  - rewrite lookup_insert_eq. intros [= <-]. exists false, q. by rewrite Hq.
  - rewrite lookup_insert_ne by done. apply Hm.
Qed.

Lemma fold_enable_good (ids : list string) m :
  (∀ k ls, m !! k = Some ls → good_layer ls) →
  ∀ k ls, fold_left enable_if_present ids m !! k = Some ls → good_layer ls.
Proof.
  intros Hm k ls. rewrite fold_enable_lookup.
  destruct (m !! k) as [x|] eqn:Hk; [|done]. simpl. intros [= <-].
  specialize (Hm k x Hk). destruct (decide (k ∈ ids)); [|done].
  by apply good_layer_with_enabled.
Qed.

Lemma fold_preset_good (l : list (string * Js.number)) m :
  (∀ k ls, m !! k = Some ls → good_layer ls) →
  ∀ k ls, fold_left preset_opacity_if_present l m !! k = Some ls → good_layer ls.
Proof.
  revert m. induction l as [|e l IH]; intros m Hm; [done|].
  simpl. apply IH. intros k ls. unfold preset_opacity_if_present.
  destruct (m !! e.1) as [x|] eqn:He; [|apply Hm].
  destruct (decide (k = e.1)) as [->|Hne].
  - rewrite lookup_insert_eq. intros [= <-]. apply good_layer_clamped. by eapply Hm.
  - rewrite lookup_insert_ne by done. apply Hm.
Qed.

Lemma initial_layers_well_formed (o : InitOpts) :
  well_formed_layers (layers (createInitialMapState o)).
Proof.
  split; [apply initial_layers_dom|].
  unfold createInitialMapState. cbn [layers].
  assert (Hd : ∀ k ls, buildDefaultLayers !! k = Some ls → good_layer ls).
  { apply fold_defaults_good; [apply catalog_defaults_in_range|].
    intros k ls. by rewrite lookup_empty. }
  destruct (find_view _) as [view|]; [|done].
  by apply fold_preset_good, fold_enable_good.
Qed.

Lemma reducer_keeps_well_formed (s : MapRuntimeState) (a : MapAction) :
  well_formed_layers (layers s) → catalog_action a →
  well_formed_layers (layers (mapReducer s a)).
Proof.
  intros [Hdom Hgood] Ha. destruct a as [v|b|i b|i o|vp|fi|p]; try done.
  - pose proof (initial_layers_well_formed (opts_of v s)) as [Hd0 Hg0]. split.
    + intros k. rewrite set_view_lookup, <- Hd0.
      split; [intros [x Hx]|intros [x Hx]].
      * destruct (layers (createInitialMapState (opts_of v s)) !! k); [by eexists|done].
      * rewrite Hx. by eexists.
    + intros k ls. rewrite set_view_lookup.
      destruct (layers (createInitialMapState (opts_of v s)) !! k) as [x|] eqn:Hx;
        [|done]. simpl. intros [= <-]. specialize (Hg0 k x Hx).
      destruct (layers s !! k) as [old|] eqn:Hold; [|done].
      apply good_layer_copied; [by eapply Hgood|done].
  - simpl in Ha. destruct (proj2 (Hdom i) Ha) as [x Hx]. simpl. rewrite Hx. split.
    + intros k. destruct (decide (k = i)) as [->|Hne].
      * rewrite lookup_insert_eq. split; [done|by eexists].
      * rewrite lookup_insert_ne by done. apply Hdom.
    + intros k ls. destruct (decide (k = i)) as [->|Hne].
      * rewrite lookup_insert_eq. intros [= <-].
        apply good_layer_with_enabled. by eapply Hgood.
      * rewrite lookup_insert_ne by done. apply Hgood.
  - simpl in Ha. destruct (proj2 (Hdom i) Ha) as [x Hx]. simpl. rewrite Hx. split.
    + intros k. destruct (decide (k = i)) as [->|Hne].
      * rewrite lookup_insert_eq. split; [done|by eexists].
      * rewrite lookup_insert_ne by done. apply Hdom.
    + intros k ls. destruct (decide (k = i)) as [->|Hne].
      * rewrite lookup_insert_eq. intros [= <-].
        apply good_layer_clamped. by eapply Hgood.
      * rewrite lookup_insert_ne by done. apply Hgood.
Qed.

(** X2.  Starting from an initial state and dispatching actions whose layer
    ids are catalog ids, the layers map always holds exactly the catalog ids,
    each with both fields set and an opacity in [0, 1]. *)
Theorem layers_stay_well_formed (o : InitOpts) (actions : list MapAction) :
  Forall catalog_action actions →
  well_formed_layers (layers (fold_left mapReducer actions (createInitialMapState o))).
Proof.
  intros Ha.
  assert (Hgen : ∀ s, well_formed_layers (layers s) →
                      well_formed_layers (layers (fold_left mapReducer actions s))).
  { induction Ha as [|a l Hc _ IH]; intros s Hs; [done|].
    simpl. apply IH. by apply reducer_keeps_well_formed. }
  apply Hgen, initial_layers_well_formed.
Qed.

End ReducerInvariant.

Section ReducerExamples.
Import State Invariants.

Lemma layers_stay_well_formed_witness :
  let actions := [ SET_LAYER_OPACITY "wildfire.smoke" Js.NaN;
                   SET_VIEW wildfire;
                   SET_LAYER_ENABLED "alerts.polygons" true;
                   SET_RADAR_FRAME 7;
                   SET_LAYER_OPACITY "radar.reflectivity" (Js.Fin 3) ] in
  Forall catalog_action actions
  ∧ well_formed_layers
      (layers (fold_left mapReducer actions (createInitialMapState no_init_opts))).
Proof.
  intros actions.
  assert (Ha : Forall catalog_action actions).
  { repeat constructor; simpl; apply list_elem_of_In; simpl; auto 10. }
  split; [exact Ha|]. exact (layers_stay_well_formed no_init_opts actions Ha).
Defined.

End ReducerExamples.

Section ViewSwitch.
Import State Invariants.

Lemma state_ext (s1 s2 : MapRuntimeState) :
  viewId s1 = viewId s2 → nerdy s1 = nerdy s2 → viewport s1 = viewport s2 →
  layers s1 = layers s2 → radarTime s1 = radarTime s2 →
  wildfireTime s1 = wildfireTime s2 → s1 = s2.
Proof. destruct s1, s2. simpl. by intros -> -> -> -> -> ->. Qed.

(** X3.  SetView repairs and settles the layers map: from any prior state,
    also one that holds keys outside the catalog or layers without an enabled
    flag, the result holds exactly the catalog ids, each with its enabled
    flag set; and dispatching the same SetView a second time changes
    nothing. *)
Theorem set_view_repairs_and_settles (s : MapRuntimeState) (v : MapViewId) :
  let s' := mapReducer s (SET_VIEW v) in
  (∀ k, is_Some (layers s' !! k) ↔ k ∈ catalog_ids)
  ∧ (∀ k ls, layers s' !! k = Some ls → is_Some (enabled ls))
  ∧ mapReducer s' (SET_VIEW v) = s'.
Proof.
  cbn zeta. set (s' := mapReducer s (SET_VIEW v)).
  pose proof (initial_layers_well_formed (opts_of v s)) as [Hd0 Hg0].
  assert (Hdom : ∀ k, is_Some (layers s' !! k) ↔ k ∈ catalog_ids).
  { intros k. unfold s'. rewrite set_view_lookup, <- Hd0.
    destruct (layers (createInitialMapState (opts_of v s)) !! k);
      split; intros [x Hx]; try done; by eexists. }
  split; [exact Hdom|]. split.
  - intros k ls. unfold s'. rewrite set_view_lookup.
    destruct (layers (createInitialMapState (opts_of v s)) !! k) as [x|] eqn:Hx;
      [|done]. simpl. intros [= <-].
    destruct (Hg0 k x Hx) as (b & q & -> & _).
    destruct (layers s !! k); by eexists.
  - assert (Hopts : opts_of v s' = opts_of v s) by reflexivity.
    assert (Hl : layers (mapReducer s' (SET_VIEW v)) = layers s').
    { apply map_eq. intros k. rewrite set_view_lookup, Hopts.
      unfold s' at 2. rewrite set_view_lookup.
      destruct (layers (createInitialMapState (opts_of v s)) !! k) as [x|] eqn:Hx.
      - assert (Hk : is_Some (layers s' !! k)) by (apply Hdom, Hd0; by eexists).
        destruct Hk as [y Hy]. rewrite Hy. simpl. f_equal.
        unfold s' in Hy. rewrite set_view_lookup, Hx in Hy. simpl in Hy.
        injection Hy as <-. by destruct (layers s !! k), x.
      - done. }
    apply state_ext; try reflexivity. exact Hl.
Qed.

(** X4.  The two layer actions are independent of their order: SetLayerEnabled
    and SetLayerOpacity commute, on the same layer or on two layers, and of two
    SetLayerOpacity on one layer the later one decides. *)
Theorem layer_actions_commute
    (s : MapRuntimeState) (i j : string) (b : bool) (o o' : Js.number) :
  mapReducer (mapReducer s (SET_LAYER_ENABLED i b)) (SET_LAYER_OPACITY j o)
  = mapReducer (mapReducer s (SET_LAYER_OPACITY j o)) (SET_LAYER_ENABLED i b)
  ∧ mapReducer (mapReducer s (SET_LAYER_OPACITY i o')) (SET_LAYER_OPACITY i o)
    = mapReducer s (SET_LAYER_OPACITY i o).
Proof.
  split.
  - unfold mapReducer. cbn [viewId nerdy viewport layers radarTime wildfireTime].
    f_equal. destruct (decide (i = j)) as [->|Hne].
    + rewrite !lookup_insert_eq, !insert_insert_eq.
      f_equal. by destruct (layers s !! j).
    + rewrite !lookup_insert_ne by done. by apply insert_insert_ne.
  - unfold mapReducer. cbn [viewId nerdy viewport layers radarTime wildfireTime].
    f_equal. rewrite lookup_insert_eq, insert_insert_eq.
    f_equal. by destruct (layers s !! i).
Qed.

End ViewSwitch.

(** ** The frame index helpers and the synthetic frames *)
Section TimelineMore.

(** X5.  The three copies of clamp (scrubber, screen, timeline.ts) agree;
    the result is always an index of the frames (0 when there is none), an
    index of the frames is left alone, and clamping is idempotent. *)
Theorem clamp_range_idempotent (i n : Z) :
  let c := Timeline.clamp i n in
  Screen.clamp i n = c
  ∧ TimelineLib.clampFrameIndex i n = c
  ∧ 0 ≤ c ≤ Z.max 0 (n - 1)
  ∧ Timeline.clamp c n = c
  ∧ (c = i ↔ 0 ≤ i < n ∨ (n ≤ 0 ∧ i = 0)).
Proof.
  cbn zeta. unfold Timeline.clamp, Screen.clamp, TimelineLib.clampFrameIndex.
  destruct (Z.leb_spec n 0) as [Hn|Hn].
  - repeat split; try lia; destruct (Z.leb_spec n 0); lia.
  - repeat split; try lia; destruct (Z.leb_spec n 0); lia.
Qed.

(** X6.  On the indices of a non-empty timeline, next and prev stay among
    the indices and undo each other. *)
Theorem next_prev_inverse (i n : Z) :
  0 < n →
  0 ≤ i < n →
  0 ≤ Timeline.nextFrameIndex i n < n
  ∧ 0 ≤ Timeline.prevFrameIndex i n < n
  ∧ Timeline.prevFrameIndex (Timeline.nextFrameIndex i n) n = i
  ∧ Timeline.nextFrameIndex (Timeline.prevFrameIndex i n) n = i.
Proof.
  intros Hn Hi.
  assert (Hnx : 0 ≤ (i + 1) mod n < n) by (apply Z.mod_pos_bound; lia).
  assert (Hpv : 0 ≤ (i - 1) mod n < n) by (apply Z.mod_pos_bound; lia).
  rewrite (nextFrameIndex_mod i n), (prevFrameIndex_mod i n) by lia.
  rewrite (prevFrameIndex_mod ((i + 1) mod n) n), (nextFrameIndex_mod ((i - 1) mod n) n)
    by lia.
  repeat split; try lia.
  - rewrite Zminus_mod_idemp_l. replace (i + 1 - 1) with i by lia.
    apply Z.mod_small; lia.
  - rewrite Zplus_mod_idemp_l. replace (i - 1 + 1) with i by lia.
    apply Z.mod_small; lia.
Qed.

Lemma next_prev_inverse_witness :
  0 < 5 ∧ 0 ≤ 4 < 5
  ∧ Timeline.nextFrameIndex 4 5 = 0
  ∧ Timeline.prevFrameIndex (Timeline.nextFrameIndex 4 5) 5 = 4
  ∧ Timeline.nextFrameIndex (Timeline.prevFrameIndex 4 5) 5 = 4.
Proof.
  assert (H1 : 0 < 5) by lia. assert (H2 : 0 ≤ 4 < 5) by lia.
  split; [exact H1|]. split; [exact H2|]. split; [reflexivity|].
  destruct (next_prev_inverse 4 5 H1 H2) as (_ & _ & Ha & Hb).
  exact (conj Ha Hb).
Defined.

(** X7.  The helpers of timeline.ts accept every integer: the result is an
    index of the frames, and it is the step of the scrubber's helper taken
    from the clamped index; an index past the end steps to 0 and an index
    before the start steps as index 0 does. *)
Theorem library_next_is_total (i n : Z) :
  0 < n →
  0 ≤ TimelineLib.nextFrameIndex i n < n
  ∧ 0 ≤ TimelineLib.prevFrameIndex i n < n
  ∧ TimelineLib.nextFrameIndex i n
    = Timeline.nextFrameIndex (Timeline.clamp i n) n
  ∧ TimelineLib.prevFrameIndex i n
    = Timeline.prevFrameIndex (Timeline.clamp i n) n
  ∧ (n - 1 ≤ i → TimelineLib.nextFrameIndex i n = 0)
  ∧ (i ≤ 0 → TimelineLib.prevFrameIndex i n = n - 1).
Proof.
  intros Hn.
  assert (Hc : 0 ≤ Timeline.clamp i n < n) by (by apply clamp_in_range).
  assert (He : TimelineLib.nextFrameIndex i n
               = Timeline.nextFrameIndex (Timeline.clamp i n) n).
  { unfold TimelineLib.nextFrameIndex, Timeline.nextFrameIndex,
      TimelineLib.clampFrameIndex, Timeline.clamp.
    destruct (Z.leb_spec n 0); [lia|done]. }
  assert (He' : TimelineLib.prevFrameIndex i n
                = Timeline.prevFrameIndex (Timeline.clamp i n) n).
  { unfold TimelineLib.prevFrameIndex, Timeline.prevFrameIndex,
      TimelineLib.clampFrameIndex, Timeline.clamp.
    destruct (Z.leb_spec n 0); [lia|done]. }
  assert (Hnx : 0 ≤ Timeline.nextFrameIndex (Timeline.clamp i n) n < n)
    by (rewrite nextFrameIndex_mod by lia; apply Z.mod_pos_bound; lia).
  assert (Hpv : 0 ≤ Timeline.prevFrameIndex (Timeline.clamp i n) n < n)
    by (rewrite prevFrameIndex_mod by lia; apply Z.mod_pos_bound; lia).
  rewrite He, He'. repeat split; try lia.
  - intros Hi. rewrite nextFrameIndex_mod by lia.
    replace (Timeline.clamp i n) with (n - 1)
      by (unfold Timeline.clamp; destruct (Z.leb_spec n 0); lia).
    replace (n - 1 + 1) with (0 + 1 * n) by lia.
    rewrite Z_mod_plus_full. apply Z.mod_small; lia.
  - intros Hi. rewrite prevFrameIndex_mod by lia.
    replace (Timeline.clamp i n) with 0
      by (unfold Timeline.clamp; destruct (Z.leb_spec n 0); lia).
    replace (0 - 1) with (n - 1 + (-1) * n) by lia.
    rewrite Z_mod_plus_full. apply Z.mod_small; lia.
Qed.

Lemma library_next_is_total_witness :
  0 < 5
  ∧ TimelineLib.nextFrameIndex 7 5 = 0
  ∧ TimelineLib.prevFrameIndex (-3) 5 = 4.
Proof.
  assert (H1 : 0 < 5) by lia. split; [exact H1|].
  destruct (library_next_is_total 7 5 H1) as (_ & _ & _ & _ & Ha & _).
  destruct (library_next_is_total (-3) 5 H1) as (_ & _ & _ & _ & _ & Hb).
  split; [apply Ha; lia|apply Hb; lia].
Defined.

End TimelineMore.

Section SyntheticFrames.
Import Env TimelineFrames.
Context `{DateLib}.

Lemma push_frames_shape (now stepMinutes frameCount : Z) (n : nat) (i : Z) :
  (∀ j, i ≤ j < i + Z.of_nat n →
        is_Some (toISOString (frame_time now stepMinutes frameCount j # 1000))) →
  ∃ fs, push_frames now stepMinutes frameCount n i = inr fs
        ∧ length fs = n
        ∧ ∀ (k : nat) f, fs !! k = Some f →
            index f = i + Z.of_nat k
            ∧ toISOString (frame_time now stepMinutes frameCount (i + Z.of_nat k) # 1000)
              = Some (iso f).
Proof.
  revert i. induction n as [|n IH]; intros i Hd; simpl.
  - exists []. by repeat split.
  - destruct (Hd i) as [s Hs]; [lia|]. rewrite Hs.
    destruct (IH (i + 1)) as (fs & -> & Hlen & Hfs); [intros j Hj; apply Hd; lia|].
    eexists. split; [reflexivity|]. split; [simpl; by rewrite Hlen|].
    intros [|k] f; simpl.
    + intros [= <-]. simpl. rewrite Z.add_0_r. done.
    + intros Hk. destruct (Hfs k f Hk) as [Hi Hiso].
      replace (i + Z.of_nat (S k)) with (i + 1 + Z.of_nat k) by lia. done.
Qed.

(** X8.  buildRadarFrames returns no frame when minutesBack or stepMinutes is
    not positive (no division by zero, no endless loop).  Otherwise, when
    the times of the window are dates, it returns minutesBack / stepMinutes + 1
    frames, numbered 0, 1, ... in list order, and the last frame is the frame
    of [now], whatever the step. *)
Theorem buildRadarFrames_shape (minutesBack stepMinutes now : Z) :
  0 < minutesBack →
  0 < stepMinutes →
  (∀ t, now - minutesBack * 60000 ≤ t ≤ now → is_Some (toISOString (t # 1000))) →
  (∃ fs, buildRadarFrames minutesBack stepMinutes now = inr fs
         ∧ Z.of_nat (length fs) = minutesBack / stepMinutes + 1
         ∧ (∀ (k : nat) f, fs !! k = Some f → index f = Z.of_nat k)
         ∧ (∃ f, last fs = Some f ∧ toISOString (now # 1000) = Some (iso f)))
  ∧ (∀ mb st, mb ≤ 0 ∨ st ≤ 0 → buildRadarFrames mb st now = inr []).
Proof.
  intros Hmb Hst Hd. split.
  - unfold buildRadarFrames.
    destruct (Z.leb_spec minutesBack 0); [lia|].
    destruct (Z.leb_spec stepMinutes 0); [lia|]. cbn [orb].
    assert (Hq : 0 ≤ minutesBack / stepMinutes) by (apply Z.div_pos; lia).
    assert (Hm : stepMinutes * (minutesBack / stepMinutes) ≤ minutesBack)
      by (apply Z.mul_div_le; lia).
    set (q := minutesBack / stepMinutes) in *. clearbody q.
    destruct (push_frames_shape now stepMinutes (q + 1) (Z.to_nat (q + 1)) 0)
      as (fs & Hfs & Hlen & Hk).
    { intros j Hj. apply Hd. unfold frame_time.
      replace (q + 1 - 1 - j) with (q - j) by lia.
      assert (0 ≤ (q - j) * stepMinutes) by (apply Z.mul_nonneg_nonneg; lia).
      assert ((q - j) * stepMinutes ≤ q * stepMinutes)
        by (apply Z.mul_le_mono_nonneg_r; lia).
      lia. }
    exists fs. split; [exact Hfs|]. split; [rewrite Hlen; lia|].
    split; [intros k f Hf; destruct (Hk k f Hf); lia|].
    rewrite last_lookup.
    destruct (fs !! Nat.pred (length fs)) as [f|] eqn:Hf.
    + exists f. split; [done|]. destruct (Hk _ f Hf) as [_ Hiso].
      rewrite <- Hiso. f_equal. f_equal. unfold frame_time. rewrite Hlen.
      replace (Z.of_nat (Nat.pred (Z.to_nat (q + 1)))) with q by lia. lia.
    + apply lookup_ge_None in Hf. rewrite Hlen in Hf. lia.
  - intros mb st Hle. unfold buildRadarFrames.
    destruct (Z.leb_spec mb 0); [done|].
    destruct (Z.leb_spec st 0); [done|lia].
Qed.

End SyntheticFrames.

Section SyntheticFramesExamples.
Import Env TimelineFrames.

Lemma buildRadarFrames_shape_witness :
  0 < 240 ∧ 0 < 10
  ∧ (∀ t, 1700000000000 - 240 * 60000 ≤ t ≤ 1700000000000 →
          is_Some (@toISOString coarse_dates (t # 1000)))
  ∧ ∃ fs, @buildRadarFrames coarse_dates 240 10 1700000000000 = inr fs
          ∧ Z.of_nat (length fs) = 240 / 10 + 1
          ∧ (∀ (k : nat) f, fs !! k = Some f → index f = Z.of_nat k)
          ∧ (∃ f, last fs = Some f
                  ∧ @toISOString coarse_dates (1700000000000 # 1000) = Some (iso f)).
Proof.
  assert (H1 : 0 < 240) by lia. assert (H2 : 0 < 10) by lia.
  assert (H3 : ∀ t, 1700000000000 - 240 * 60000 ≤ t ≤ 1700000000000 →
                    is_Some (@toISOString coarse_dates (t # 1000))).
  { intros t Ht. unfold toISOString, coarse_dates.
    assert (Hlo : Qle_bool (- 8640000000000000) ((t # 1000) * 1000) = true).
    { apply Qle_bool_iff. unfold Qle. simpl. lia. }
    assert (Hhi : Qle_bool ((t # 1000) * 1000) 8640000000000000 = true).
    { apply Qle_bool_iff. unfold Qle. simpl. lia. }
    rewrite Hlo, Hhi. by eexists. }
  split; [exact H1|]. split; [exact H2|]. split; [exact H3|].
  exact (proj1 (@buildRadarFrames_shape coarse_dates 240 10 1700000000000 H1 H2 H3)).
Defined.

End SyntheticFramesExamples.

(** ** The timeline handlers of the screen and the scrubber *)
Section ScreenFacts.
Import State Screen Invariants.

Lemma screen_clamp_range (i n : Z) : 0 ≤ Screen.clamp i n ≤ Z.max 0 (n - 1).
Proof. unfold Screen.clamp. destruct (Z.leb_spec n 0); lia. Qed.

Lemma onSetFrame_ok (n i : Z) (s : MapRuntimeState) :
  (playing (radarTime s) = true → 2 ≤ n) → timeline_ok n (onSetFrame n i s).
Proof. intros Hp. split; [apply screen_clamp_range|exact Hp]. Qed.

Lemma onSetPlaying_ok (n : Z) (b : bool) (s : MapRuntimeState) :
  0 ≤ frameIndex (radarTime s) ≤ Z.max 0 (n - 1) → timeline_ok n (onSetPlaying n b s).
Proof.
  intros Hi. unfold onSetPlaying. destruct b; cbn [andb].
  - destruct (Z.ltb_spec n 2); (split; [exact Hi|simpl; intros; done || lia]).
  - split; [exact Hi|done].
Qed.

Lemma handle_keeps_timeline_ok (n : Z) (s : MapRuntimeState) (ev : ui_event) :
  timeline_ok n s → timeline_ok n (handle n s ev).
Proof.
  intros Hok. pose proof Hok as [Hi Hp]. destruct ev as [i|b| | | |]; cbn [handle].
  - by apply onSetFrame_ok.
  - by apply onSetPlaying_ok.
  - unfold playback_round. cbn zeta.
    destruct (negb (playing (radarTime s))); [exact Hok|].
    destruct (effectiveFrameCount n <? 2);
      [by apply onSetPlaying_ok|by apply onSetFrame_ok].
  - unfold press_play. cbn zeta.
    destruct (effectiveFrameCount n <? 2); [exact Hok|by apply onSetPlaying_ok].
  - unfold press_prev. cbn zeta.
    destruct (effectiveFrameCount n <? 1); [exact Hok|by apply onSetFrame_ok].
  - unfold press_next. cbn zeta.
    destruct (effectiveFrameCount n <? 1); [exact Hok|by apply onSetFrame_ok].
Qed.

(** X9.  Whatever the scrubber asks of the screen (a frame, play or pause, a
    round of the playback effect, a button), for a fixed frame count the
    stored frame index stays an index of the frames (0 when there is none) and
    nothing plays with fewer than two frames; this holds from the initial
    state of the reducer on. *)
Theorem timeline_stays_valid (n : Z) (o : InitOpts) (evs : list ui_event) :
  timeline_ok n (fold_left (handle n) evs (createInitialMapState o)).
Proof.
  assert (Hgen : ∀ s, timeline_ok n s → timeline_ok n (fold_left (handle n) evs s)).
  { induction evs as [|ev evs IH]; intros s Hs; [done|].
    simpl. apply IH. by apply handle_keeps_timeline_ok. }
  apply Hgen. split; simpl; [lia|done].
Qed.

(** X10.  With fewer than two frames on the screen a request to play is
    answered by a pause: after onSetPlaying, whatever was asked, the state is
    not playing and the frame index is not touched.  With exactly one frame a
    round of the playback effect pauses a playing state in the same way, and
    the play button is disabled.  With no frame at all the scrubber works on
    its 25 fallback frames: its play button is enabled and a press always
    leaves the state paused, but a round of the playback effect on a playing
    state does not pause; it asks for the next fallback frame, which the
    screen clamps to index 0, and the state goes on playing. *)
Theorem single_frame_never_plays (n : Z) (b : bool) (s : MapRuntimeState) :
  0 ≤ n < 2 →
  playing (radarTime (onSetPlaying n b s)) = false
  ∧ frameIndex (radarTime (onSetPlaying n b s)) = frameIndex (radarTime s)
  ∧ (n = 1 →
     playing (radarTime (playback_round n s)) = false
     ∧ frameIndex (radarTime (playback_round n s)) = frameIndex (radarTime s)
     ∧ press_play n s = s)
  ∧ (n = 0 →
     playing (radarTime (press_play n s)) = false
     ∧ frameIndex (radarTime (press_play n s)) = frameIndex (radarTime s)
     ∧ (playing (radarTime s) = true →
        playing (radarTime (playback_round n s)) = true
        ∧ frameIndex (radarTime (playback_round n s)) = 0)).
Proof.
  intros Hn. split; [|split; [|split]].
  - unfold onSetPlaying. destruct (Z.ltb_spec n 2); [|lia]. by destruct b.
  - unfold onSetPlaying. destruct (Z.ltb_spec n 2); [|lia]. by destruct b.
  - intros ->. unfold playback_round, press_play, onSetPlaying. cbn.
    destruct (playing (radarTime s)) eqn:Hp; simpl; by rewrite ?Hp.
  - intros ->. unfold playback_round, press_play, onSetPlaying. cbn.
    destruct (playing (radarTime s)) eqn:Hp; simpl; [|done].
    split; [done|]. split; [done|]. intros _. done.
Qed.

Lemma single_frame_never_plays_witness :
  let s := mapReducer (createInitialMapState no_init_opts) (SET_RADAR_PLAYING true) in
  0 ≤ 1 < 2
  ∧ playing (radarTime s) = true
  ∧ playing (radarTime (onSetPlaying 1 true s)) = false
  ∧ playing (radarTime (playback_round 1 s)) = false.
Proof.
  intros s. assert (H1 : 0 ≤ 1 < 2) by lia.
  split; [exact H1|]. split; [reflexivity|].
  destruct (single_frame_never_plays 1 true s H1) as (Ha & _ & Hb & _).
  destruct (Hb eq_refl) as (Hc & _).
  exact (conj Ha Hc).
Defined.

Lemma playback_round_step (n : Z) (s : MapRuntimeState) :
  2 ≤ n → playing (radarTime s) = true →
  playback_round n s
  = mapReducer s (SET_RADAR_FRAME
                    ((Timeline.clamp (frameIndex (radarTime s)) n + 1) mod n)).
Proof.
  intros Hn Hp. unfold playback_round, effectiveFrameCount. rewrite Hp. cbn [negb].
  destruct (Z.eqb_spec n 0); [lia|]. cbn zeta.
  destruct (Z.ltb_spec n 2); [lia|]. unfold onSetFrame, idx. f_equal. f_equal.
  assert (Hc : 0 ≤ Timeline.clamp (frameIndex (radarTime s)) n < n)
    by (apply clamp_in_range; lia).
  rewrite nextFrameIndex_mod by lia.
  assert (Hm : 0 ≤ (Timeline.clamp (frameIndex (radarTime s)) n + 1) mod n < n)
    by (apply Z.mod_pos_bound; lia).
  unfold Screen.clamp. destruct (Z.leb_spec n 0); lia.
Qed.

Lemma playback_rounds_from_index (n : Z) (k : nat) (s : MapRuntimeState) :
  2 ≤ n → playing (radarTime s) = true → 0 ≤ frameIndex (radarTime s) < n →
  let s' := Nat.iter k (playback_round n) s in
  playing (radarTime s') = true
  ∧ frameIndex (radarTime s') = (frameIndex (radarTime s) + Z.of_nat k) mod n
  ∧ layers s' = layers s.
Proof.
  intros Hn Hp Hi. induction k as [|k (IHp & IHi & IHl)].
  - simpl. rewrite Z.add_0_r, Z.mod_small by lia. done.
  - cbn zeta in *. rewrite Nat.iter_succ.
    rewrite playback_round_step by done. simpl.
    split; [done|]. split; [|done]. rewrite IHi.
    assert (Hm : 0 ≤ (frameIndex (radarTime s) + Z.of_nat k) mod n < n)
      by (apply Z.mod_pos_bound; lia).
    replace (Timeline.clamp ((frameIndex (radarTime s) + Z.of_nat k) mod n) n)
      with ((frameIndex (radarTime s) + Z.of_nat k) mod n)
      by (unfold Timeline.clamp; destruct (Z.leb_spec n 0); lia).
    rewrite Zplus_mod_idemp_l. f_equal. lia.
Qed.

(** X11.  While playing over [n >= 2] frames, each round of the playback
    effect moves one frame forward and wraps after the last: from an index of
    the frames, [k] rounds lead to the index plus [k] modulo [n], so [n]
    rounds lead back to the start; the layers are not touched and the state
    keeps playing. *)
Theorem playback_wraps_around (n : Z) (k : nat) (s : MapRuntimeState) :
  2 ≤ n →
  playing (radarTime s) = true →
  0 ≤ frameIndex (radarTime s) < n →
  frameIndex (radarTime (Nat.iter k (playback_round n) s))
    = (frameIndex (radarTime s) + Z.of_nat k) mod n
  ∧ frameIndex (radarTime (Nat.iter (Z.to_nat n) (playback_round n) s))
    = frameIndex (radarTime s)
  ∧ playing (radarTime (Nat.iter k (playback_round n) s)) = true
  ∧ layers (Nat.iter k (playback_round n) s) = layers s.
Proof.
  intros Hn Hp Hi.
  destruct (playback_rounds_from_index n k s Hn Hp Hi) as (Hpk & Hik & Hlk).
  destruct (playback_rounds_from_index n (Z.to_nat n) s Hn Hp Hi) as (_ & Hin & _).
  repeat split; try done.
  rewrite Hin, Z2Nat.id by lia.
  replace (frameIndex (radarTime s) + n) with (frameIndex (radarTime s) + 1 * n) by lia.
  rewrite Z_mod_plus_full. apply Z.mod_small; lia.
Qed.

Lemma playback_wraps_around_witness :
  let s := mapReducer
             (mapReducer (createInitialMapState no_init_opts) (SET_RADAR_FRAME 11))
             (SET_RADAR_PLAYING true) in
  2 ≤ 13
  ∧ playing (radarTime s) = true
  ∧ 0 ≤ frameIndex (radarTime s) < 13
  ∧ frameIndex (radarTime (Nat.iter 3 (playback_round 13) s)) = 1
  ∧ frameIndex (radarTime (Nat.iter (Z.to_nat 13) (playback_round 13) s)) = 11.
Proof.
  intros s.
  assert (H1 : 2 ≤ 13) by lia.
  assert (H2 : playing (radarTime s) = true) by reflexivity.
  assert (H3 : 0 ≤ frameIndex (radarTime s) < 13) by (simpl; lia).
  split; [exact H1|]. split; [exact H2|]. split; [exact H3|].
  destruct (playback_wraps_around 13 3 s H1 H2 H3) as (Ha & Hb & _).
  split; [exact Ha|exact Hb].
Defined.

End ScreenFacts.

(** ** The crossfade state over time *)
Section CrossfadeMore.
Import Crossfade Invariants.

Lemma step_keeps_crossfade_ok (st : CrossfadeState) (ev : event) :
  sound_event ev → crossfade_ok st → crossfade_ok (step st ev).
Proof.
  intros Hev [Hb Ht]. destruct ev as [u|u start now]; cbn [step].
  - unfold onResolvedTarget.
    destruct (Js.truthy_str u) eqn:Hu; cbn [negb]; [|by split].
    assert (Hbase : Js.truthy_str
                      (if negb (Js.truthy_str (baseUrl st)) then u else baseUrl st)
                    = true).
    { destruct (Js.truthy_str (baseUrl st)) eqn:Hbs; by cbn [negb]. }
    destruct (decide (baseUrl st = u)) as [Heq|Hne]; split; cbn [baseUrl fadeUrl fadeT].
    + intros _. exact Hbase.
    + exact Ht.
    + intros _. exact Hbase.
    + split; by vm_compute.
  - destruct Hev as [Hu Hle]. split; [|by apply tick_fadeT_range].
    unfold tick. destruct (Qle_bool 1 _); cbn [baseUrl fadeUrl]; [done|exact Hb].
Qed.

(** X12.  Along every run of the crossfade in which the animation frames
    belong to a non-empty target and the clock does not run backwards, a fade
    template is never set without a base template, the progress stays in
    [0, 1], and for a radar opacity [r >= 0] both layer opacities stay in
    [0, r]. *)
Theorem crossfade_run_invariant (evs : list event) (r : Q) :
  Forall sound_event evs →
  (0 <= r)%Q →
  let st := run evs in
  (Js.truthy_str (fadeUrl st) = true → Js.truthy_str (baseUrl st) = true)
  ∧ (0 <= fadeT st <= 1)%Q
  ∧ (0 <= baseOpacity st r <= r)%Q
  ∧ (0 <= fadeOpacity st r <= r)%Q.
Proof.
  intros Hevs Hr st.
  assert (Hok : crossfade_ok st).
  { unfold st, run.
    assert (Hgen : ∀ s0, crossfade_ok s0 → crossfade_ok (fold_left step evs s0)).
    { induction Hevs as [|ev l Hev _ IH]; intros s0 Hs0; [done|].
      simpl. apply IH. by apply step_keeps_crossfade_ok. }
    apply Hgen. split; [done|split; by vm_compute]. }
  destruct Hok as [Hb [Ht0 Ht1]]. split; [exact Hb|]. split; [by split|].
  unfold baseOpacity, fadeOpacity.
  destruct (Js.truthy_str (fadeUrl st)); cbn [negb].
  - assert (H1 : (0 <= 1 - fadeT st)%Q) by lra.
    assert (Ha : (0 <= r * (1 - fadeT st))%Q) by (by apply Qmult_le_0_compat).
    assert (Hb' : (0 <= r * fadeT st)%Q) by (by apply Qmult_le_0_compat).
    repeat split; try done; lra.
  - repeat split; try done; lra.
Qed.

End CrossfadeMore.

Section CrossfadeExamples.
Import Crossfade Invariants.

Lemma crossfade_run_invariant_witness :
  let evs := [Resolved (Some "a"); Tick (Some "a") 0 100; Resolved (Some "b");
              Tick (Some "b") 100 170; Resolved None] in
  Forall sound_event evs
  ∧ (0 <= 9 # 10)%Q
  ∧ Js.truthy_str (fadeUrl (run evs)) = true
  ∧ Js.truthy_str (baseUrl (run evs)) = true
  ∧ (0 <= fadeT (run evs) <= 1)%Q
  ∧ (0 <= baseOpacity (run evs) (9 # 10) <= 9 # 10)%Q
  ∧ (0 <= fadeOpacity (run evs) (9 # 10) <= 9 # 10)%Q.
Proof.
  intros evs.
  assert (He : Forall sound_event evs).
  { repeat constructor; simpl; lia. }
  assert (Hr : (0 <= 9 # 10)%Q) by (by vm_compute).
  split; [exact He|]. split; [exact Hr|]. split; [reflexivity|].
  destruct (crossfade_run_invariant evs (9 # 10) He Hr) as (Ha & Hb & Hc & Hd).
  split; [apply Ha; reflexivity|]. split; [exact Hb|]. split; [exact Hc|exact Hd].
Defined.

End CrossfadeExamples.

Section TransitionEnd.
Import Crossfade.

Lemma elapsed_full (start now : Z) :
  280 ≤ now - start →
  Qle_bool 1 (inject_Z (now - start) / inject_Z duration) = true.
Proof.
  intros Hd. apply Qle_bool_iff. apply Qle_shift_div_l; [by vm_compute|].
  rewrite Qmult_1_l. unfold duration. rewrite <- Zle_Qle. exact Hd.
Qed.

Lemma elapsed_part (start now : Z) :
  now - start < 280 →
  Qle_bool 1 (inject_Z (now - start) / inject_Z duration) = false.
Proof.
  intros Hd. destruct (Qle_bool 1 _) eqn:Hq; [|done]. exfalso.
  apply Qle_bool_iff in Hq.
  assert (Hm : (1 * inject_Z duration <= inject_Z (now - start))%Q).
  { apply Qle_shift_div_r in Hq; [|by vm_compute]. exact Hq. }
  rewrite Qmult_1_l in Hm. unfold duration in Hm. rewrite <- Zle_Qle in Hm. lia.
Qed.

(** X13.  A transition towards a non-empty target ends at the first animation
    frame that comes 280 ms or more after its start: the target becomes the
    base template, the fade template is cleared, and the base layer shows at
    the full radar opacity; before that the two templates are as they were.
    Resolving the same target again then starts no fade, while a different
    target keeps the base and starts a fade at progress 0. *)
Theorem transition_completes
    (u v : string) (start now : Z) (st : CrossfadeState) (r : Q) :
  u ≠ "" →
  v ≠ "" →
  v ≠ u →
  let done := tick (Some u) start now st in
  (280 ≤ now - start →
     done = {| baseUrl := Some u; fadeUrl := None; fadeT := 1 |}
     ∧ baseOpacity done r = r
     ∧ fadeOpacity done r = 0%Q
     ∧ onResolvedTarget (Some u) done = done
     ∧ onResolvedTarget (Some v) done
       = {| baseUrl := Some u; fadeUrl := Some v; fadeT := 0 |})
  ∧ (now - start < 280 →
     baseUrl done = baseUrl st ∧ fadeUrl done = fadeUrl st).
Proof.
  intros Hu Hv Hne done. apply truthy_nonempty in Hu, Hv. split.
  - intros Hd. unfold done, tick. rewrite (elapsed_full _ _ Hd).
    split; [done|]. split; [done|]. split; [done|].
    unfold onResolvedTarget. cbn [baseUrl fadeUrl fadeT]. rewrite Hu, Hv. cbn [negb].
    split.
    + by rewrite decide_True.
    + rewrite decide_False; [done|]. intros [= ->]. done.
  - intros Hd. unfold done, tick. by rewrite (elapsed_part _ _ Hd).
Qed.

Lemma transition_completes_witness :
  let st := {| baseUrl := Some "a"; fadeUrl := Some "b"; fadeT := 1 # 2 |} in
  "b" ≠ "" ∧ "c" ≠ "" ∧ "c" ≠ "b"
  ∧ 280 ≤ 1300 - 1000
  ∧ tick (Some "b") 1000 1300 st = {| baseUrl := Some "b"; fadeUrl := None; fadeT := 1 |}
  ∧ baseOpacity (tick (Some "b") 1000 1300 st) (9 # 10) = 9 # 10.
Proof.
  intros st.
  assert (H1 : "b" ≠ "") by discriminate.
  assert (H2 : "c" ≠ "") by discriminate.
  assert (H3 : "c" ≠ "b") by discriminate.
  assert (H4 : 280 ≤ 1300 - 1000) by lia.
  split; [exact H1|]. split; [exact H2|]. split; [exact H3|]. split; [exact H4|].
  destruct (proj1 (transition_completes "b" "c" 1000 1300 st (9 # 10) H1 H2 H3) H4)
    as (Ha & Hb & _).
  split; [exact Ha|exact Hb].
Defined.

End TransitionEnd.

Section RadarOpacityFacts.
Import State Invariants.

(** X14.  In every state whose layers are well formed (so in every state the
    reducer reaches), the radar opacity handed to the crossfade is a finite
    number between the floor of the mode and 1: 0.75 in simple mode, 0.55 in
    nerdy mode. *)
Theorem radarOpacity_floor (s : MapRuntimeState) :
  well_formed_layers (layers s) →
  ∃ r, Crossfade.radarOpacity s = Js.Fin r
       ∧ ((if nerdy s then 55 # 100 else 75 # 100) <= r <= 1)%Q.
Proof.
  intros [Hdom Hgood]. unfold Crossfade.radarOpacity.
  assert (Hc : ∃ q, match layers s !! "radar.reflectivity" with
                    | Some ls => default (Js.Fin (9 # 10)) (opacity ls)
                    | None => Js.Fin (9 # 10)
                    end = Js.Fin q).
  { destruct (layers s !! "radar.reflectivity") as [ls|] eqn:Hl; [|by eexists].
    destruct (Hgood _ _ Hl) as (b & q & -> & _). by exists q. }
  destruct Hc as [q ->].
  destruct (nerdy s); cbn [negb]; apply clamp_to_floor; by vm_compute.
Qed.

Lemma radarOpacity_floor_witness :
  let s := mapReducer (createInitialMapState no_init_opts)
             (SET_LAYER_OPACITY "radar.reflectivity" (Js.Fin (3 # 10))) in
  well_formed_layers (layers s)
  ∧ ∃ r, Crossfade.radarOpacity s = Js.Fin r
         ∧ ((if nerdy s then 55 # 100 else 75 # 100) <= r <= 1)%Q.
Proof.
  intros s.
  assert (Hw : well_formed_layers (layers s)).
  { apply reducer_keeps_well_formed; [apply initial_layers_well_formed|].
    simpl. apply list_elem_of_In. simpl. auto. }
  split; [exact Hw|]. exact (radarOpacity_floor s Hw).
Defined.

End RadarOpacityFacts.

(** ** The provider objects of rainviewer.ts *)
Section ProviderMore.
Import Env RainViewer.
Context `{DateLib}.

(** X15.  Creating a provider allocates a closure of its own and touches
    nothing else: the closures of the other providers, the module variables
    and the environment are as before.  The new provider is cold: its
    getTileUrlTemplate fails with "not initialized", and its first getFrames
    fetches even when another provider has already filled the module cache. *)
Theorem fresh_provider_is_cold (o : Opts) (w : World) (frame : RadarFrame) :
  ∃ p w',
    createRainViewerProvider o w = (inr p, w')
    ∧ providers w !! p = None
    ∧ providers w' !! p
      = Some {| config := config_of o; cachedHost := None; cachedPaths := None |}
    ∧ (∀ q, q ≠ p → providers w' !! q = providers w !! q)
    ∧ cachedFrames w' = cachedFrames w
    ∧ cacheExpiresAt w' = cacheExpiresAt w
    ∧ env w' = env w
    ∧ getTileUrlTemplate p frame w' = (inl NotInitialized, w')
    ∧ fetchLog (env (getFrames p w').2) = MAPS_JSON :: fetchLog (env w).
Proof.
  unfold createRainViewerProvider. set (p := fresh (dom (providers w))).
  eexists p, _. split; [reflexivity|].
  assert (Hfresh : providers w !! p = None).
  { apply not_elem_of_dom. apply is_fresh. }
  cbn [providers cachedFrames cacheExpiresAt env].
  split; [exact Hfresh|]. split; [apply lookup_insert_eq|].
  split; [intros q Hq; by apply lookup_insert_ne|].
  split; [done|]. split; [done|]. split; [done|]. split.
  - unfold getTileUrlTemplate. cbn [providers]. rewrite lookup_insert_eq.
    cbn [cachedPaths cachedHost]. by destruct (cachedFrames _).
  - match goal with |- context [getFrames p ?w0] => set (w' := w0) end.
    assert (Hp : providers w' !! p
                 = Some {| config := config_of o; cachedHost := None;
                           cachedPaths := None |}) by apply lookup_insert_eq.
    assert (Hm : cache_hit {| config := config_of o; cachedHost := None;
                              cachedPaths := None |} w' = None).
    { unfold cache_hit. cbn [cachedPaths]. by destruct (cachedFrames w'). }
    rewrite (getFrames_miss p _ w' Hp Hm). cbn zeta.
    by destruct (fetchFrames _ w').1.
Qed.

Lemma findIndex_first (time : Q) (fs : list RadarFrame) (k : Z) :
  0 ≤ k →
  (findIndex time fs k = -1 ∧ ∀ f, f ∈ fs → Qeq_bool (t f) time = false)
  ∨ (∃ (j : nat) g,
        findIndex time fs k = k + Z.of_nat j
        ∧ fs !! j = Some g
        ∧ Qeq_bool (t g) time = true
        ∧ ∀ (j' : nat) g', (j' < j)%nat → fs !! j' = Some g' →
            Qeq_bool (t g') time = false).
Proof.
  revert k. induction fs as [|f fs IH]; intros k Hk; simpl.
  - left. split; [done|]. intros f Hf. by apply elem_of_nil in Hf.
  - destruct (Qeq_bool (t f) time) eqn:Hf.
    + right. exists 0%nat, f. split; [lia|]. split; [done|]. split; [done|].
      intros j' g' Hj. lia.
    + destruct (IH (k + 1)) as [[Hnone Hall]|(j & g & Hidx & Hg & Hgt & Hmin)]; [lia|..].
      * left. split; [done|]. intros x [->|Hx]%elem_of_cons; [done|by apply Hall].
      * right. exists (S j), g. split; [lia|]. split; [done|]. split; [done|].
        intros [|j'] g' Hj; simpl; [by intros [= <-]|]. apply Hmin. lia.
Qed.

(** What a successful [getFrames] that fetched leaves behind. *)
Lemma getFrames_stored (p : nat) (c : Closure) (w w1 : World) (fs : list RadarFrame) :
  providers w !! p = Some c →
  cache_hit c w = None →
  getFrames p w = (inr fs, w1) →
  ∃ h ps,
    h ≠ ""
    ∧ length ps = length fs
    ∧ cachedFrames w1 = Some fs
    ∧ providers w1 !! p
      = Some {| config := config c; cachedHost := Some h; cachedPaths := Some ps |}.
Proof.
  intros Hp Hm Hg. rewrite (getFrames_miss p c w Hp Hm) in Hg. cbn zeta in Hg.
  destruct (fetchFrames (config c) w).1 as [e|r] eqn:Hf; [done|].
  injection Hg as <- <-.
  apply fetchFrames_inr in Hf as (st & rest & d & Hup & Hh & Hne & Hfs & Hps).
  exists (fhost r), (paths r). split; [done|]. split.
  - apply toFrames_times in Hfs. apply (f_equal length) in Hfs.
    rewrite !length_fmap in Hfs. by rewrite Hps, length_fmap.
  - split; [done|]. cbn [store providers]. apply lookup_insert_eq.
Qed.

(** X16.  After a getFrames that fetched, every frame it returned has its
    tile template: getTileUrlTemplate answers with the stored host and the
    path stored at the first position that carries the frame's time, which is
    the frame's own position when no earlier frame has the same time. *)
Theorem returned_frames_have_templates
    (p : nat) (c : Closure) (w w1 : World) (fs : list RadarFrame)
    (i : nat) (f : RadarFrame) :
  providers w !! p = Some c →
  cache_hit c w = None →
  getFrames p w = (inr fs, w1) →
  fs !! i = Some f →
  ∃ h ps (j : nat) path g,
    providers w1 !! p
      = Some {| config := config c; cachedHost := Some h; cachedPaths := Some ps |}
    ∧ (j ≤ i)%nat
    ∧ fs !! j = Some g
    ∧ (t g == t f)%Q
    ∧ ps !! j = Some path
    ∧ getTileUrlTemplate p f w1 = (inr (tileTemplateFor h path), w1)
    ∧ ((∀ (k : nat) x, (k < i)%nat → fs !! k = Some x → ¬ (t x == t f)%Q) → j = i).
Proof.
  intros Hp Hm Hg Hi.
  destruct (getFrames_stored p c w w1 fs Hp Hm Hg) as (h & ps & Hne & Hlen & Hcf & Hp1).
  apply truthy_nonempty in Hne.
  destruct (findIndex_first (t f) fs 0) as [[_ Hall]|(j & g & Hidx & Hgj & Hgt & Hmin)];
    [lia|..].
  { assert (Hin : f ∈ fs) by (apply list_elem_of_lookup; by exists i).
    specialize (Hall f Hin).
    assert (Ht : Qeq_bool (t f) (t f) = true) by (apply Qeq_bool_iff, Qeq_refl).
    congruence. }
  assert (Hji : (j ≤ i)%nat).
  { destruct (Nat.le_gt_cases j i) as [?|Hlt]; [done|].
    specialize (Hmin i f Hlt Hi).
    assert (Ht : Qeq_bool (t f) (t f) = true) by (apply Qeq_bool_iff, Qeq_refl).
    congruence. }
  assert (Hpj : is_Some (ps !! j)).
  { apply lookup_lt_is_Some. rewrite Hlen. apply lookup_lt_Some in Hgj. lia. }
  destruct Hpj as [path Hpath].
  exists h, ps, j, path, g. split; [exact Hp1|]. split; [exact Hji|].
  split; [exact Hgj|]. split; [by apply Qeq_bool_iff|]. split; [exact Hpath|]. split.
  - unfold getTileUrlTemplate. rewrite Hp1, Hcf. cbn [cachedPaths cachedHost].
    rewrite Hne. cbn [negb]. rewrite Hidx.
    replace (Z.to_nat (Z.max 0 (0 + Z.of_nat j))) with j by lia. by rewrite Hpath.
  - intros Hdistinct. destruct (Nat.eq_dec j i) as [?|Hneq]; [done|]. exfalso.
    apply (Hdistinct j g); [lia|done|by apply Qeq_bool_iff].
Qed.

(** X17.  For a frame whose time is not among the stored frames,
    getTileUrlTemplate does not fail as long as a frame is stored: it answers
    with the path of the oldest stored frame.  With an empty stored list there
    is no path and the call fails. *)
Theorem unknown_frame_falls_back
    (p : nat) (c : Closure) (w w1 : World) (fs : list RadarFrame) (f : RadarFrame) :
  providers w !! p = Some c →
  cache_hit c w = None →
  getFrames p w = (inr fs, w1) →
  (∀ x, x ∈ fs → ¬ (t x == t f)%Q) →
  (fs = [] → getTileUrlTemplate p f w1 = (inl PathUndefined, w1))
  ∧ (fs ≠ [] →
     ∃ h ps path,
       providers w1 !! p
         = Some {| config := config c; cachedHost := Some h; cachedPaths := Some ps |}
       ∧ ps !! 0%nat = Some path
       ∧ getTileUrlTemplate p f w1 = (inr (tileTemplateFor h path), w1)).
Proof.
  intros Hp Hm Hg Hnot.
  destruct (getFrames_stored p c w w1 fs Hp Hm Hg) as (h & ps & Hne & Hlen & Hcf & Hp1).
  apply truthy_nonempty in Hne.
  assert (Hidx : findIndex (t f) fs 0 = -1).
  { destruct (findIndex_first (t f) fs 0) as [[Hn _]|(j & g & _ & Hgj & Hgt & _)];
      [lia|done|].
    exfalso. apply (Hnot g); [apply list_elem_of_lookup; by exists j|].
    by apply Qeq_bool_iff. }
  assert (Hcall : getTileUrlTemplate p f w1
                  = match ps !! 0%nat with
                    | Some path => (inr (tileTemplateFor h path), w1)
                    | None => (inl PathUndefined, w1)
                    end).
  { unfold getTileUrlTemplate. rewrite Hp1, Hcf. cbn [cachedPaths cachedHost].
    rewrite Hne. cbn [negb]. by rewrite Hidx. }
  split.
  - intros ->. destruct ps; [|done]. by rewrite Hcall.
  - intros Hfs. destruct ps as [|path ps'].
    + destruct fs; done.
    + exists h, (path :: ps'), path. by rewrite Hcall.
Qed.

End ProviderMore.

Section ProviderExamples.
Import Env RainViewer Examples.

Lemma returned_frames_have_templates_witness :
  let w0 := (createRainViewerProvider no_opts
               (initial_world
                  {| now := 0; upstream := [Response true 200 (Some good_manifest)];
                     fetchLog := [] |})).2 in
  let c := {| config := config_of no_opts; cachedHost := None; cachedPaths := None |} in
  let f := {| t := 1; iso := "<ISO 8601>" |} in
  providers w0 !! 0%nat = Some c
  ∧ cache_hit c w0 = None
  ∧ @getFrames coarse_dates 0 w0 = (inr [f], warm_world)
  ∧ [f] !! 0%nat = Some f
  ∧ ∃ h ps (j : nat) path g,
      providers warm_world !! 0%nat
        = Some {| config := config c; cachedHost := Some h; cachedPaths := Some ps |}
      ∧ (j ≤ 0)%nat
      ∧ [f] !! j = Some g
      ∧ (t g == t f)%Q
      ∧ ps !! j = Some path
      ∧ getTileUrlTemplate 0 f warm_world = (inr (tileTemplateFor h path), warm_world)
      ∧ ((∀ (k : nat) x, (k < 0)%nat → [f] !! k = Some x → ¬ (t x == t f)%Q) → j = 0%nat).
Proof.
  intros w0 c f.
  assert (Hp : providers w0 !! 0%nat = Some c) by (vm_compute; reflexivity).
  assert (Hm : cache_hit c w0 = None) by (vm_compute; reflexivity).
  assert (Hg : @getFrames coarse_dates 0 w0 = (inr [f], warm_world))
    by (vm_compute; reflexivity).
  assert (Hi : [f] !! 0%nat = Some f) by reflexivity.
  split; [exact Hp|]. split; [exact Hm|]. split; [exact Hg|]. split; [exact Hi|].
  exact (@returned_frames_have_templates coarse_dates 0%nat c w0 warm_world [f]
           0%nat f Hp Hm Hg Hi).
Defined.

Lemma unknown_frame_falls_back_witness :
  let w0 := (createRainViewerProvider no_opts
               (initial_world
                  {| now := 0; upstream := [Response true 200 (Some good_manifest)];
                     fetchLog := [] |})).2 in
  let c := {| config := config_of no_opts; cachedHost := None; cachedPaths := None |} in
  let f := {| t := 1; iso := "<ISO 8601>" |} in
  let stranger := {| t := 99; iso := "<ISO 8601>" |} in
  providers w0 !! 0%nat = Some c
  ∧ cache_hit c w0 = None
  ∧ @getFrames coarse_dates 0 w0 = (inr [f], warm_world)
  ∧ (∀ x, x ∈ [f] → ¬ (t x == t stranger)%Q)
  ∧ getTileUrlTemplate 0 stranger warm_world
    = (inr "https://h/v2/a1/256/{z}/{x}/{y}/2/1_1.png", warm_world).
Proof.
  intros w0 c f stranger.
  assert (Hp : providers w0 !! 0%nat = Some c) by (vm_compute; reflexivity).
  assert (Hm : cache_hit c w0 = None) by (vm_compute; reflexivity).
  assert (Hg : @getFrames coarse_dates 0 w0 = (inr [f], warm_world))
    by (vm_compute; reflexivity).
  assert (Hn : ∀ x, x ∈ [f] → ¬ (t x == t stranger)%Q).
  { intros x Hx. apply list_elem_of_singleton in Hx as ->. by vm_compute. }
  split; [exact Hp|]. split; [exact Hm|]. split; [exact Hg|]. split; [exact Hn|].
  destruct (@unknown_frame_falls_back coarse_dates 0%nat c w0 warm_world [f]
              stranger Hp Hm Hg Hn) as [_ Hfb].
  destruct Hfb as (h & ps & path & Hc & Hpath & Hcall); [done|].
  rewrite Hcall. f_equal. f_equal.
  assert (Hw : providers warm_world !! 0%nat = Some warm_closure)
    by (vm_compute; reflexivity).
  rewrite Hw in Hc. injection Hc as <- <-. simpl in Hpath. injection Hpath as <-.
  reflexivity.
Defined.

End ProviderExamples.

Section TemplateMore.
Import Env.

Lemma append_assoc (a b c : string) : (a +:+ b) +:+ c = a +:+ b +:+ c.
Proof.
  induction a as [|x a IH]; [done|]. rewrite !append_String. by f_equal.
Qed.

Lemma occurs_in_prefixed (tok a s : string) :
  occurs_in tok s → occurs_in tok (a +:+ s).
Proof.
  intros (x & y & ->). exists (a +:+ x), y. by rewrite append_assoc.
Qed.

Lemma suffix_has_placeholders :
  occurs_in "{z}" "/256/{z}/{x}/{y}/2/1_1.png"
  ∧ occurs_in "{x}" "/256/{z}/{x}/{y}/2/1_1.png"
  ∧ occurs_in "{y}" "/256/{z}/{x}/{y}/2/1_1.png".
Proof. rewrite <- !includes_occurs. by vm_compute. Qed.

(** X18.  Each of the two builders returns a template that holds the three
    placeholders {z}, {x} and {y}, whatever the host and the path; the
    template of the provider starts with the host as given. *)
Theorem templates_hold_placeholders (host path : string) :
  (occurs_in "{z}" (RainViewer.tileTemplateFor host path)
   ∧ occurs_in "{x}" (RainViewer.tileTemplateFor host path)
   ∧ occurs_in "{y}" (RainViewer.tileTemplateFor host path)
   ∧ ∃ rest, RainViewer.tileTemplateFor host path = host +:+ rest)
  ∧ (occurs_in "{z}" (RadarIem.buildRainViewerTileTemplate host path)
     ∧ occurs_in "{x}" (RadarIem.buildRainViewerTileTemplate host path)
     ∧ occurs_in "{y}" (RadarIem.buildRainViewerTileTemplate host path)).
Proof.
  destruct suffix_has_placeholders as (Hz & Hx & Hy). split.
  - unfold RainViewer.tileTemplateFor.
    destruct (includes "{z}" path && includes "{x}" path && includes "{y}" path)
      eqn:Hall.
    + apply andb_true_iff in Hall as [Hzx Hy']. apply andb_true_iff in Hzx as [Hz' Hx'].
      apply includes_occurs in Hz', Hx', Hy'.
      repeat split; try (by apply occurs_in_prefixed). by eexists.
    + repeat split; try (by do 2 apply occurs_in_prefixed). by eexists.
  - unfold RadarIem.buildRainViewerTileTemplate.
    repeat split; by do 2 apply occurs_in_prefixed.
Qed.

End TemplateMore.

Section FetchSafety.
Import Env RainViewer.
Context `{DateLib}.

Lemma sorted_times {A} (l : list (Q * A)) :
  StronglySorted not_later l → StronglySorted Qle (l.*1).
Proof.
  induction 1 as [|x l Hl IH Hx]; [constructor|].
  rewrite fmap_cons. constructor; [exact IH|].
  apply Forall_fmap. eapply Forall_impl; [exact Hx|]. by intros y Hy.
Qed.

(** X19.  Whatever the response, a frame list that fetchFrames returns has
    one path per frame, at most maxFrames frames (none when maxFrames is zero
    or negative), times in ascending order and a non-empty host; the call has
    fetched the manifest URL exactly once and changed nothing else. *)
Theorem fetched_frames_are_bounded (cfg : Config) (w w' : World) (r : Fetched) :
  fetchFrames cfg w = (inr r, w') →
  length (paths r) = length (frames r)
  ∧ (length (frames r) ≤ Z.to_nat (maxFrames cfg))%nat
  ∧ StronglySorted Qle (t <$> frames r)
  ∧ fhost r ≠ ""
  ∧ w' = with_env (fetched MAPS_JSON (env w)) w.
Proof.
  intros Hf.
  assert (H1 : (fetchFrames cfg w).1 = inr r) by (by rewrite Hf).
  assert (H2 : (fetchFrames cfg w).2 = w') by (by rewrite Hf).
  rewrite fetchFrames_world in H2.
  apply fetchFrames_inr in H1 as (st & rest & d & Hup & Hh & Hne & Hfs & Hps).
  apply toFrames_times in Hfs.
  assert (Hlen : length (frames r)
                 = length (keep_last (maxFrames cfg) (combined_of cfg d))).
  { apply (f_equal length) in Hfs. by rewrite !length_fmap in Hfs. }
  split; [by rewrite Hps, length_fmap|]. split.
  - rewrite Hlen. unfold keep_last. rewrite length_drop. lia.
  - split; [|by split].
    rewrite Hfs. apply sorted_times. unfold keep_last. apply sorted_drop.
    apply sort_by_time_sorted.
Qed.

End FetchSafety.

Section FetchSafetyExamples.
Import Env RainViewer Examples.

Lemma fetched_frames_are_bounded_witness :
  let cfg := {| ttlMs := 60000; includeNowcast := true; maxFrames := 0; maxZoom := 10 |} in
  let w := initial_world
             {| now := 0; upstream := [Response true 200 (Some good_manifest)];
                fetchLog := [] |} in
  let r := {| frames := []; fhost := "https://h"; paths := [] |} in
  let w' := with_env (fetched MAPS_JSON (env w)) w in
  @fetchFrames coarse_dates cfg w = (inr r, w')
  ∧ length (paths r) = length (frames r)
  ∧ (length (frames r) ≤ Z.to_nat (maxFrames cfg))%nat.
Proof.
  intros cfg w r w'.
  assert (Hf : @fetchFrames coarse_dates cfg w = (inr r, w')) by (vm_compute; reflexivity).
  split; [exact Hf|].
  destruct (@fetched_frames_are_bounded coarse_dates cfg w w' r Hf) as (Ha & Hb & _).
  split; [exact Ha|exact Hb].
Defined.

End FetchSafetyExamples.

(** ** The adapter of radarIem.ts: one manifest for frames and tiles *)
Section SharedManifest.
Import Env RadarIem.
Context `{DateLib}.

(** X20.  After fetchRainViewerFrames has fetched a manifest, every call made
    less than 60 seconds later is served from that same manifest without a
    fetch: fetchRainViewerFrames returns the same frames, and
    buildRainViewerTileUrlForFrame builds the tile URL from the host of that
    manifest; when that manifest has no host, it fails with "missing host"
    each time, still without a new fetch. *)
Theorem tiles_use_cached_manifest (w w1 : World) (scans : list RadarScan) :
  cache_hit w = None →
  fetchRainViewerFrames w = (inr scans, w1) →
  ∃ d,
    RV_CACHE w1 = {| at_ := now (env w); data := Some d |}
    ∧ fetchLog (env w1) = WEATHER_MAPS_JSON :: fetchLog (env w)
    ∧ ∀ t1 net framePath,
        t1 - now (env w) < 60000 →
        fetchRainViewerFrames (later t1 net w1) = (inr scans, later t1 net w1)
        ∧ buildRainViewerTileUrlForFrame framePath (later t1 net w1)
          = (match host d with
             | Some h =>
                 if Js.truthy_str (Some h)
                 then inr (buildRainViewerTileTemplate h framePath, "RainViewer")
                 else inl MissingHost
             | None => inl MissingHost
             end, later t1 net w1).
Proof.
  intros Hm Hf. unfold fetchRainViewerFrames in Hf.
  rewrite (rv_fetch_miss w Hm) in Hf. cbn zeta in Hf.
  destruct (fetch_json WEATHER_MAPS_JSON (env w)).1 as [e|d] eqn:Hj; [done|].
  injection Hf as Hscans <-. exists d. split; [done|]. split; [done|].
  intros t1 net framePath Hyoung.
  set (wl := later t1 net _).
  assert (Hhit : cache_hit wl = Some d).
  { unfold cache_hit, wl. cbn [later RV_CACHE data at_ env now].
    destruct (Z.ltb_spec (t1 - now (env w)) RV_TTL_MS); [done|].
    unfold RV_TTL_MS in *. lia. }
  split.
  - unfold fetchRainViewerFrames. rewrite (rv_fetch_hit wl d Hhit). by rewrite Hscans.
  - unfold buildRainViewerTileUrlForFrame. rewrite (rv_fetch_hit wl d Hhit).
    destruct (host d) as [h|]; [|done]. by destruct (Js.truthy_str (Some h)).
Qed.

End SharedManifest.

Section SharedManifestExamples.
Import Env RadarIem Examples.

Lemma tiles_use_cached_manifest_witness :
  let w := initial_world
             {| now := 5; upstream := [Response true 200 (Some hostless_manifest)];
                fetchLog := [] |} in
  let scans := [ {| iso := "<ISO 8601>"; stamp := "/v2/b2" |} ] in
  let w1 := (@fetchRainViewerFrames coarse_dates w).2 in
  cache_hit w = None
  ∧ @fetchRainViewerFrames coarse_dates w = (inr scans, w1)
  ∧ buildRainViewerTileUrlForFrame "/v2/b2" (later 60004 [] w1)
    = (inl MissingHost, later 60004 [] w1)
  ∧ fetchLog (env (later 60004 [] w1)) = [WEATHER_MAPS_JSON].
Proof.
  intros w scans w1.
  assert (Hm : cache_hit w = None) by reflexivity.
  assert (Hf : @fetchRainViewerFrames coarse_dates w = (inr scans, w1))
    by (vm_compute; reflexivity).
  split; [exact Hm|]. split; [exact Hf|].
  destruct (@tiles_use_cached_manifest coarse_dates w w1 scans Hm Hf)
    as (d & Hc & Hlog & Hserve).
  assert (Hd : d = hostless_manifest).
  { assert (Hc' : RV_CACHE w1 = {| at_ := 5; data := Some hostless_manifest |})
      by (vm_compute; reflexivity).
    rewrite Hc' in Hc. by injection Hc as <-. }
  subst d. destruct (Hserve 60004 [] "/v2/b2") as [_ Hb]; [simpl; lia|].
  split; [exact Hb|]. exact Hlog.
Defined.

End SharedManifestExamples.

(** ** The layer choice and the fallback frames of radarIem.ts *)
Section LayerChoice.
Import Js RadarLayer.

Lemma ge_Fin (a b : Q) : ge (Fin a) (Fin b) = true ↔ (b <= a)%Q.
Proof. unfold ge. cbn [isNaN orb negb andb]. rewrite negb_true_iff. apply not_lt_Fin. Qed.

(** X21.  resolveRadarLayer always chooses the RainViewer provider with tile
    zoom 10 and an empty tile URL, and the point plays no part in the choice.
    The tier is local exactly from the threshold localMinZoom on: it is
    monotone in the zoom; a zoom that is not a finite number counts as zoom 4;
    against a threshold that is NaN the tier is national. *)
Theorem radar_layer_choice
    (lat lon lat' lon' : number) (opts : ResolveOpts) (z z' m : Q) :
  let at_zoom (x : number) (th : number) :=
    {| zoom := x; opt_product := opt_product opts; localMinZoom := th;
       maxLocalDistanceKm := maxLocalDistanceKm opts;
       nationalTimestamp := nationalTimestamp opts |} in
  choice_provider (resolveRadarLayer lat lon opts) = rainviewer
  ∧ maxTileZoom (resolveRadarLayer lat lon opts) = 10
  ∧ tileUrl (resolveRadarLayer lat lon opts) = ""
  ∧ resolveRadarLayer lat lon opts = resolveRadarLayer lat' lon' opts
  ∧ (choice_tier (resolveRadarLayer lat lon (at_zoom (Fin z) (Fin m))) = local
     ↔ (m <= z)%Q)
  ∧ ((z <= z')%Q →
     choice_tier (resolveRadarLayer lat lon (at_zoom (Fin z) (Fin m))) = local →
     choice_tier (resolveRadarLayer lat lon (at_zoom (Fin z') (Fin m))) = local)
  ∧ (∀ x th, isFinite x = false →
       resolveRadarLayer lat lon (at_zoom x th)
       = resolveRadarLayer lat lon (at_zoom (Fin 4) th))
  ∧ (∀ x, choice_tier (resolveRadarLayer lat lon (at_zoom x NaN)) = national).
Proof.
  cbn zeta.
  assert (Htier : ∀ a b, choice_tier
                    (resolveRadarLayer lat lon
                       {| zoom := Fin a; opt_product := opt_product opts;
                          localMinZoom := Fin b;
                          maxLocalDistanceKm := maxLocalDistanceKm opts;
                          nationalTimestamp := nationalTimestamp opts |}) = local
                  ↔ (b <= a)%Q).
  { intros a b. unfold resolveRadarLayer.
    cbn [zoom localMinZoom isFinite choice_tier]. rewrite <- ge_Fin.
    destruct (ge (Fin a) (Fin b)); split; done. }
  split; [done|]. split; [done|]. split; [done|]. split; [done|].
  split; [apply Htier|]. split.
  - intros Hzz Hl. apply Htier. apply Htier in Hl. by eapply Qle_trans.
  - split.
    + intros x th Hx. unfold resolveRadarLayer. cbn [zoom localMinZoom]. by rewrite Hx.
    + intros x. unfold resolveRadarLayer. cbn [zoom localMinZoom choice_tier].
      unfold ge. cbn [isNaN]. by rewrite orb_true_r.
Qed.

End LayerChoice.

Section FallbackFrames.
Import Env RadarLayer.
Context `{DateLib} `{UtcFields}.

Lemma minutes_loop_neg (step m : Z) : m < 0 → minutes_loop step m = [].
Proof.
  intros Hm. rewrite minutes_loop_equation_1.
  destruct (Z_lt_dec m 0); [reflexivity|lia].
Qed.

Lemma minutes_loop_nonneg (step m : Z) :
  0 ≤ m → minutes_loop step m = m :: minutes_loop step (m - Z.max 1 step).
Proof.
  intros Hm. rewrite minutes_loop_equation_1.
  destruct (Z_lt_dec m 0); [lia|reflexivity].
Qed.

(** The loop counts down from [m] in steps of [s = max 1 step]: entry [k] is
    [m - k * s], and there are [m / s + 1] entries. *)
Lemma minutes_loop_entries (step : Z) (n : nat) :
  ∀ m, (Z.to_nat (m + 1) ≤ n)%nat → 0 ≤ m →
    Z.of_nat (length (minutes_loop step m)) = m / Z.max 1 step + 1
    ∧ ∀ (k : nat) x, minutes_loop step m !! k = Some x →
        x = m - Z.of_nat k * Z.max 1 step ∧ 0 ≤ x.
Proof.
  set (s := Z.max 1 step). assert (Hs : 1 ≤ s) by (unfold s; lia).
  induction n as [|n IH]; intros m Hn Hm; [lia|].
  rewrite minutes_loop_nonneg by done. fold s.
  destruct (Z_lt_dec (m - s) 0) as [Hend|Hmore].
  - rewrite minutes_loop_neg by done. split.
    + simpl. rewrite Z.div_small by lia. done.
    + intros [|k] x; simpl; [intros [= <-]; lia|done].
  - destruct (IH (m - s)) as [Hlen Hent]; [lia|lia|]. split.
    + rewrite length_cons, Nat2Z.inj_succ, Hlen.
      replace m with (m - s + 1 * s) at 2 by lia.
      rewrite Z.div_add by lia. lia.
    + intros [|k] x; simpl; [intros [= <-]; lia|].
      intros Hx. destruct (Hent k x Hx) as [-> Hx0]. split; [lia|done].
Qed.

Lemma push_scans_shape (now : Z) (ms : list Z) :
  Forall (λ m, is_Some (toISOString ((now - m * 60000) # 1000))) ms →
  ∃ fs, push_scans now ms = inr fs
        ∧ length fs = length ms
        ∧ ∀ (k : nat) f, fs !! k = Some f →
            ∃ m, ms !! k = Some m
                 ∧ toISOString ((now - m * 60000) # 1000) = Some (RadarIem.iso f)
                 ∧ RadarIem.stamp f = stamp_of (now - m * 60000).
Proof.
  induction 1 as [|m ms [s Hs] _ (fs & Hfs & Hlen & Hent)]; simpl.
  - exists []. by repeat split.
  - rewrite Hs, Hfs. eexists. split; [reflexivity|]. split; [simpl; by rewrite Hlen|].
    intros [|k] f; simpl; [|apply Hent].
    intros [= <-]. exists m. by repeat split.
Qed.

(** X22.  buildLocalFallbackFramesUTC never returns an empty list: it looks
    back at least 5 minutes in steps of at least 1 minute, so with
    [mb = max 5 minutesBack] and [s = max 1 stepMinutes], and when the times
    of the window are dates, it returns [mb / s + 1] frames; frame [k] is the
    frame of [mb - k * s] minutes ago, so the frames run from the oldest to
    the newest and the newest is less than one step old. *)
Theorem fallback_frames_never_empty (minutesBack stepMinutes now : Z) :
  let mb := Z.max 5 minutesBack in
  let s := Z.max 1 stepMinutes in
  (∀ t, now - mb * 60000 ≤ t ≤ now → is_Some (toISOString (t # 1000))) →
  ∃ fs, buildLocalFallbackFramesUTC minutesBack stepMinutes now = inr fs
        ∧ fs ≠ []
        ∧ Z.of_nat (length fs) = mb / s + 1
        ∧ (∀ (k : nat) f, fs !! k = Some f →
             let ago := mb - Z.of_nat k * s in
             0 ≤ ago ≤ mb
             ∧ toISOString ((now - ago * 60000) # 1000) = Some (RadarIem.iso f)
             ∧ RadarIem.stamp f = stamp_of (now - ago * 60000))
        ∧ (∃ f, last fs = Some f
                ∧ toISOString ((now - (mb mod s) * 60000) # 1000)
                  = Some (RadarIem.iso f)).
Proof.
  intros mb s Hd. assert (Hmb : 5 ≤ mb) by (unfold mb; lia).
  assert (Hs : 1 ≤ s) by (unfold s; lia).
  destruct (minutes_loop_entries s (Z.to_nat (mb + 1)) mb) as [Hlen Hent];
    [lia|lia|]. rewrite (Z.max_r 1 s) in Hlen, Hent by lia.
  assert (Hq : 0 ≤ mb / s) by (apply Z.div_pos; lia).
  assert (Hmod : mb mod s = mb - s * (mb / s)) by (apply Z.mod_eq; lia).
  rewrite Hmod. set (q := mb / s) in *. clearbody q.
  destruct (push_scans_shape now (minutes_loop s mb)) as (fs & Hfs & Hl & Hf).
  { apply Forall_forall. intros m Hm. apply list_elem_of_lookup in Hm as [k Hk].
    destruct (Hent k m Hk) as [-> Hx0]. apply Hd.
    assert (0 ≤ Z.of_nat k * s) by (apply Z.mul_nonneg_nonneg; lia). lia. }
  assert (Hentry : ∀ (k : nat) f, fs !! k = Some f →
            0 ≤ mb - Z.of_nat k * s ≤ mb
            ∧ toISOString ((now - (mb - Z.of_nat k * s) * 60000) # 1000)
              = Some (RadarIem.iso f)
            ∧ RadarIem.stamp f = stamp_of (now - (mb - Z.of_nat k * s) * 60000)).
  { intros k f Hk. destruct (Hf k f Hk) as (m & Hm & Hiso & Hst).
    destruct (Hent k m Hm) as [-> Hx0].
    assert (0 ≤ Z.of_nat k * s) by (apply Z.mul_nonneg_nonneg; lia).
    split; [lia|by split]. }
  exists fs. unfold buildLocalFallbackFramesUTC. fold mb s.
  split; [exact Hfs|]. split; [|split; [|split; [exact Hentry|]]].
  - intros ->. simpl in Hl. lia.
  - rewrite Hl. exact Hlen.
  - rewrite last_lookup.
    destruct (fs !! Nat.pred (length fs)) as [f|] eqn:Hlast.
    + exists f. split; [done|]. destruct (Hentry _ f Hlast) as (_ & Hiso & _).
      rewrite <- Hiso. f_equal. f_equal.
      replace (Z.of_nat (Nat.pred (length fs))) with q by lia. lia.
    + apply lookup_ge_None in Hlast. lia.
Qed.

End FallbackFrames.

Section FallbackFramesExamples.
Import Env RadarLayer.

Lemma fallback_frames_never_empty_witness :
  (∀ t, 1700000000000 - Z.max 5 0 * 60000 ≤ t ≤ 1700000000000 →
        is_Some (@toISOString coarse_dates (t # 1000)))
  ∧ ∃ fs, @buildLocalFallbackFramesUTC coarse_dates gregorian_fields 0 0 1700000000000
          = inr fs
          ∧ fs ≠ []
          ∧ Z.of_nat (length fs) = 6
          ∧ (∃ f, fs !! 0%nat = Some f ∧ RadarIem.stamp f = "202311142208")
          ∧ (∃ f, last fs = Some f ∧ RadarIem.stamp f = "202311142213").
Proof.
  assert (H1 : ∀ t, 1700000000000 - Z.max 5 0 * 60000 ≤ t ≤ 1700000000000 →
                    is_Some (@toISOString coarse_dates (t # 1000))).
  { intros t Ht. unfold toISOString, coarse_dates.
    assert (Hlo : Qle_bool (- 8640000000000000) ((t # 1000) * 1000) = true).
    { apply Qle_bool_iff. unfold Qle. simpl. lia. }
    assert (Hhi : Qle_bool ((t # 1000) * 1000) 8640000000000000 = true).
    { apply Qle_bool_iff. unfold Qle. simpl. lia. }
    rewrite Hlo, Hhi. by eexists. }
  split; [exact H1|].
  destruct (@fallback_frames_never_empty coarse_dates gregorian_fields 0 0
              1700000000000 H1) as (fs & Hfs & Hne & Hlen & _ & _).
  exists fs. split; [exact Hfs|]. split; [exact Hne|]. split; [exact Hlen|].
  vm_compute in Hfs. injection Hfs as <-. split; eexists; split; reflexivity.
Defined.

End FallbackFramesExamples.

(** ** The nearest radar under a filter and a distance limit *)

Section NearestFacts.
Import Js Geo Invariants.
Context `{FloatOps}.

Lemma scan_by_filter (flt : option (NexradSite → bool)) (lat0 lon0 : number)
    (registry : list NexradSite) :
  scanned_by flt lat0 lon0 registry
    (fold_left (scan_step lat0 lon0 flt) registry (None, PosInf)).
Proof.
  induction registry as [|x pre IH] using rev_ind.
  - split; [|done]. intros s Hs. by apply elem_of_nil in Hs.
  - rewrite fold_left_app. cbn [fold_left].
    destruct (fold_left (scan_step lat0 lon0 flt) pre (None, PosInf)) as [bs bd].
    destruct IH as [Hmin Hbest]. cbn [fst snd] in *.
    unfold scan_step. cbn [snd]. destruct (candidate flt x) eqn:Hc.
    + destruct (lt (distance_from lat0 lon0 x) bd) eqn:Hlt.
      * split; cbn [fst snd].
        -- intros s [Hs|Hs]%elem_of_app Hcs.
           ++ eapply lt_below; [exact Hlt|]. by apply Hmin.
           ++ apply list_elem_of_singleton in Hs as ->. apply lt_irrefl.
        -- split; [apply elem_of_app; right; by apply list_elem_of_singleton|].
           split; [done|]. split; [done|]. by eapply lt_below_inf.
      * split; cbn [fst snd].
        -- intros s [Hs|Hs]%elem_of_app Hcs; [by apply Hmin|].
           by apply list_elem_of_singleton in Hs as ->.
        -- destruct bs; [|done]. destruct Hbest as (Hb & Hrest).
           split; [apply elem_of_app; by left|done].
    + split; cbn [fst snd].
      * intros s [Hs|Hs]%elem_of_app Hcs; [by apply Hmin|].
        apply list_elem_of_singleton in Hs as ->. congruence.
      * destruct bs; [|done]. destruct Hbest as (Hb & Hrest).
        split; [apply elem_of_app; by left|done].
Qed.

Lemma resolveNearestRadar_Some (registry : list NexradSite) (lat0 lon0 : number)
    (opts : ResolveNearestRadarOptions) (r : NearestRadarResult) :
  resolveNearestRadar registry lat0 lon0 opts = Some r →
  isFinite lat0 = true ∧ isFinite lon0 = true
  ∧ lt lat0 (Fin (-90)) = false ∧ gt lat0 (Fin 90) = false
  ∧ lt lon0 (Fin (-180)) = false ∧ gt lon0 (Fin 180) = false
  ∧ site r ∈ registry
  ∧ candidate (filter opts) (site r) = true
  ∧ distanceKm r = distance_from lat0 lon0 (site r)
  ∧ isFinite (distanceKm r) = true
  ∧ (∀ m, maxDistanceKm opts = Some m → isFinite m = true →
          gt (distanceKm r) m = false)
  ∧ (∀ s, s ∈ registry → candidate (filter opts) s = true →
          lt (distance_from lat0 lon0 s) (distanceKm r) = false).
Proof.
  unfold resolveNearestRadar.
  destruct (isFinite lat0) eqn:Hlat; [|done].
  destruct (isFinite lon0) eqn:Hlon; [|done]. cbn [negb orb].
  destruct (lt lat0 (Fin (-90))) eqn:H1; [done|].
  destruct (gt lat0 (Fin 90)) eqn:H2; [done|].
  destruct (lt lon0 (Fin (-180))) eqn:H3; [done|].
  destruct (gt lon0 (Fin 180)) eqn:H4; [done|]. cbn [orb].
  pose proof (scan_by_filter (filter opts) lat0 lon0 registry) as [Hmin Hbest].
  destruct (fold_left (scan_step lat0 lon0 (filter opts)) registry (None, PosInf))
    as [bs bd].
  cbn [fst snd] in *. destruct bs as [b|]; [|done].
  destruct Hbest as (Hb & Hcb & Hbd & _).
  destruct (isFinite bd) eqn:Hfin; [|done]. cbn [negb].
  destruct (match maxDistanceKm opts with
            | Some m => isFinite m && gt bd m
            | None => false
            end) eqn:Hfar; [done|].
  intros [= <-]. cbn [site distanceKm].
  do 6 (split; [done|]). do 4 (split; [done|]). split; [|exact Hmin].
  intros m Hm Hmf. rewrite Hm, Hmf in Hfar. exact Hfar.
Qed.

(** X23.  A site that resolveNearestRadar returns, under any filter and any
    maxDistanceKm, is a site of the registry with finite coordinates that the
    filter accepts; the point asked about is a latitude and longitude in
    range; the reported distance is the haversine distance to the site, it is
    finite and within a finite maxDistanceKm, and no site that takes part in
    the scan is nearer. *)
Theorem nearest_radar_respects_options (registry : list NexradSite)
    (lat0 lon0 : number) (opts : ResolveNearestRadarOptions)
    (r : NearestRadarResult) :
  resolveNearestRadar registry lat0 lon0 opts = Some r →
  ∃ la lo d,
    lat0 = Fin la ∧ lon0 = Fin lo
    ∧ (-90 <= la <= 90)%Q ∧ (-180 <= lo <= 180)%Q
    ∧ site r ∈ registry
    ∧ isFinite (lat (site r)) = true ∧ isFinite (lon (site r)) = true
    ∧ (∀ f, filter opts = Some f → f (site r) = true)
    ∧ distance_from lat0 lon0 (site r) = Fin d
    ∧ distanceKm r = Fin d
    ∧ (∀ m, maxDistanceKm opts = Some (Fin m) → (d <= m)%Q)
    ∧ (∀ s ds, s ∈ registry → candidate (filter opts) s = true →
               distance_from lat0 lon0 s = Fin ds → (d <= ds)%Q).
Proof.
  intros Hr. apply resolveNearestRadar_Some in Hr
    as (Hlat & Hlon & H1 & H2 & H3 & H4 & Hin & Hc & Hd & Hfin & Hmax & Hmin).
  destruct lat0 as [| |la|]; try done. destruct lon0 as [| |lo|]; try done.
  destruct (distanceKm r) as [| |d|] eqn:Hdk; try done.
  unfold gt in *. apply not_lt_Fin in H1, H2, H3, H4.
  unfold candidate in Hc. apply andb_true_iff in Hc as [Hc Hf].
  apply andb_true_iff in Hc as [Hc1 Hc2].
  exists la, lo, d. do 2 (split; [done|]). do 2 (split; [done|]).
  do 3 (split; [done|]). split.
  { intros f Hflt. by rewrite Hflt in Hf. }
  split; [done|]. split; [done|]. split.
  - intros m Hm. apply not_lt_Fin. by apply (Hmax (Fin m)).
  - intros s ds Hs Hcs Hds. apply not_lt_Fin. rewrite <- Hds. by apply Hmin.
Qed.

(** X24.  resolveNearestRadar returns null when no site of the registry
    takes part in the scan: the registry is empty, or every site has a
    coordinate that is not finite or is refused by the filter. *)
Theorem no_candidate_no_radar (registry : list NexradSite) (lat0 lon0 : number)
    (opts : ResolveNearestRadarOptions) :
  (∀ s, s ∈ registry → candidate (filter opts) s = false) →
  resolveNearestRadar registry lat0 lon0 opts = None.
Proof.
  intros Hnone. destruct (resolveNearestRadar registry lat0 lon0 opts) as [r|] eqn:Hr;
    [|done].
  apply resolveNearestRadar_Some in Hr as (_ & _ & _ & _ & _ & _ & Hin & Hc & _).
  rewrite (Hnone _ Hin) in Hc. done.
Qed.

(** X25.  With a finite maxDistanceKm, resolveNearestRadar returns null when
    every site that takes part in the scan is farther than the limit: it
    never falls back to a site beyond it. *)
Theorem distant_radars_are_rejected (registry : list NexradSite)
    (lat0 lon0 : number) (opts : ResolveNearestRadarOptions) (m : Q) :
  maxDistanceKm opts = Some (Fin m) →
  (∀ s, s ∈ registry → candidate (filter opts) s = true →
        gt (distance_from lat0 lon0 s) (Fin m) = true) →
  resolveNearestRadar registry lat0 lon0 opts = None.
Proof.
  intros Hm Hfar. destruct (resolveNearestRadar registry lat0 lon0 opts) as [r|] eqn:Hr;
    [|done].
  apply resolveNearestRadar_Some in Hr
    as (_ & _ & _ & _ & _ & _ & Hin & Hc & Hd & _ & Hmax & _).
  specialize (Hfar _ Hin Hc). rewrite <- Hd in Hfar.
  rewrite (Hmax (Fin m) Hm) in Hfar; done.
Qed.

(** X26.  An id that getLocalRadarId returns is the id of a site of the
    registry whose haversine distance from the point is finite and at most
    300 km, and no site with finite coordinates is nearer. *)
Theorem local_radar_within_300km (registry : list NexradSite) (lat0 lon0 : number)
    (i : string) :
  LocalRadar.getLocalRadarId registry lat0 lon0 = Some i →
  ∃ s d, s ∈ registry ∧ id s = i
         ∧ distance_from lat0 lon0 s = Fin d ∧ (d <= 300)%Q
         ∧ ∀ s' ds, s' ∈ registry → candidate None s' = true →
                    distance_from lat0 lon0 s' = Fin ds → (d <= ds)%Q.
Proof.
  unfold LocalRadar.getLocalRadarId.
  destruct (resolveNearestRadar registry lat0 lon0
              {| maxDistanceKm := Some (Fin 300); filter := None |}) as [r|] eqn:Hr;
    [|done].
  intros [= <-]. apply resolveNearestRadar_Some in Hr
    as (_ & _ & _ & _ & _ & _ & Hin & _ & Hd & Hfin & Hmax & Hmin).
  cbn [maxDistanceKm filter] in *.
  destruct (distanceKm r) as [| |d|] eqn:Hdk; try done.
  exists (site r), d. do 3 (split; [done|]). split.
  - apply not_lt_Fin. by apply (Hmax (Fin 300)).
  - intros s' ds Hs Hcs Hds. apply not_lt_Fin. rewrite <- Hds. by apply Hmin.
Qed.

End NearestFacts.

Section NearestExamples.
Import Js Geo.

Lemma nearest_radar_respects_options_witness :
  let registry := [KTLX; KFWS] in
  let opts := {| maxDistanceKm := Some (Fin 300);
                 filter := Some (λ s, String.eqb (id s) "KTLX") |} in
  ∃ r, @resolveNearestRadar small_angle_ops registry (Fin 33) (Fin (-97)) opts = Some r
       ∧ site r = KTLX
       ∧ ∃ d, distanceKm r = Fin d ∧ (d <= 300)%Q.
Proof.
  intros registry opts.
  destruct (@resolveNearestRadar small_angle_ops registry (Fin 33) (Fin (-97)) opts)
    as [r|] eqn:Hr; [|by vm_compute in Hr].
  exists r. split; [reflexivity|].
  destruct (@nearest_radar_respects_options small_angle_ops registry (Fin 33)
              (Fin (-97)) opts r Hr)
    as (la & lo & d & _ & _ & _ & _ & Hin & _ & _ & Hf & _ & Hd & Hmax & _).
  split.
  - specialize (Hf _ eq_refl). apply elem_of_cons in Hin as [Hin|Hin]; [done|].
    apply list_elem_of_singleton in Hin. rewrite Hin in Hf. by vm_compute in Hf.
  - exists d. split; [exact Hd|]. by apply Hmax.
Defined.

Lemma no_candidate_no_radar_witness :
  let registry := [KTLX; KFWS] in
  let opts := {| maxDistanceKm := None; filter := Some (λ _, false) |} in
  (∀ s, s ∈ registry → candidate (filter opts) s = false)
  ∧ @resolveNearestRadar small_angle_ops registry (Fin 33) (Fin (-97)) opts = None.
Proof.
  intros registry opts.
  assert (H1 : ∀ s, s ∈ registry → candidate (filter opts) s = false).
  { intros s Hs. apply elem_of_cons in Hs as [->|Hs]; [reflexivity|].
    apply list_elem_of_singleton in Hs as ->. reflexivity. }
  split; [exact H1|].
  exact (@no_candidate_no_radar small_angle_ops registry (Fin 33) (Fin (-97)) opts H1).
Defined.

Lemma distant_radars_are_rejected_witness :
  let registry := [KTLX; KFWS] in
  let opts := {| maxDistanceKm := Some (Fin 10); filter := None |} in
  maxDistanceKm opts = Some (Fin 10)
  ∧ (∀ s, s ∈ registry → candidate (filter opts) s = true →
          gt (@distance_from small_angle_ops (Fin 33) (Fin (-97)) s) (Fin 10) = true)
  ∧ @resolveNearestRadar small_angle_ops registry (Fin 33) (Fin (-97)) opts = None.
Proof.
  intros registry opts.
  assert (H1 : maxDistanceKm opts = Some (Fin 10)) by reflexivity.
  assert (H2 : ∀ s, s ∈ registry → candidate (filter opts) s = true →
                 gt (@distance_from small_angle_ops (Fin 33) (Fin (-97)) s) (Fin 10)
                 = true).
  { intros s Hs _. apply elem_of_cons in Hs as [->|Hs]; [by vm_compute|].
    apply list_elem_of_singleton in Hs as ->. by vm_compute. }
  split; [exact H1|]. split; [exact H2|].
  exact (@distant_radars_are_rejected small_angle_ops registry (Fin 33) (Fin (-97))
           opts 10 H1 H2).
Defined.

Lemma local_radar_within_300km_witness :
  let registry := [KTLX; KFWS] in
  @LocalRadar.getLocalRadarId small_angle_ops registry (Fin 33) (Fin (-97)) = Some "KFWS"
  ∧ ∃ s d, s ∈ registry ∧ id s = "KFWS"
           ∧ @distance_from small_angle_ops (Fin 33) (Fin (-97)) s = Fin d
           ∧ (d <= 300)%Q
           ∧ ∀ s' ds, s' ∈ registry → candidate None s' = true →
                      @distance_from small_angle_ops (Fin 33) (Fin (-97)) s' = Fin ds →
                      (d <= ds)%Q.
Proof.
  intros registry.
  assert (H1 : @LocalRadar.getLocalRadarId small_angle_ops registry (Fin 33) (Fin (-97))
               = Some "KFWS") by (by vm_compute).
  split; [exact H1|].
  exact (@local_radar_within_300km small_angle_ops registry (Fin 33) (Fin (-97))
           "KFWS" H1).
Defined.

End NearestExamples.

(** ** The animated radar hook *)

Section AnimatedFacts.
Import Iem AnimatedRadar Invariants.

Lemma wrap_index_mod (targetIndex len : Z) :
  0 < len → wrap_index targetIndex len = targetIndex mod len.
Proof.
  intros Hlen. unfold wrap_index.
  pose proof (Z.rem_bound_abs targetIndex len ltac:(lia)) as Hb.
  pose proof (Z.quot_rem' targetIndex len) as Hqr.
  set (r := Z.rem targetIndex len) in *. set (q := targetIndex ÷ len) in *.
  clearbody r q.
  rewrite Z.rem_mod_nonneg by lia.
  replace (r + len) with (targetIndex + (1 - q) * len) by lia.
  apply Z.mod_add. lia.
Qed.

Lemma frame_at_in_range (frames : list IemFrame) (i : Z) :
  0 ≤ i < Z.of_nat (length frames) →
  ∃ f, frames !! Z.to_nat i = Some f ∧ frame_at frames i = Some f.
Proof.
  intros Hi. destruct (lookup_lt_is_Some_2 frames (Z.to_nat i)) as [f Hf]; [lia|].
  exists f. split; [done|]. unfold frame_at.
  destruct (Z.ltb_spec i 0); [lia|done].
Qed.

Lemma fade_tick_step (opacity : Q) (d : direction) (i : Z) (h : Hook) :
  fadeTimer h = Some (d, i) →
  let h1 := fade_tick opacity h in
  frameIndex h1 = frameIndex h ∧ templateA h1 = templateA h
  ∧ templateB h1 = templateB h ∧ isPlaying h1 = isPlaying h
  ∧ (i + 1 < 10 → fadeTimer h1 = Some (d, i + 1) ∧ front h1 = front h)
  ∧ (i + 1 = 10 →
     fadeTimer h1 = None
     ∧ front h1 = match d with AtoB => B | BtoA => A end
     ∧ (shown_opacity h1 == opacity)%Q ∧ (hidden_opacity h1 == 0)%Q).
Proof.
  intros Hft. unfold fade_tick. rewrite Hft. unfold steps.
  destruct (Z.leb_spec 10 (i + 1)) as [Hge|Hlt].
  - destruct d; cbn; (do 4 (split; [reflexivity|])); (split; [lia|]);
      intros ->; unfold shown_opacity, hidden_opacity; cbn;
      (repeat split; try reflexivity; field).
  - destruct d; cbn; (do 4 (split; [reflexivity|])); (split; [done|lia]).
Qed.

Lemma fade_runs (opacity : Q) (d : direction) (h : Hook) (n : nat) :
  (n < 10)%nat →
  fadeTimer (Nat.iter n (fade_tick opacity) (crossfade d h)) = Some (d, Z.of_nat n)
  ∧ front (Nat.iter n (fade_tick opacity) (crossfade d h)) = front h
  ∧ frameIndex (Nat.iter n (fade_tick opacity) (crossfade d h)) = frameIndex h
  ∧ templateA (Nat.iter n (fade_tick opacity) (crossfade d h)) = templateA h
  ∧ templateB (Nat.iter n (fade_tick opacity) (crossfade d h)) = templateB h
  ∧ isPlaying (Nat.iter n (fade_tick opacity) (crossfade d h)) = isPlaying h.
Proof.
  induction n as [|n IH]; intros Hn; [by cbn|].
  destruct IH as (Ht & Hf & Hi & HtA & HtB & Hp); [lia|]. rewrite !Nat.iter_succ.
  destruct (fade_tick_step opacity d (Z.of_nat n) _ Ht)
    as (Hi' & HtA' & HtB' & Hp' & Hrun & _). cbv zeta in *.
  destruct Hrun as [Ht' Hf']; [lia|].
  rewrite Ht', Hf', Hi', HtA', HtB', Hp'.
  replace (Z.of_nat (S n)) with (Z.of_nat n + 1) by lia. done.
Qed.

Lemma fade_runs_to_end (opacity : Q) (d : direction) (h : Hook) :
  let h' := Nat.iter 10 (fade_tick opacity) (crossfade d h) in
  fadeTimer h' = None
  ∧ front h' = match d with AtoB => B | BtoA => A end
  ∧ (shown_opacity h' == opacity)%Q ∧ (hidden_opacity h' == 0)%Q
  ∧ frameIndex h' = frameIndex h
  ∧ templateA h' = templateA h ∧ templateB h' = templateB h
  ∧ isPlaying h' = isPlaying h
  ∧ ∀ n, (n < 10)%nat →
         front (Nat.iter n (fade_tick opacity) (crossfade d h)) = front h.
Proof.
  intros h'. subst h'.
  destruct (fade_runs opacity d h 9) as (Ht & Hf & Hi & HtA & HtB & Hp); [lia|].
  rewrite !(Nat.iter_succ 9).
  destruct (fade_tick_step opacity d 9 _ Ht) as (Hi' & HtA' & HtB' & Hp' & _ & Hend).
  cbv zeta in *.
  destruct Hend as (Ht' & Hf' & Hs & Hh); [lia|].
  rewrite Hi', HtA', HtB', Hp'. do 4 (split; [done|]). do 4 (split; [done|]).
  intros n Hn. by destruct (fade_runs opacity d h n Hn) as (_ & Hfn & _).
Qed.

(** X27.  jumpTo on a non-empty frame list stores the target index reduced
    modulo the number of frames, also for a negative or too large target,
    loads the template of that frame into the layer behind and starts the
    fade; the ten firings of the fade timer then bring that layer to the
    front at the full opacity and the other one to 0, and until the tenth
    the front layer does not change. *)
Theorem jump_settles_on_target (frames : list IemFrame) (targetIndex : Z)
    (opacity : Q) (h : Hook) :
  frames ≠ [] →
  let len := Z.of_nat (length frames) in
  let h' := Nat.iter 10 (fade_tick opacity) (jumpTo frames targetIndex h) in
  frameIndex h' = targetIndex mod len
  ∧ 0 ≤ frameIndex h' < len
  ∧ (∃ f, frames !! Z.to_nat (targetIndex mod len) = Some f
          ∧ shown_template h' = iemFrameTemplate f)
  ∧ front h' = other (front h)
  ∧ fadeTimer h' = None
  ∧ (shown_opacity h' == opacity)%Q ∧ (hidden_opacity h' == 0)%Q
  ∧ ∀ n, (n < 10)%nat →
         front (Nat.iter n (fade_tick opacity) (jumpTo frames targetIndex h)) = front h.
Proof.
  intros Hne len h'.
  assert (Hlen : 0 < len) by (unfold len; destruct frames; [done|simpl; lia]).
  assert (Hidx : 0 ≤ targetIndex mod len < len) by (apply Z.mod_pos_bound; lia).
  destruct (frame_at_in_range frames (targetIndex mod len) Hidx) as (f & Hf & Hat).
  assert (Hjump : jumpTo frames targetIndex h
                  = crossfade (match front h with A => AtoB | B => BtoA end)
                      {| frameIndex := targetIndex mod len; front := front h;
                         isPlaying := isPlaying h; speedMs := speedMs h;
                         opacityA := opacityA h; opacityB := opacityB h;
                         templateA := match front h with
                                      | A => templateA h | B => iemFrameTemplate f end;
                         templateB := match front h with
                                      | A => iemFrameTemplate f | B => templateB h end;
                         fadeTimer := fadeTimer h |}).
  { unfold jumpTo. fold len. destruct (Z.eqb_spec len 0); [lia|].
    rewrite wrap_index_mod by lia. rewrite Hat. cbn [default].
    unfold load_back, with_frameIndex, crossfade. by destruct (front h). }
  subst h'. rewrite Hjump.
  match goal with
  | |- context [Nat.iter 10 (fade_tick opacity) (crossfade ?d ?h0)] =>
      destruct (fade_runs_to_end opacity d h0)
        as (Ht & Hfr & Hso & Hho & Hi & HtA & HtB & _ & Hbefore)
  end.
  cbn [frameIndex templateA templateB front] in *.
  split; [exact Hi|]. split; [by rewrite Hi|]. split.
  { exists f. split; [done|]. unfold shown_template. rewrite Hfr, HtA, HtB.
    by destruct (front h). }
  split; [rewrite Hfr; by destruct (front h)|].
  split; [done|]. split; [done|]. split; [done|]. exact Hbefore.
Qed.

Lemma fade_tick_ok (frames : list IemFrame) (opacity : Q) (h : Hook) :
  hook_ok frames h → hook_ok frames (fade_tick opacity h).
Proof.
  intros [Hi Ht]. unfold fade_tick. destruct (fadeTimer h) as [[d i]|] eqn:Hft.
  - specialize (Ht d i eq_refl). unfold hook_ok, steps in *.
    destruct d; (split; [exact Hi|]); cbn [fadeTimer]; intros d' i';
      destruct (Z.leb_spec 10 (i + 1)); try done; intros [= <- <-]; lia.
  - split; [exact Hi|]. intros d i. by rewrite Hft.
Qed.

Lemma load_back_timer (tpl : string) (h : Hook) :
  frameIndex (load_back tpl h) = frameIndex h
  ∧ ∃ d, fadeTimer (load_back tpl h) = Some (d, 0).
Proof. unfold load_back. destruct (front h); (split; [done|]); by eexists. Qed.

Lemma with_frameIndex_ok (frames : list IemFrame) (i : Z) (tpl : string) (h : Hook) :
  0 ≤ i < Z.of_nat (length frames) →
  hook_ok frames (with_frameIndex i (load_back tpl h)).
Proof.
  intros Hi. destruct (load_back_timer tpl h) as [_ [d Hd]].
  split; [exact Hi|]. cbn [with_frameIndex fadeTimer]. rewrite Hd.
  intros d' i' [= <- <-]. unfold steps. lia.
Qed.

(** X28.  Whatever is done to the hook over a non-empty frame list (calls of
    jumpTo with any target, firings of the playback interval and of the fade
    timer, in any order), the frame index stays an index of the frame list
    and a running fade timer has counted fewer than its ten steps. *)
Theorem hook_index_stays_valid (frames : list IemFrame) (enabled : bool)
    (intervalMs : Z) (opacity : Q) (evs : list hook_event) :
  frames ≠ [] →
  hook_ok frames
    (fold_left (hook_handle frames opacity) evs
               (initial enabled intervalMs opacity frames)).
Proof.
  intros Hne.
  assert (Hlen : 0 < Z.of_nat (length frames)) by (destruct frames; [done|simpl; lia]).
  assert (H0 : hook_ok frames (initial enabled intervalMs opacity frames)).
  { split; [simpl; lia|]. intros d i. done. }
  revert H0. generalize (initial enabled intervalMs opacity frames).
  induction evs as [|ev evs IH]; intros h Hok; [exact Hok|].
  cbn [fold_left]. apply IH. destruct ev as [t| |]; cbn [hook_handle].
  - unfold jumpTo. destruct (Z.eqb_spec (Z.of_nat (length frames)) 0); [lia|].
    apply with_frameIndex_ok. rewrite wrap_index_mod by lia.
    apply Z.mod_pos_bound. lia.
  - unfold playback_tick.
    destruct (negb (isPlaying h) || (Z.of_nat (length frames) <? 2)); [exact Hok|].
    apply with_frameIndex_ok. destruct Hok as [Hi _].
    rewrite Z.rem_mod_nonneg by lia. apply Z.mod_pos_bound. lia.
  - by apply fade_tick_ok.
Qed.

End AnimatedFacts.

Section AnimatedExamples.
Import Iem AnimatedRadar Invariants.

Lemma jump_settles_on_target_witness :
  let h := initial true 1500 (3 # 4) IEM_FRAMES in
  let h' := Nat.iter 10 (fade_tick (3 # 4)) (jumpTo IEM_FRAMES (-1) h) in
  IEM_FRAMES ≠ []
  ∧ frameIndex h' = 6
  ∧ shown_template h' = iemFrameTemplate m30m
  ∧ front h' = B.
Proof.
  intros h h'. assert (H1 : IEM_FRAMES ≠ []) by done.
  split; [exact H1|].
  destruct (jump_settles_on_target IEM_FRAMES (-1) (3 # 4) h H1)
    as (Hi & _ & (f & Hf & Hs) & Hfr & _).
  split; [exact Hi|]. split; [|exact Hfr].
  fold h' in Hs. rewrite Hs. vm_compute in Hf. by injection Hf as <-.
Defined.

Lemma hook_index_stays_valid_witness :
  IEM_FRAMES ≠ []
  ∧ hook_ok IEM_FRAMES
      (fold_left (hook_handle IEM_FRAMES (3 # 4)) [Playback; Fade; Jump (-9); Fade]
                 (initial true 1500 (3 # 4) IEM_FRAMES)).
Proof.
  assert (H1 : IEM_FRAMES ≠ []) by done.
  split; [exact H1|].
  exact (hook_index_stays_valid IEM_FRAMES true 1500 (3 # 4)
           [Playback; Fade; Jump (-9); Fade] H1).
Defined.

End AnimatedExamples.
